(** * A shallow embedding of the Telegram relay worker (src/worker.js)

    JavaScript strings are modelled by [string], read as the UTF-8 encoding
    of a well-formed string: [TextEncoder.encode] is then the list of its
    bytes, and every pattern the worker looks for (the tag syntax, the
    command word, the separators) is pure ASCII, so that searching bytes
    and searching UTF-16 code units find the same occurrences.  Integers
    are [Z]; the 32-bit words of the digest are [Z] with the wrap-around
    written out.  Asynchronous code is sequential code in a state and
    exception monad over the world (the key-value store and the trace of
    what the worker did); the only place where the order of events is not
    fixed by the program, the settlement order of the deliveries of one
    batch, is a parameter. *)

From Stdlib Require Import ZArith String Ascii List Bool Lia Arith.
From Stdlib Require Import Permutation Sorted FinFun.
From Stdlib Require Import Numbers.DecimalString Numbers.DecimalPos.
Import ListNotations.

Open Scope list_scope.
Open Scope string_scope.

(** ** Strings *)

Module Str.

Definition nl : string := String "010" "".

Definition char_in (lo hi : nat) (c : ascii) : bool :=
  ((lo <=? nat_of_ascii c) && (nat_of_ascii c <=? hi))%nat.

(** [\d] *)
Definition is_digit (c : ascii) : bool := char_in 48 57 c.

(** [[a-f0-9]] *)
Definition is_hex (c : ascii) : bool := is_digit c || char_in 97 102 c.

(** [\w], which is ASCII-only without the unicode and ignore-case flags *)
Definition is_word (c : ascii) : bool :=
  is_digit c || char_in 65 90 c || char_in 97 122 c || Ascii.eqb c "_".

Fixpoint all (p : ascii -> bool) (s : string) : bool :=
  match s with
  | "" => true
  | String c s' => p c && all p s'
  end.

(** [s.startsWith(p)]: the rest of [s] after [p], when [p] is a prefix. *)
Fixpoint strip (p s : string) : option string :=
  match p, s with
  | "", _ => Some s
  | String a p', String b s' => if Ascii.eqb a b then strip p' s' else None
  | String _ _, "" => None
  end.

Definition startsWith (s p : string) : bool :=
  match strip p s with Some _ => true | None => false end.

(** [s.includes(p)] *)
Fixpoint includes (s p : string) : bool :=
  startsWith s p ||
  match s with
  | "" => false
  | String _ s' => includes s' p
  end.

(** The maximal run of characters satisfying [p] at the head of [s], and
    what follows it. *)
Fixpoint span (p : ascii -> bool) (s : string) : string * string :=
  match s with
  | "" => ("", "")
  | String c s' =>
      if p c then let (a, b) := span p s' in (String c a, b) else ("", s)
  end.

(** The first [n] characters, when there are that many, and the rest. *)
Fixpoint take (n : nat) (s : string) : option (string * string) :=
  match n with
  | O => Some ("", s)
  | S n' =>
      match s with
      | "" => None
      | String c s' =>
          match take n' s' with
          | Some (a, b) => Some (String c a, b)
          | None => None
          end
      end
  end.

(** [s.substring(n)] for [n] within the string (here always after a
    successful [startsWith] of an ASCII prefix of [n] characters). *)
Fixpoint drop (n : nat) (s : string) : string :=
  match n, s with
  | O, _ => s
  | S n', String _ s' => drop n' s'
  | S _, "" => ""
  end.

(** [s.split(sep)] for a one-character separator: never empty. *)
Fixpoint split (sep : ascii) (s : string) : list string :=
  match s with
  | "" => [""]
  | String c s' =>
      if Ascii.eqb c sep then "" :: split sep s'
      else match split sep s' with
           | [] => [String c ""]
           | x :: r => String c x :: r
           end
  end.

(** [parts.join(sep)] *)
Fixpoint join (sep : string) (l : list string) : string :=
  match l with
  | [] => ""
  | [x] => x
  | x :: r => x ++ sep ++ join sep r
  end.

Definition rev (s : string) : string :=
  string_of_list_ascii (List.rev (list_ascii_of_string s)).

(** White space and line terminators of ECMAScript, in UTF-8: TAB, LF, VT,
    FF, CR, SP; U+00A0; U+1680; U+2000 to U+200A, U+2028, U+2029, U+202F;
    U+205F; U+3000; U+FEFF.  [ws_head s] is [s] without its first
    character when that character is one of them. *)
Definition ws_head (s : string) : option string :=
  match s with
  | String c r =>
      let n := nat_of_ascii c in
      if ((9 <=? n)%nat && (n <=? 13)%nat) || (n =? 32)%nat then Some r
      else
        match r with
        | String c1 r1 =>
            let n1 := nat_of_ascii c1 in
            if (n =? 194)%nat && (n1 =? 160)%nat then Some r1
            else
              match r1 with
              | String c2 r2 =>
                  let n2 := nat_of_ascii c2 in
                  if (n =? 225)%nat && (n1 =? 154)%nat && (n2 =? 128)%nat then Some r2
                  else if (n =? 226)%nat && (n1 =? 128)%nat &&
                          (((128 <=? n2)%nat && (n2 <=? 138)%nat) ||
                           (n2 =? 168)%nat || (n2 =? 169)%nat || (n2 =? 175)%nat)
                  then Some r2
                  else if (n =? 226)%nat && (n1 =? 129)%nat && (n2 =? 159)%nat then Some r2
                  else if (n =? 227)%nat && (n1 =? 128)%nat && (n2 =? 128)%nat then Some r2
                  else if (n =? 239)%nat && (n1 =? 187)%nat && (n2 =? 191)%nat then Some r2
                  else None
              | "" => None
              end
        | "" => None
        end
  | "" => None
  end.

(** The same test at the end of a string, on the reversed string. *)
Definition ws_last (r : string) : option string :=
  match r with
  | String c r0 =>
      let n := nat_of_ascii c in
      if ((9 <=? n)%nat && (n <=? 13)%nat) || (n =? 32)%nat then Some r0
      else
        match r0 with
        | String c1 r1 =>
            let n1 := nat_of_ascii c1 in
            if (n1 =? 194)%nat && (n =? 160)%nat then Some r1
            else
              match r1 with
              | String c2 r2 =>
                  let n2 := nat_of_ascii c2 in
                  if (n2 =? 225)%nat && (n1 =? 154)%nat && (n =? 128)%nat then Some r2
                  else if (n2 =? 226)%nat && (n1 =? 128)%nat &&
                          (((128 <=? n)%nat && (n <=? 138)%nat) ||
                           (n =? 168)%nat || (n =? 169)%nat || (n =? 175)%nat)
                  then Some r2
                  else if (n2 =? 226)%nat && (n1 =? 129)%nat && (n =? 159)%nat then Some r2
                  else if (n2 =? 227)%nat && (n1 =? 128)%nat && (n =? 128)%nat then Some r2
                  else if (n2 =? 239)%nat && (n1 =? 187)%nat && (n =? 191)%nat then Some r2
                  else None
              | "" => None
              end
        | "" => None
        end
  | "" => None
  end.

Fixpoint trim_with (f : string -> option string) (fuel : nat) (s : string)
  : string :=
  match fuel with
  | O => s
  | S k => match f s with
           | Some r => trim_with f k r
           | None => s
           end
  end.

(** [s.trim()] *)
Definition trim (s : string) : string :=
  let a := trim_with ws_head (String.length s) s in
  rev (trim_with ws_last (String.length a) (rev a)).

(** [/^\d+$/.test(s)] *)
Definition is_digits (s : string) : bool :=
  match s with
  | "" => false
  | _ => all is_digit s
  end.

(** Decimal rendering of an integer, as a template literal renders a
    number that is an integer of absolute value below 2^53.  A number
    holds no greater integer exactly, and from 10^21 on the literal is
    written with an exponent: a property that rests on the digits of an
    identifier carries the bound. *)
Definition of_Z (z : Z) : string := NilEmpty.string_of_int (Z.to_int z).

Definition of_nat (n : nat) : string := of_Z (Z.of_nat n).

End Str.

(** ** SHA-256 and HMAC, the two primitives the worker asks of
    [crypto.subtle] (FIPS 180-4 and RFC 2104).  Bytes are integers in
    [0, 256), words are integers in [0, 2^32). *)

Module SHA256.

Local Open Scope Z_scope.

Definition wrap (x : Z) : Z := Z.land x 0xFFFFFFFF.
Definition add32 (x y : Z) : Z := wrap (x + y).
Definition rotr (n x : Z) : Z :=
  Z.lor (Z.shiftr x n) (wrap (Z.shiftl x (32 - n))).
Definition Ch (x y z : Z) : Z :=
  Z.lxor (Z.land x y) (Z.land (wrap (Z.lnot x)) z).
Definition Maj (x y z : Z) : Z :=
  Z.lxor (Z.lxor (Z.land x y) (Z.land x z)) (Z.land y z).
Definition Sigma0 (x : Z) : Z :=
  Z.lxor (Z.lxor (rotr 2 x) (rotr 13 x)) (rotr 22 x).
Definition Sigma1 (x : Z) : Z :=
  Z.lxor (Z.lxor (rotr 6 x) (rotr 11 x)) (rotr 25 x).
Definition sigma0 (x : Z) : Z :=
  Z.lxor (Z.lxor (rotr 7 x) (rotr 18 x)) (Z.shiftr x 3).
Definition sigma1 (x : Z) : Z :=
  Z.lxor (Z.lxor (rotr 17 x) (rotr 19 x)) (Z.shiftr x 10).

(** The constants are the first thirty-two bits of the fractional parts
    of roots of the first primes: of the cube roots of the first sixty-four
    for the round constants, of the square roots of the first eight for
    the initial state. *)
Definition is_prime (n : nat) : bool :=
  forallb (fun d => negb (n mod d =? 0)%nat) (seq 2 (n - 2)).

Definition primes (n : nat) : list Z :=
  map Z.of_nat (firstn n (filter is_prime (seq 2 310))).

(** The largest [x] below [2 ^ bits] whose cube is at most [n]. *)
Fixpoint cube_root (bits : nat) (n x : Z) : Z :=
  match bits with
  | O => x
  | S k =>
      let y := x + 2 ^ Z.of_nat k in
      if y * y * y <=? n then cube_root k n y else cube_root k n x
  end.

Definition K : list Z :=
  Eval vm_compute in
    map (fun p => wrap (cube_root 36 (p * 2 ^ 96) 0)) (primes 64).

(** The eight working words. *)
Record state := St { sa : Z; sb : Z; sc : Z; sd : Z;
                     se : Z; sf : Z; sg : Z; sh : Z }.

Definition H0 : state :=
  Eval vm_compute in
    match map (fun p => wrap (Z.sqrt (p * 2 ^ 64))) (primes 8) with
    | [a; b; c; d; e; f; g; h] => St a b c d e f g h
    | _ => St 0 0 0 0 0 0 0 0
    end.

(** Big-endian words of a block. *)
Fixpoint words (bs : list Z) : list Z :=
  match bs with
  | b0 :: b1 :: b2 :: b3 :: r =>
      (Z.shiftl b0 24 + Z.shiftl b1 16 + Z.shiftl b2 8 + b3) :: words r
  | _ => []
  end.

(** The message schedule, newest word first. *)
Fixpoint schedule (n : nat) (w : list Z) : list Z :=
  match n with
  | O => w
  | S n' =>
      let x := add32 (add32 (sigma1 (nth 1 w 0)) (nth 6 w 0))
                     (add32 (sigma0 (nth 14 w 0)) (nth 15 w 0)) in
      schedule n' (x :: w)
  end.

Definition round (s : state) (kw : Z * Z) : state :=
  let (k, w) := kw in
  let t1 := add32 (add32 (add32 (sh s) (Sigma1 (se s)))
                         (add32 (Ch (se s) (sf s) (sg s)) k)) w in
  let t2 := add32 (Sigma0 (sa s)) (Maj (sa s) (sb s) (sc s)) in
  St (add32 t1 t2) (sa s) (sb s) (sc s) (add32 (sd s) t1) (se s) (sf s) (sg s).

Definition compress (s : state) (block : list Z) : state :=
  let w := List.rev (schedule 48 (List.rev (words block))) in
  let r := fold_left round (combine K w) s in
  St (add32 (sa s) (sa r)) (add32 (sb s) (sb r))
     (add32 (sc s) (sc r)) (add32 (sd s) (sd r))
     (add32 (se s) (se r)) (add32 (sf s) (sf r))
     (add32 (sg s) (sg r)) (add32 (sh s) (sh r)).

Definition be32 (x : Z) : list Z :=
  [Z.land (Z.shiftr x 24) 255; Z.land (Z.shiftr x 16) 255;
   Z.land (Z.shiftr x 8) 255; Z.land x 255].

Definition pad (msg : list Z) : list Z :=
  let len := Z.of_nat (List.length msg) in
  let zeros := Z.to_nat ((55 - len) mod 64) in
  msg ++ [128] ++ repeat 0 zeros
      ++ be32 (Z.shiftr (8 * len) 32) ++ be32 (wrap (8 * len)).

Fixpoint blocks (fuel : nat) (bs : list Z) : list (list Z) :=
  match fuel with
  | O => []
  | S k =>
      match bs with
      | [] => []
      | _ => firstn 64 bs :: blocks k (skipn 64 bs)
      end
  end.

Definition output (s : state) : list Z :=
  be32 (sa s) ++ be32 (sb s) ++ be32 (sc s) ++ be32 (sd s) ++
  be32 (se s) ++ be32 (sf s) ++ be32 (sg s) ++ be32 (sh s).

Definition digest (msg : list Z) : list Z :=
  let p := pad msg in
  output (fold_left compress (blocks (List.length p) p) H0).

(** HMAC with SHA-256: block size 64; a longer key is hashed first, a
    shorter one is filled with zero bytes. *)
Definition hmac_key (key : list Z) : list Z :=
  let k := if (64 <? Z.of_nat (List.length key)) then digest key else key in
  k ++ repeat 0 (64 - List.length k)%nat.

Definition hmac (key msg : list Z) : list Z :=
  let k := hmac_key key in
  digest (map (Z.lxor 0x5c) k ++ digest (map (Z.lxor 0x36) k ++ msg)).

End SHA256.

(** [new TextEncoder().encode(s)] *)
Definition encode (s : string) : list Z :=
  map (fun c => Z.of_nat (nat_of_ascii c)) (list_ascii_of_string s).

(** [b.toString(16).padStart(2, '0')] for an element of a [Uint8Array] *)
Definition hexdigit (n : Z) : ascii :=
  match String.get (Z.to_nat (n mod 16)) "0123456789abcdef" with
  | Some c => c
  | None => "0"%char
  end.

Definition hex2 (b : Z) : string :=
  String (hexdigit (b / 16)) (String (hexdigit b) "").

(** [bytes.map(b => ...).join('')] *)
Definition hex (bs : list Z) : string :=
  Str.join "" (map hex2 bs).

(** [s.substring(0, n)] *)
Definition substring0 (n : nat) (s : string) : string := String.substring 0 n s.

(** ** Identity tags *)

(** JavaScript truthiness of an optional string: [undefined] and the
    empty string are falsy. *)
Definition truthy (s : option string) : bool :=
  match s with
  | Some (String _ _) => true
  | _ => false
  end.

Definition generateUserIdSignature (userId : string) (secret : option string)
  : string :=
  match secret with
  | Some (String _ _ as key) =>
      let data := encode ("user:" ++ userId) in
      let signature := SHA256.hmac (encode key) data in
      substring0 16 (hex signature)
  | _ =>
      let data := encode ("user:" ++ userId ++ ":fallback") in
      let hashBuffer := SHA256.digest data in
      substring0 16 (hex hashBuffer)
  end.

Definition verifyUserIdSignature (userId signature : string)
  (secret : option string) : bool :=
  let expectedSignature := generateUserIdSignature userId secret in
  String.eqb signature expectedSignature.

Definition createSecureUserTag (userId : string) (secret : option string)
  : string :=
  let signature := generateUserIdSignature userId secret in
  "[USER:" ++ userId ++ ":" ++ signature ++ "]".

(** The leftmost match of a pattern, [at_pos] deciding whether the pattern
    matches at the head of a string (and with which groups). *)
Fixpoint search {A : Type} (at_pos : string -> option A) (s : string)
  : option A :=
  match at_pos s with
  | Some r => Some r
  | None =>
      match s with
      | "" => None
      | String _ s' => search at_pos s'
      end
  end.

(** [/\[USER:(\d+):([a-f0-9]{16})\]/] at the head of [s].  The digits are
    followed by a colon, which is no digit, so that only the maximal run
    of digits can match and nothing is gained by giving digits back. *)
Definition secure_at (s : string) : option (string * string) :=
  match Str.strip "[USER:" s with
  | Some r =>
      let (userId, r1) := Str.span Str.is_digit r in
      match userId with
      | "" => None
      | _ =>
          match Str.strip ":" r1 with
          | Some r2 =>
              match Str.take 16 r2 with
              | Some (signature, r3) =>
                  if Str.all Str.is_hex signature && Str.startsWith r3 "]"
                  then Some (userId, signature)
                  else None
              | None => None
              end
          | None => None
          end
      end
  | None => None
  end.

(** [/\[USER:(\d+)\](?![:\w])/] at the head of [s]: the bracket is no
    digit either. *)
Definition legacy_at (s : string) : option string :=
  match Str.strip "[USER:" s with
  | Some r =>
      let (userId, r1) := Str.span Str.is_digit r in
      match userId with
      | "" => None
      | _ =>
          match Str.strip "]" r1 with
          | Some (String c _) =>
              if Ascii.eqb c ":" || Str.is_word c then None else Some userId
          | Some "" => Some userId
          | None => None
          end
      end
  | None => None
  end.

Definition extractUserChatId (messageText : option string)
  (secret : option string) : option string :=
  match messageText with
  | Some (String _ _ as text) =>
      let secureMatch := search secure_at text in
      match secureMatch with
      | Some (userId, signature) =>
          let isValid := verifyUserIdSignature userId signature secret in
          if isValid then Some userId else None
      | None =>
          let legacyMatch := search legacy_at text in
          match legacyMatch, secureMatch with
          | Some userId, None => Some userId
          | _, _ => None
          end
      end
  | _ => None
  end.

(** ** The command parser *)

Inductive UserIds :=
| All
| Ids (l : list string).

Record PostTargets := { userIds : UserIds; message : string }.

Definition parsePostTargets (commandText : string) : PostTargets :=
  match commandText with
  | "" => {| userIds := Ids []; message := "" |}
  | _ =>
      let parts := Str.split " " commandText in
      if (List.length parts <? 2)%nat
      then {| userIds := Ids []; message := "" |}
      else
        let targetsStr := hd "" parts in
        let message := Str.join " " (tl parts) in
        if String.eqb targetsStr "all"
        then {| userIds := All; message := message |}
        else
          let userIds :=
            filter Str.is_digits (map Str.trim (Str.split "," targetsStr)) in
          {| userIds := Ids userIds; message := message |}
  end.

(** ** The world of the worker *)

(** A chat identifier reaches the transport as a number (from an update
    or from a stored record) or as a string (from a command, from a tag
    or from the configuration). *)
Inductive ChatId :=
| Num (n : Z)
| Txt (s : string).

(** What a template literal makes of it. *)
Definition render (c : ChatId) : string :=
  match c with
  | Num n => Str.of_Z n
  | Txt s => s
  end.

(** The two methods of the transport that deliver something, with the
    parameters that vary: the token of the bot and the parse mode of a text
    are the same in every request. *)
Inductive Call :=
| SendMessage (chat_id : ChatId) (text : string)
              (reply_to_message_id : option Z)
| CopyMessage (chat_id from_chat_id : ChatId) (message_id : option Z)
              (caption : option string).

(** The parsed body of an answer of the transport. *)
Record Json := { ok : bool; description : option string }.

(** A request either comes back with a body or fails: no connection, a
    status that is not a success, a body that does not parse. *)
Inductive Outcome :=
| Returned (body : Json)
| Failed (message : string).

(** A record of the recipient directory; [lastActive] is the instant the
    stored ISO date denotes, in milliseconds. *)
Module User.
Record t := { chatId : Z; userName : string; userId : Z; lastActive : Z }.
End User.

Inductive Event :=
| Fetch (c : Call)
| Settled (chat : ChatId) (success : bool)
| AllSettled
| Delay (ms : Z)
| Put (users : list User.t).

(** [USER_STORAGE] is the content of the key [user_list] when the store is
    bound; [now] is what [new Date()] reads. *)
Record World := {
  USER_STORAGE : option (list User.t);
  now : Z;
  trace : list Event
}.

Definition emit (e : Event) (w : World) : World :=
  {| USER_STORAGE := USER_STORAGE w; now := now w; trace := trace w ++ [e] |}.

Definition store (users : list User.t) (w : World) : World :=
  {| USER_STORAGE := Some users; now := now w; trace := trace w |}.

(** What the environment decides: the outcome of each request, given all
    that happened before it; the order in which the deliveries of one
    batch settle; the rendering of a date for the reader. *)
Class Runtime := {
  transport : list Event -> Call -> Outcome;
  sched : list (ChatId * option string) -> list (ChatId * option string);
  sched_perm : forall l, Permutation (sched l) l;
  toLocaleString : Z -> string
}.

(** Results of a computation: a value, an exception with its message, or
    fuel that ran out. *)
Inductive Res (A : Type) :=
| Val (a : A)
| Exn (message : string)
| OutOfFuel.
Arguments Val {A} a.
Arguments Exn {A} message.
Arguments OutOfFuel {A}.

Definition M (A : Type) : Type := World -> Res A * World.

Definition ret {A : Type} (a : A) : M A := fun w => (Val a, w).

Definition bind {A B : Type} (m : M A) (k : A -> M B) : M B :=
  fun w =>
    match m w with
    | (Val a, w') => k a w'
    | (Exn e, w') => (Exn e, w')
    | (OutOfFuel, w') => (OutOfFuel, w')
    end.

Definition try_catch {A : Type} (m : M A) (handler : string -> M A) : M A :=
  fun w =>
    match m w with
    | (Exn e, w') => handler e w'
    | r => r
    end.

Definition tell (e : Event) : M unit := fun w => (Val tt, emit e w).

Declare Scope worker_scope.
Delimit Scope worker_scope with worker.
Notation "x <- m ;; k" := (bind m (fun x => k))
  (at level 61, m at next level, right associativity) : worker_scope.
Notation "m ;; k" := (bind m (fun _ => k))
  (at level 61, right associativity) : worker_scope.

Record Env := {
  BOT_TOKEN : string;
  ADMIN_CHAT_ID : string;
  ENABLE_USER_TRACKING : option string;
  USER_ID_SECRET : option string
}.

Module From.
Record t := { id : Z; username : option string; first_name : option string }.
End From.

Module Replied.
Record t := { text : option string; caption : option string; message_id : Z }.
End Replied.

Module Msg.
Record t := {
  from : From.t;
  chat_id : Z;
  message_id : Z;
  text : option string;
  caption : option string;
  reply_to_message : option Replied.t
}.
End Msg.

Module UserInfo.
Record t := {
  userName : string;
  userId : Z;
  chatId : Z;
  time : string;
  header : string
}.
End UserInfo.

Record Results := { success : nat; failed : nat; errors : list string }.

(** [a || b] on optional strings *)
Definition or_else (a : option string) (b : string) : string :=
  match a with
  | Some (String _ _ as s) => s
  | _ => b
  end.

(** [env.ENABLE_USER_TRACKING === 'true'] *)
Definition tracking (env : Env) : bool :=
  match ENABLE_USER_TRACKING env with
  | Some s => String.eqb s "true"
  | None => false
  end.

(** [text === s] *)
Definition text_is (text : option string) (s : string) : bool :=
  match text with
  | Some t => String.eqb t s
  | None => false
  end.

(** [text && text.startsWith(p)] *)
Definition text_starts (text : option string) (p : string) : bool :=
  match text with
  | Some t => Str.startsWith t p
  | None => false
  end.

(** [users.findIndex(u => u.chatId === chatId)] *)
Fixpoint findIndex (chatId : Z) (users : list User.t) : option nat :=
  match users with
  | [] => None
  | u :: r =>
      if Z.eqb (User.chatId u) chatId then Some O
      else option_map S (findIndex chatId r)
  end.

(** [users[i] = x] for an index within the array *)
Fixpoint assign (i : nat) (x : User.t) (users : list User.t) : list User.t :=
  match users, i with
  | [], _ => []
  | _ :: r, O => x :: r
  | u :: r, S j => u :: assign j x r
  end.

(** [users.sort((a, b) => time(b.lastActive) - time(a.lastActive))]: the
    most recently active first; the sort of an array is stable, which
    fixes the result. *)
Fixpoint insert (x : User.t) (l : list User.t) : list User.t :=
  match l with
  | [] => [x]
  | y :: r =>
      if Z.leb (User.lastActive y) (User.lastActive x) then x :: l
      else y :: insert x r
  end.

Definition sort (users : list User.t) : list User.t :=
  fold_right insert [] users.

(** [users.slice(i, j)] *)
Definition slice {A : Type} (i j : nat) (l : list A) : list A :=
  firstn (j - i) (skipn i l).

Definition batchSize : nat := 10.

(** ** The texts the worker sends *)

Module Text.

Definition header (userName : string) (userId : Z) (time : string) : string :=
  "📩 *来自用户: " ++ userName ++ "*" ++ Str.nl ++ "🆔 ID: `" ++ Str.of_Z userId ++
  "`" ++ Str.nl ++ "⏰ 时间: " ++ time ++ Str.nl ++ "────────────────────".

Definition welcome : string :=
  "👋 你好！我是消息转发机器人。" ++ Str.nl ++ Str.nl ++ "请发送你的消息，我会转发给管理员并尽快回复你。".

Definition forwardText (header text secureUserTag : string) : string :=
  header ++ Str.nl ++ "📝 *消息内容:*" ++ Str.nl ++ text ++ Str.nl ++ Str.nl ++ "`" ++
  secureUserTag ++ "`".

Definition captionNote (caption : string) : string :=
  "📝 *说明:* " ++ caption ++ Str.nl ++ Str.nl.

Definition forwardCaption (header : string) (caption : option string)
  (secureUserTag : string) : string :=
  header ++ Str.nl ++
  (match caption with
   | Some (String _ _ as c) => captionNote c
   | _ => ""
   end) ++ "`" ++ secureUserTag ++ "`".

Definition delivered : string :=
  "✅ 你的消息已发送给管理员，请耐心等待回复。".

Definition notDelivered : string :=
  "❌ 抱歉，消息发送失败，请稍后再试。".

Definition trackingOn : string :=
  "🟢 已启用".

Definition trackingOff : string :=
  "🔴 未启用".

Definition adminPanel (userTrackingStatus : string) : string :=
  "🔧 *管理员面板*" ++ Str.nl ++ Str.nl ++ "👋 欢迎使用消息转发机器人管理面板！" ++ Str.nl ++ Str.nl ++
  "📋 *可用命令:*" ++ Str.nl ++ "• `/status` - 查看机器人状态" ++ Str.nl ++
  "• `/help` - 显示帮助信息" ++ Str.nl ++ "• `/post` - 群发消息功能" ++ Str.nl ++
  "• `/users` - 查看用户列表（需启用用户跟踪）" ++ Str.nl ++ Str.nl ++ "💡 *使用说明:*" ++ Str.nl ++
  "• 直接回复用户消息即可回复给对应用户" ++ Str.nl ++ "• 使用 /post 命令进行消息群发" ++ Str.nl ++ Str.nl ++
  "📊 *系统状态:*" ++ Str.nl ++ "• 用户跟踪: " ++ userTrackingStatus ++ Str.nl ++ Str.nl ++
  "🤖 机器人已就绪，等待用户消息...".

Definition noTracking : string :=
  "未启用跟踪".

Definition status (userCount time : string) : string :=
  "📊 *机器人状态*" ++ Str.nl ++ Str.nl ++ "🟢 状态: 运行中" ++ Str.nl ++ "🔄 模式: 无状态转发" ++ Str.nl ++
  "👥 已跟踪用户: " ++ userCount ++ Str.nl ++ "⏰ 查询时间: " ++ time.

Definition help : string :=
  "❓ *帮助信息*" ++ Str.nl ++ Str.nl ++ "🔄 *回复用户:*" ++ Str.nl ++ "直接回复用户的消息即可发送回复给对应用户" ++
  Str.nl ++ Str.nl ++ "📢 *群发消息:*" ++ Str.nl ++ "• `/post all 消息内容` - 向所有用户群发（需启用用户跟踪）" ++
  Str.nl ++ "• `/post 123,456,789 消息内容` - 向指定用户群发" ++ Str.nl ++
  "• 回复媒体消息并使用 /post 命令可群发媒体" ++ Str.nl ++ Str.nl ++ "👥 *用户管理:*" ++ Str.nl ++
  "• `/users` - 查看已跟踪的用户列表" ++ Str.nl ++ Str.nl ++ "📝 *消息格式:*" ++ Str.nl ++
  "• 支持文本、图片、文件等各种消息类型" ++ Str.nl ++ "• 支持Markdown格式" ++ Str.nl ++ Str.nl ++
  "⚙️ *命令列表:*" ++ Str.nl ++ "• `/start` - 显示欢迎信息" ++ Str.nl ++
  "• `/status` - 查看机器人状态" ++ Str.nl ++ "• `/help` - 显示此帮助信息" ++ Str.nl ++
  "• `/post` - 群发消息功能" ++ Str.nl ++ "• `/users` - 查看用户列表".

Definition postUsage : string :=
  "📢 *群发功能使用说明*" ++ Str.nl ++ Str.nl ++ "🎯 *命令格式:*" ++ Str.nl ++
  "• `/post all 消息内容` - 向所有用户群发" ++ Str.nl ++
  "• `/post 123,456,789 消息内容` - 向指定用户群发" ++ Str.nl ++ Str.nl ++ "💡 *示例:*" ++ Str.nl ++
  "• `/post all 系统维护通知：今晚22:00-23:00进行维护`" ++ Str.nl ++
  "• `/post 123456789,987654321 您好，这是一条测试消息`" ++ Str.nl ++ Str.nl ++ "📎 *群发媒体:*" ++
  Str.nl ++ "回复包含图片/文件的消息，然后使用 /post 命令" ++ Str.nl ++ Str.nl ++ "⚠️ *注意:*" ++ Str.nl ++
  "• 使用 'all' 需要启用用户跟踪功能" ++ Str.nl ++ "• 手动指定用户ID时，请用英文逗号分隔" ++ Str.nl ++
  "• 群发会自动限速以避免API限制".

Definition noPayload : string :=
  "❌ 请提供要群发的消息内容".

Definition needTracking : string :=
  "❌ 使用 'all' 群发需要启用用户跟踪功能" ++ Str.nl ++ Str.nl ++
  "请设置环境变量 `ENABLE_USER_TRACKING=true` 并绑定KV存储".

Definition noValidIds : string :=
  "❌ 未找到有效的用户ID" ++ Str.nl ++ Str.nl ++ "请检查格式: `/post 123,456,789 消息内容`".

Definition starting (targetCount : nat) : string :=
  "🚀 开始群发消息..." ++ Str.nl ++ Str.nl ++ "📊 目标用户数: " ++ Str.of_nat targetCount ++ Str.nl ++
  "⏳ 请稍候...".

Definition reportHead (success failed : nat) : string :=
  "📊 *群发完成报告*" ++ Str.nl ++ Str.nl ++ "✅ 成功: " ++ Str.of_nat success ++ Str.nl ++
  "❌ 失败: " ++ Str.of_nat failed ++ Str.nl ++ Str.nl.

Definition reportMore (n : nat) : string :=
  Str.nl ++ "... 还有 " ++ Str.of_nat n ++ " 个错误".

Definition reportDetails : string :=
  "🔍 *错误详情:*" ++ Str.nl.

Definition reportAllSent : string :=
  "🎉 全部发送成功！".

Definition trackingDisabled : string :=
  "❌ 用户跟踪功能未启用" ++ Str.nl ++ Str.nl ++ "请设置环境变量 `ENABLE_USER_TRACKING=true` 并绑定KV存储".

Definition noUsers : string :=
  "📭 暂无用户记录" ++ Str.nl ++ Str.nl ++ "用户首次发送消息后会自动记录".

Definition userLine (index : nat) (userName : string) (chatId : Z) (lastActive : string) : string :=
  Str.of_nat (index + 1) ++ ". " ++ userName ++ Str.nl ++ "   ID: `" ++
  Str.of_Z chatId ++ "`" ++ Str.nl ++ "   最后活跃: " ++ lastActive.

Definition userListHead (shown total : nat) (userList : string) : string :=
  "👥 *用户列表* (最近 " ++ Str.of_nat shown ++ "/" ++ Str.of_nat total ++ ")" ++
  Str.nl ++ Str.nl ++ userList.

Definition startingMedia (targetCount : nat) : string :=
  "🚀 开始群发媒体消息..." ++ Str.nl ++ Str.nl ++ "📊 目标用户数: " ++ Str.of_nat targetCount.

Definition mediaReport (success failed : nat) : string :=
  "📊 *媒体群发完成*" ++ Str.nl ++ Str.nl ++ "✅ 成功: " ++ Str.of_nat success ++ Str.nl ++
  "❌ 失败: " ++ Str.of_nat failed.

Definition unrecognized : string :=
  "⚠️ 无法识别用户信息。请回复带有用户标识的转发消息。".

Definition adminReply (text : string) : string :=
  "💬 *管理员回复:*" ++ Str.nl ++ Str.nl ++ text.

Definition adminReplyBare : string :=
  "💬 *管理员回复:*".

Definition replySent (userChatId : string) : string :=
  "✅ 回复已发送给用户 (ID: " ++ userChatId ++ ")".

Definition unknownError : string :=
  "未知错误".

Definition replyFailed (description : string) : string :=
  "❌ 回复发送失败: " ++ description.

Definition hint : string :=
  "💡 *提示:* 请回复具体的用户消息来发送回复，或使用群发命令。" ++ Str.nl ++ Str.nl ++
  "📢 群发: `/post all 消息内容`" ++ Str.nl ++ "❓ 帮助: `/help`".

Definition processingError (message : string) : string :=
  "❌ 处理消息时发生错误: " ++ message.

Definition noRecipients : string :=
  "未找到可广播的用户，请确保已启用用户跟踪功能".

Definition noTargets : string :=
  "未指定有效的用户ID".

Definition broadcast (message : string) : string :=
  "📢 *管理员广播:*" ++ Str.nl ++ Str.nl ++ message.

Definition diagnostic (chatId message : string) : string :=
  "用户 " ++ chatId ++ ": " ++ message.

End Text.

(** ** The worker *)

Section Worker.

Context {R : Runtime}.
Local Open Scope worker_scope.

Definition callTelegramAPI (c : Call) : M Json :=
  fun w =>
    match transport (trace w) c with
    | Returned body => (Val body, emit (Fetch c) w)
    | Failed message => (Exn message, emit (Fetch c) w)
    end.

Definition sendMessage (chatId : ChatId) (text : string)
  (reply_to_message_id : option Z) : M Json :=
  callTelegramAPI (SendMessage chatId text reply_to_message_id).

Definition copyMessage (chatId fromChatId : ChatId) (messageId : option Z)
  (caption : option string) : M Json :=
  callTelegramAPI (CopyMessage chatId fromChatId messageId caption).

(** [new Date()] *)
Definition date : M Z := fun w => (Val (now w), w).

(** The store answers and holds a list of records; without a store the
    list is empty. *)
Definition getUsersFromKV : M (list User.t) :=
  fun w =>
    match USER_STORAGE w with
    | None => (Val [], w)
    | Some users => (Val users, w)
    end.

Definition put (users : list User.t) : M unit :=
  fun w => (Val tt, emit (Put users) (store users w)).

Definition addUserToKV (chatId : Z) (userInfo : UserInfo.t) : M unit :=
  fun w =>
    match USER_STORAGE w with
    | None => (Val tt, w)
    | Some _ =>
        (users <- getUsersFromKV ;;
         let existingIndex := findIndex chatId users in
         lastActive <- date ;;
         let userData :=
           {| User.chatId := chatId;
              User.userName := UserInfo.userName userInfo;
              User.userId := UserInfo.userId userInfo;
              User.lastActive := lastActive |} in
         let users :=
           match existingIndex with
           | Some i => assign i userData users
           | None => (users ++ [userData])%list
           end in
         let users :=
           if (1000 <? List.length users)%nat
           then firstn 1000 (sort users)
           else users in
         put users) w
    end.

(** [batch.map(start)] for a function that acts on the world: one after
    the other, in the order of the array. *)
Fixpoint mapM {A B : Type} (start : A -> M B) (batch : list A) : M (list B) :=
  match batch with
  | x :: rest =>
      y <- start x ;;
      ys <- mapM start rest ;;
      ret (y :: ys)
  | [] => ret []
  end.

Fixpoint tell_all (l : list Event) : M unit :=
  match l with
  | [] => ret tt
  | e :: r => tell e ;; tell_all r
  end.

(** One delivery of a batch, up to the request it sends: the recipient,
    and the message of the error when the request failed. *)
Definition deliver (env : Env) (message : string) (isMedia : bool)
  (messageId : option Z) (chatId : ChatId) : M (ChatId * option string) :=
  try_catch
    ((if isMedia
      then copyMessage chatId (Txt (ADMIN_CHAT_ID env)) messageId
                       (Some (Text.broadcast message))
      else sendMessage chatId (Text.broadcast message) None) ;;
     ret (chatId, None))
    (fun error => ret (chatId, Some error)).

(** What the settlement of one delivery does to the counts. *)
Definition settle (results : Results) (d : ChatId * option string) : Results :=
  match snd d with
  | None =>
      {| success := S (success results);
         failed := failed results;
         errors := errors results |}
  | Some message =>
      {| success := success results;
         failed := S (failed results);
         errors :=
           (errors results ++ [Text.diagnostic (render (fst d)) message])%list |}
  end.

Definition settled (d : ChatId * option string) : Event :=
  Settled (fst d) (match snd d with None => true | Some _ => false end).

(** One batch: every request is sent, in the order of the batch; the
    deliveries settle in the order the environment chooses; then
    [Promise.allSettled] resolves. *)
Definition run_batch (env : Env) (message : string) (isMedia : bool)
  (messageId : option Z) (batch : list ChatId) (results : Results)
  : M Results :=
  started <- mapM (deliver env message isMedia messageId) batch ;;
  let order := sched started in
  tell_all (map settled order) ;;
  tell AllSettled ;;
  ret (fold_left settle order results).

(** [for (let i = ...; i < targetUserIds.length; i += batchSize)] *)
Fixpoint batches (fuel : nat) (env : Env) (message : string) (isMedia : bool)
  (messageId : option Z) (targetUserIds : list ChatId) (i : nat)
  (results : Results) : M Results :=
  if (i <? List.length targetUserIds)%nat then
    match fuel with
    | O => fun w => (OutOfFuel, w)
    | S fuel' =>
        let batch := slice i (i + batchSize) targetUserIds in
        results <- run_batch env message isMedia messageId batch results ;;
        (if (i + batchSize <? List.length targetUserIds)%nat
         then tell (Delay 100)
         else ret tt) ;;
        batches fuel' env message isMedia messageId targetUserIds
                (i + batchSize) results
    end
  else ret results.

Definition fan_out (env : Env) (message : string) (isMedia : bool)
  (messageId : option Z) (targetUserIds : list ChatId) : M Results :=
  if (List.length targetUserIds =? 0)%nat
  then ret {| success := 0; failed := 1; errors := [Text.noTargets] |}
  else batches (List.length targetUserIds) env message isMedia messageId
               targetUserIds 0
               {| success := 0; failed := 0; errors := [] |}.

Definition broadcastMessage (userIds : UserIds) (message : string) (env : Env)
  (isMedia : bool) (messageId : option Z) : M Results :=
  match userIds with
  | All =>
      users <- getUsersFromKV ;;
      let targetUserIds := map (fun u => Num (User.chatId u)) users in
      if (List.length targetUserIds =? 0)%nat
      then ret {| success := 0; failed := 1; errors := [Text.noRecipients] |}
      else fan_out env message isMedia messageId targetUserIds
  | Ids l => fan_out env message isMedia messageId (map Txt l)
  end.

Definition createUserInfo (message : Msg.t) : M UserInfo.t :=
  let from := Msg.from message in
  let userName :=
    or_else (From.username from) (or_else (From.first_name from) "Unknown") in
  let userId := From.id from in
  let chatId := Msg.chat_id message in
  d <- date ;;
  let time := toLocaleString d in
  ret {| UserInfo.userName := userName;
         UserInfo.userId := userId;
         UserInfo.chatId := chatId;
         UserInfo.time := time;
         UserInfo.header := Text.header userName userId time |}.

Definition handleUserMessage (message : Msg.t) (env : Env) : M unit :=
  userInfo <- createUserInfo message ;;
  let user := Num (UserInfo.chatId userInfo) in
  try_catch
    ((if tracking env
      then addUserToKV (UserInfo.chatId userInfo) userInfo
      else ret tt) ;;
     if text_is (Msg.text message) "/start"
     then sendMessage user Text.welcome None ;; ret tt
     else
       let secureUserTag :=
         createSecureUserTag (Str.of_Z (UserInfo.chatId userInfo))
                             (USER_ID_SECRET env) in
       forwardResult <-
         match Msg.text message with
         | Some (String _ _ as text) =>
             sendMessage (Txt (ADMIN_CHAT_ID env))
               (Text.forwardText (UserInfo.header userInfo) text secureUserTag)
               None
         | _ =>
             copyMessage (Txt (ADMIN_CHAT_ID env)) user
               (Some (Msg.message_id message))
               (Some (Text.forwardCaption (UserInfo.header userInfo)
                        (Msg.caption message) secureUserTag))
         end ;;
       if ok forwardResult
       then sendMessage user Text.delivered None ;; ret tt
       else ret tt)
    (fun error =>
       try_catch (sendMessage user Text.notDelivered None ;; ret tt)
                 (fun sendError => ret tt)).

Definition targetCount (userIds : UserIds) : M nat :=
  match userIds with
  | All => users <- getUsersFromKV ;; ret (List.length users)
  | Ids l => ret (List.length l)
  end.

Definition report (results : Results) : string :=
  Text.reportHead (success results) (failed results) ++
  (if (0 <? List.length (errors results))%nat
   then Text.reportDetails ++ Str.join Str.nl (firstn 5 (errors results)) ++
        (if (5 <? List.length (errors results))%nat
         then Text.reportMore (List.length (errors results) - 5)
         else "")
   else Text.reportAllSent).

Fixpoint mapi {A B : Type} (f : nat -> A -> B) (i : nat) (l : list A)
  : list B :=
  match l with
  | [] => []
  | x :: r => f i x :: mapi f (S i) r
  end.

Definition text_of (text : option string) : string :=
  match text with
  | Some t => t
  | None => ""
  end.

(** [o?.includes(p)] *)
Definition opt_includes (o : option string) (p : string) : bool :=
  match o with
  | Some s => Str.includes s p
  | None => false
  end.

(** [a || b] where both may be missing *)
Definition or_opt (a b : option string) : option string :=
  if truthy a then a else b.

Definition is_all (userIds : UserIds) : bool :=
  match userIds with
  | All => true
  | Ids _ => false
  end.

Definition is_empty_array (userIds : UserIds) : bool :=
  match userIds with
  | Ids [] => true
  | _ => false
  end.

(** The branch of a text that starts with [/post]. *)
Definition postCommand (message : Msg.t) (env : Env) : M unit :=
  let admin := Txt (ADMIN_CHAT_ID env) in
  let reply := Some (Msg.message_id message) in
  let commandText := Str.trim (Str.drop 5 (text_of (Msg.text message))) in
  match commandText with
  | "" => sendMessage admin Text.postUsage reply ;; ret tt
  | _ =>
      let '{| userIds := userIds; message := postMessage |} :=
        parsePostTargets commandText in
      match postMessage with
      | "" => sendMessage admin Text.noPayload reply ;; ret tt
      | _ =>
          if is_all userIds && negb (tracking env)
          then sendMessage admin Text.needTracking reply ;; ret tt
          else if is_empty_array userIds
          then sendMessage admin Text.noValidIds reply ;; ret tt
          else
            targetCount <- targetCount userIds ;;
            sendMessage admin (Text.starting targetCount) reply ;;
            results <- broadcastMessage userIds postMessage env false None ;;
            sendMessage admin (report results) None ;;
            ret tt
      end
  end.

(** The branch of the text [/users]. *)
Definition usersCommand (env : Env) : M unit :=
  let admin := Txt (ADMIN_CHAT_ID env) in
  if negb (tracking env)
  then sendMessage admin Text.trackingDisabled None ;; ret tt
  else
    users <- getUsersFromKV ;;
    if (List.length users =? 0)%nat
    then sendMessage admin Text.noUsers None ;; ret tt
    else
      let users := sort users in
      let recentUsers := firstn 20 users in
      let userList :=
        Str.join (Str.nl ++ Str.nl)
          (mapi (fun index user =>
                   Text.userLine index (User.userName user) (User.chatId user)
                     (toLocaleString (User.lastActive user)))
                0 recentUsers) in
      sendMessage admin
        (Text.userListHead (List.length recentUsers) (List.length users)
           userList ++
         (if (20 <? List.length users)%nat
          then Str.nl ++ Str.nl ++ "..."
          else ""))
        None ;;
      ret tt.

(** The branch of a reply whose text starts with [/post], when the
    message replied to carries no tag. *)
Definition mediaBroadcast (message : Msg.t) (repliedMessage : Replied.t)
  (env : Env) : M unit :=
  let admin := Txt (ADMIN_CHAT_ID env) in
  let reply := Some (Msg.message_id message) in
  let commandText := Str.trim (Str.drop 5 (text_of (Msg.text message))) in
  let '{| userIds := userIds; message := postMessage |} :=
    parsePostTargets commandText in
  match postMessage with
  | "" => sendMessage admin Text.noPayload reply ;; ret tt
  | _ =>
      targetCount <- targetCount userIds ;;
      sendMessage admin (Text.startingMedia targetCount) reply ;;
      results <- broadcastMessage userIds postMessage env true
                   (Some (Replied.message_id repliedMessage)) ;;
      sendMessage admin
        (Text.mediaReport (success results) (failed results)) None ;;
      ret tt
  end.

(** The branch of an ordinary reply. *)
Definition routedReply (message : Msg.t) (repliedMessage : Replied.t)
  (env : Env) : M unit :=
  let admin := Txt (ADMIN_CHAT_ID env) in
  let reply := Some (Msg.message_id message) in
  let userChatId :=
    extractUserChatId
      (or_opt (Replied.text repliedMessage) (Replied.caption repliedMessage))
      (USER_ID_SECRET env) in
  match userChatId with
  | None => sendMessage admin Text.unrecognized reply ;; ret tt
  | Some userChatId =>
      replyResult <-
        match Msg.text message with
        | Some (String _ _ as text) =>
            sendMessage (Txt userChatId) (Text.adminReply text) None
        | _ =>
            copyMessage (Txt userChatId) admin (Some (Msg.message_id message))
              (Some match Msg.caption message with
                    | Some (String _ _ as caption) => Text.adminReply caption
                    | _ => Text.adminReplyBare
                    end)
        end ;;
      if ok replyResult
      then sendMessage admin (Text.replySent userChatId) reply ;; ret tt
      else
        sendMessage admin
          (Text.replyFailed (or_else (description replyResult)
                                     Text.unknownError)) reply ;;
        ret tt
  end.

Definition handleAdminMessage (message : Msg.t) (env : Env) : M unit :=
  let admin := Txt (ADMIN_CHAT_ID env) in
  let text := Msg.text message in
  try_catch
    (if text_is text "/start" then
       let userTrackingStatus :=
         if tracking env then Text.trackingOn else Text.trackingOff in
       sendMessage admin (Text.adminPanel userTrackingStatus) None ;; ret tt
     else if text_is text "/status" then
       userCount <-
         (if tracking env
          then users <- getUsersFromKV ;; ret (Str.of_nat (List.length users))
          else ret Text.noTracking) ;;
       d <- date ;;
       sendMessage admin (Text.status userCount (toLocaleString d)) None ;;
       ret tt
     else if text_is text "/help" then
       sendMessage admin Text.help None ;; ret tt
     else if text_starts text "/post" then
       postCommand message env
     else if text_is text "/users" then
       usersCommand env
     else
       match Msg.reply_to_message message with
       | Some repliedMessage =>
           let hasUserTag :=
             opt_includes (Replied.text repliedMessage) "[USER:" ||
             opt_includes (Replied.caption repliedMessage) "[USER:" in
           if text_starts text "/post" && negb hasUserTag
           then mediaBroadcast message repliedMessage env
           else routedReply message repliedMessage env
       | None =>
           sendMessage admin Text.hint (Some (Msg.message_id message)) ;;
           ret tt
       end)
    (fun error =>
       try_catch (sendMessage admin (Text.processingError error) None ;; ret tt)
                 (fun sendError => ret tt)).

Definition handleMessage (message : Msg.t) (env : Env) : M unit :=
  let chatId := Msg.chat_id message in
  let isAdmin := String.eqb (Str.of_Z chatId) (ADMIN_CHAT_ID env) in
  if isAdmin
  then handleAdminMessage message env
  else handleUserMessage message env.

End Worker.

(** ** The HTTP surface *)

Module Http.

(** What the worker reads of the body of a request.  Either reading it
    fails, with the message of the error: the body does not parse, or it
    is [null], of which no message can be read.  Or it is an update, with
    or without a message, and a message has a sender and a chat or lacks
    one of them. *)
Inductive Incoming :=
| Wellformed (message : Msg.t)
| Illformed.

Inductive Body :=
| Malformed (error : string)
| Update (message : option Incoming).

(** [secret_token] is the header [X-Telegram-Bot-Api-Secret-Token]. *)
Record Request := {
  method : string;
  origin : string;
  pathname : string;
  secret_token : option string;
  body : Body
}.

Record Response := { status : Z; content : string }.

(** The environment of the worker with the secret of the webhook.  A
    variable of [Env] that is not set is the empty string here: the worker
    only tests it for truth. *)
Record Config := { env : Env; WEBHOOK_SECRET : option string }.

(** The two methods of the transport that deliver nothing. *)
Inductive Maintenance :=
| SetWebhook (url secret_token : string)
| GetMe.

(** The world of the worker and the maintenance requests sent so far. *)
Record Server := { world : World; sent : list Maintenance }.

(** What the environment decides of a maintenance request, and the text
    [JSON.stringify(result, null, 2)] of an answer. *)
Class Operator := {
  answer : list Maintenance -> Maintenance -> Outcome;
  stringify : Json -> string
}.

Definition unauthorized : Response :=
  {| status := 401; content := "Unauthorized" |}.

Definition acknowledged : Response := {| status := 200; content := "OK" |}.

Definition failure : Response :=
  {| status := 500; content := "Internal Server Error" |}.

Definition running : Response :=
  {| status := 200; content := "Telegram Bot is running!" |}.

Definition notFound : Response := {| status := 404; content := "Not Found" |}.

Definition missing (missingVar : string) : Response :=
  {| status := 500;
     content := "Missing " ++ missingVar ++ " environment variable" |}.

Definition botError (message : string) : string :=
  "🚨 Bot错误: " ++ message.

Definition systemError (message : string) : string :=
  "🚨 系统错误: " ++ message.

(** [!s] for a variable of the environment *)
Definition unset (s : string) : bool :=
  match s with
  | "" => true
  | _ => false
  end.

(** [secretToken !== secret] for the header, which may be absent *)
Definition differs (secretToken : option string) (secret : string) : bool :=
  match secretToken with
  | Some t => negb (String.eqb t secret)
  | None => true
  end.

Definition throw {A : Type} (message : string) : M A :=
  fun w => (Exn message, w).

(** Computations of the server. *)
Definition Task (A : Type) : Type := Server -> Res A * Server.

(** A computation on the world, within the server. *)
Definition lift {A : Type} (m : M A) : Task A :=
  fun s =>
    let (r, w) := m (world s) in
    (r, {| world := w; sent := sent s |}).

Section Handlers.

Context {R : Runtime} {O : Operator}.
Local Open Scope worker_scope.

(** [ctx.waitUntil(promise)]: the work is done, and neither its value nor
    its failure reaches the caller. *)
Definition waitUntil {A : Type} (m : M A) : M unit :=
  fun w =>
    match m w with
    | (OutOfFuel, w') => (OutOfFuel, w')
    | (_, w') => (Val tt, w')
    end.

(** [handleMessage], from the validation of its input on. *)
Definition handleIncoming (message : Incoming) (env : Env) : M unit :=
  match message with
  | Illformed => ret tt
  | Wellformed message => handleMessage message env
  end.

(** [ctx.waitUntil(sendMessage(...).catch(...))] *)
Definition notify (env : Env) (text : string) : M unit :=
  waitUntil
    (try_catch (sendMessage (Txt (ADMIN_CHAT_ID env)) text None ;; ret tt)
               (fun err => ret tt)).

Definition handleWebhook (request : Request) (config : Config) : M Response :=
  try_catch
    (let refused :=
       match WEBHOOK_SECRET config with
       | Some (String _ _ as secret) => differs (secret_token request) secret
       | _ => false
       end in
     if refused then ret unauthorized
     else
       update <-
         match body request with
         | Malformed error => throw error
         | Update message => ret message
         end ;;
       match update with
       | Some message => waitUntil (handleIncoming message (env config))
       | None => ret tt
       end ;;
       ret acknowledged)
    (fun error =>
       notify (env config) (botError error) ;;
       ret failure).

(** [callTelegramAPI] for the methods of maintenance. *)
Definition callMaintenance (c : Maintenance) : Task Json :=
  fun s =>
    let s' := {| world := world s; sent := (sent s ++ [c])%list |} in
    match answer (sent s) c with
    | Returned body => (Val body, s')
    | Failed message => (Exn message, s')
    end.

Definition setWebhook (url secret : string) : Task Json :=
  callMaintenance (SetWebhook url secret).

Definition getMe : Task Json := callMaintenance GetMe.

(** The answer with the text of a result, status 200. *)
Definition json (call : Task Json) : Task Response :=
  fun s =>
    match call s with
    | (Val result, s') =>
        (Val {| status := 200; content := stringify result |}, s')
    | (Exn e, s') => (Exn e, s')
    | (OutOfFuel, s') => (OutOfFuel, s')
    end.

(** The routes, tried in this order. *)
Definition route (request : Request) (config : Config) : Task Response :=
  let asks (m p : string) :=
    String.eqb (method request) m && String.eqb (pathname request) p in
  if asks "POST" "/webhook" then lift (handleWebhook request config)
  else if asks "GET" "/setWebhook" then
    let webhookUrl := origin request ++ "/webhook" in
    json (setWebhook webhookUrl (or_else (WEBHOOK_SECRET config) ""))
  else if asks "GET" "/me" then json getMe
  else if asks "GET" "/" then fun s => (Val running, s)
  else fun s => (Val notFound, s).

Definition handleRequest (request : Request) (config : Config) : Task Response :=
  let e := env config in
  if unset (BOT_TOKEN e) || unset (ADMIN_CHAT_ID e) then
    let missingVar :=
      if unset (BOT_TOKEN e) then "BOT_TOKEN" else "ADMIN_CHAT_ID" in
    fun s => (Val (missing missingVar), s)
  else
    fun s =>
      match route request config s with
      | (Exn error, s') =>
          match lift (notify e (systemError error)) s' with
          | (OutOfFuel, s'') => (OutOfFuel, s'')
          | (_, s'') => (Val failure, s'')
          end
      | r => r
      end.

End Handlers.

End Http.

(** ** Vocabulary of the properties *)

(** A string without a space. *)
Definition no_space (s : string) : bool :=
  Str.all (fun c => negb (Ascii.eqb c " ")) s.

(** The signed pattern occurs nowhere in a string. *)
Definition unsigned (s : string) : Prop := search secure_at s = None.

(** The legacy pattern occurs nowhere in a string. *)
Definition no_legacy (s : string) : Prop := search legacy_at s = None.


Definition recipient (c : Call) : ChatId :=
  match c with
  | SendMessage chat _ _ => chat
  | CopyMessage chat _ _ _ => chat
  end.

(** The requests of a trace, in the order they were sent. *)
Fixpoint requests (t : list Event) : list Call :=
  match t with
  | [] => []
  | Fetch c :: r => c :: requests r
  | _ :: r => requests r
  end.

Definition is_copy (c : Call) : bool :=
  match c with
  | CopyMessage _ _ _ _ => true
  | SendMessage _ _ _ => false
  end.

(** The stores written by a trace. *)
Fixpoint puts (t : list Event) : list (list User.t) :=
  match t with
  | [] => []
  | Put users :: r => users :: puts r
  | _ :: r => puts r
  end.

(** The same message, replying to something else or to nothing. *)
Definition with_reply (message : Msg.t) (r : option Replied.t) : Msg.t :=
  {| Msg.from := Msg.from message;
     Msg.chat_id := Msg.chat_id message;
     Msg.message_id := Msg.message_id message;
     Msg.text := Msg.text message;
     Msg.caption := Msg.caption message;
     Msg.reply_to_message := r |}.

(** A list cut into pieces of [size] elements, the last one possibly
    shorter: the batches in the words of the specification. *)
Fixpoint chunks_fuel {A : Type} (fuel size : nat) (l : list A)
  : list (list A) :=
  match fuel with
  | O => []
  | S k =>
      match l with
      | [] => []
      | _ => firstn size l :: chunks_fuel k size (skipn size l)
      end
  end.

Definition chunks {A : Type} (size : nat) (l : list A) : list (list A) :=
  chunks_fuel (List.length l) size l.

(** The events of one batch: a request to each member in the order of the
    batch, then the settlement of each member in some order, then the
    whole batch is settled. *)
Definition batch_events (batch : list ChatId) (events : list Event) : Prop :=
  exists calls order,
    events = (map Fetch calls ++ map settled order ++ [AllSettled])%list /\
    map recipient calls = batch /\
    Permutation (map fst order) batch.

(** The events of a fan-out over batches: a pause of 100 ms after every
    batch but the last. *)
Inductive fanned : list (list ChatId) -> list Event -> Prop :=
| fanned_last batch events :
    batch_events batch events -> fanned [batch] events
| fanned_more batch rest events later :
    batch_events batch events ->
    rest <> [] ->
    fanned rest later ->
    fanned (batch :: rest) (events ++ Delay 100 :: later)%list.

(** The world after more events. *)
Definition emits (events : list Event) (w : World) : World :=
  {| USER_STORAGE := USER_STORAGE w;
     now := now w;
     trace := (trace w ++ events)%list |}.

(** The request of one delivery of a broadcast. *)
Definition delivery (env : Env) (message : string) (isMedia : bool)
  (messageId : option Z) (chatId : ChatId) : Call :=
  if isMedia
  then CopyMessage chatId (Txt (ADMIN_CHAT_ID env)) messageId
                   (Some (Text.broadcast message))
  else SendMessage chatId (Text.broadcast message) None.

(** The deliveries that failed, with the message of the failure, among
    settled deliveries. *)
Fixpoint fails (order : list (ChatId * option string))
  : list (ChatId * string) :=
  match order with
  | [] => []
  | (chat, Some message) :: r => (chat, message) :: fails r
  | (_, None) :: r => fails r
  end.

(** The recipients whose delivery settled as a failure, in the order of
    the trace. *)
Fixpoint refused (t : list Event) : list ChatId :=
  match t with
  | [] => []
  | Settled chat false :: r => chat :: refused r
  | _ :: r => refused r
  end.

Definition diagnosed (f : ChatId * string) : string :=
  Text.diagnostic (render (fst f)) (snd f).

(** The counts [after] account for the deliveries to [targets] on top of
    the counts [before]: every delivery was requested once, in order, and
    counted once, and the diagnostics added are those of the deliveries
    that settled as failures, in the order they settled. *)
Definition accounted (targets : list ChatId) (calls : list Call)
  (before after : Results) (events : list Event) : Prop :=
  requests events = calls /\
  puts events = [] /\
  (success after + failed after =
   success before + failed before + List.length targets)%nat /\
  exists failures,
    errors after = (errors before ++ map diagnosed failures)%list /\
    failed after = (failed before + List.length failures)%nat /\
    map fst failures = refused events /\
    incl (map fst failures) targets.

(** The requests of [events] that the transport refused, each with its
    recipient and the message of the error, in the order they were sent;
    [history] is the trace before [events], which the transport sees. *)
Fixpoint rejected {R : Runtime} (history events : list Event)
  : list (ChatId * string) :=
  match events with
  | [] => []
  | e :: later =>
      let rest := rejected (history ++ [e])%list later in
      match e with
      | Fetch c =>
          match transport history c with
          | Failed message => (recipient c, message) :: rest
          | Returned _ => rest
          end
      | _ => rest
      end
  end.

(** The counts [after] judge the deliveries to [targets] on top of the
    counts [before]: the diagnostics added are those of the deliveries
    that settled as failures, in the order they settled, and these are
    the requests that the transport refused, each with the message of
    its error; every other delivery is counted as a success. *)
Definition judged {R : Runtime} (history : list Event)
  (targets : list ChatId) (before after : Results) (events : list Event)
  : Prop :=
  exists failures,
    errors after = (errors before ++ map diagnosed failures)%list /\
    failed after = (failed before + List.length failures)%nat /\
    (success after + failed after =
     success before + failed before + List.length targets)%nat /\
    map fst failures = refused events /\
    incl (map fst failures) targets /\
    Permutation failures (rejected history events).

(** The recipients a target specification stands for. *)
Definition resolve (userIds : UserIds) (w : World) : list ChatId :=
  match userIds with
  | All =>
      match USER_STORAGE w with
      | Some users => map (fun u => Num (User.chatId u)) users
      | None => []
      end
  | Ids l => map Txt l
  end.

(** A computation that leaves the store alone and copies no message:
    every request it sends is a text. *)
Definition text_only {A : Type} (m : M A) : Prop :=
  forall w, exists r events,
    m w = (r, emits events w) /\
    Forall (fun c => is_copy c = false) (requests events).

(** [a] was active no later than [b]. *)
Definition older (a b : User.t) : Prop :=
  (User.lastActive a <= User.lastActive b)%Z.

(** [a] comes before [b] in a list sorted by recency. *)
Definition recent (a b : User.t) : Prop := older b a.

(** The record an upsert writes. *)
Definition record (chatId : Z) (userInfo : UserInfo.t) (lastActive : Z)
  : User.t :=
  {| User.chatId := chatId;
     User.userName := UserInfo.userName userInfo;
     User.userId := UserInfo.userId userInfo;
     User.lastActive := lastActive |}.

(** ** Vocabulary of further properties *)

(** A computation that leaves the store alone, does not run out of fuel,
    and sends only requests that satisfy [P]. *)
Definition sends {A : Type} (P : Call -> Prop) (m : M A) : Prop :=
  forall w, exists r events,
    m w = (r, emits events w) /\
    Forall P (requests events) /\
    puts events = [] /\
    r <> OutOfFuel.

(** The same, and the computation ends with a value. *)
Definition calm {A : Type} (P : Call -> Prop) (m : M A) : Prop :=
  forall w, exists a events,
    m w = (Val a, emits events w) /\
    Forall P (requests events) /\
    puts events = [].

Definition anything (c : Call) : Prop := True.

(** A request to the administrator or to the chat of a user. *)
Definition between (env : Env) (chat : Z) (c : Call) : Prop :=
  recipient c = Txt (ADMIN_CHAT_ID env) \/ recipient c = Num chat.

(** A request to the administrator. *)
Definition to_admin (env : Env) (c : Call) : Prop :=
  recipient c = Txt (ADMIN_CHAT_ID env).

(** A directory that is within the cap and holds an identifier once. *)
Definition directory_ok (users : list User.t) : Prop :=
  NoDup (map User.chatId users) /\ (List.length users <= 1000)%nat.

Definition store_ok (w : World) : Prop :=
  match USER_STORAGE w with
  | Some users => directory_ok users
  | None => True
  end.

(** The world after the worker handled messages one after the other. *)
Definition handled {R : Runtime} (messages : list Msg.t) (env : Env)
  (w : World) : World :=
  fold_left (fun w message => snd (handleMessage message env w)) messages w.

(** A text that is none of the commands of the administrator. *)
Definition plain (text : option string) : bool :=
  negb (text_is text "/start" || text_is text "/status" ||
        text_is text "/help" || text_starts text "/post" ||
        text_is text "/users").


(** A broadcast command that names a payload and somebody to send it to. *)
Definition addressed (env : Env) (parsed : PostTargets) : bool :=
  match message parsed with
  | "" => false
  | _ =>
      match userIds parsed with
      | All => tracking env
      | Ids [] => false
      | Ids _ => true
      end
  end.

(** Both variables the worker cannot do without are set. *)
Definition configured (config : Http.Config) : bool :=
  negb (Http.unset (BOT_TOKEN (Http.env config))) &&
  negb (Http.unset (ADMIN_CHAT_ID (Http.env config))).

(** The request carries the secret of the webhook, when one is set. *)
Definition authorised (request : Http.Request) (config : Http.Config) : bool :=
  match Http.WEBHOOK_SECRET config with
  | None | Some "" => true
  | Some secret =>
      match Http.secret_token request with
      | Some secretToken => String.eqb secretToken secret
      | None => false
      end
  end.

(** ** Environments and inputs for the examples *)

Module Fixture.

Definition accepted : Outcome :=
  Returned {| ok := true; description := None |}.

(** Every request succeeds and the deliveries of a batch settle in the
    order they were sent. *)
Definition ideal : Runtime :=
  {| transport := fun _ _ => accepted;
     sched := fun l => l;
     sched_perm := fun l => Permutation_refl l;
     toLocaleString := Str.of_Z |}.

(** Requests to recipients whose identifier ends in 3 are refused, and the
    deliveries of a batch settle in the reverse order. *)
Definition refuses (c : ChatId) : bool :=
  match Str.rev (render c) with
  | String "3" _ => true
  | _ => false
  end.

Definition flaky : Runtime :=
  {| transport := fun _ c =>
       if refuses (recipient c)
       then Failed "Telegram API error: 403 Forbidden"
       else accepted;
     sched := fun l => List.rev l;
     sched_perm := fun l => Permutation_sym (Permutation_rev l);
     toLocaleString := Str.of_Z |}.

Definition env (trackingFlag : option string) : Env :=
  {| BOT_TOKEN := "token";
     ADMIN_CHAT_ID := "1000";
     ENABLE_USER_TRACKING := trackingFlag;
     USER_ID_SECRET := Some "secret" |}.

Definition world (users : option (list User.t)) : World :=
  {| USER_STORAGE := users; now := 1700000000000; trace := [] |}.

Definition alice : From.t :=
  {| From.id := 42; From.username := Some "alice"; From.first_name := None |}.

Definition boss : From.t :=
  {| From.id := 1000; From.username := Some "boss"; From.first_name := None |}.

(** An end user sends [/start]. *)
Definition start : Msg.t :=
  {| Msg.from := alice; Msg.chat_id := 42; Msg.message_id := 7;
     Msg.text := Some "/start"; Msg.caption := None;
     Msg.reply_to_message := None |}.

(** A photo without a tag, in the chat of the administrator. *)
Definition photo : Replied.t :=
  {| Replied.text := None; Replied.caption := Some "a photo";
     Replied.message_id := 70 |}.

(** The administrator replies to it with a broadcast command. *)
Definition postReply : Msg.t :=
  {| Msg.from := boss; Msg.chat_id := 1000; Msg.message_id := 71;
     Msg.text := Some "/post 123 hello"; Msg.caption := None;
     Msg.reply_to_message := Some photo |}.

(** [n] identifiers, [first], [first + 1], ... *)
Definition ids (first : Z) (n : nat) : list string :=
  map (fun k => Str.of_Z (first + Z.of_nat k)) (seq 0 n).

(** A directory of [n] records with the identifiers [1] to [n], the
    record [k] last active at the instant [time k]. *)
Definition directory (time : Z -> Z) (n : nat) : list User.t :=
  map (fun k =>
         let z := Z.of_nat k in
         {| User.chatId := z; User.userName := "user";
            User.userId := z; User.lastActive := time z |})
      (seq 1 n).

(** A newcomer to the directory. *)
Definition zoe : UserInfo.t :=
  {| UserInfo.userName := "zoe"; UserInfo.userId := 2000;
     UserInfo.chatId := 2000; UserInfo.time := "";
     UserInfo.header := "" |}.

(** An end user sends a text. *)
Definition hello : Msg.t :=
  {| Msg.from := alice; Msg.chat_id := 42; Msg.message_id := 8;
     Msg.text := Some "hello"; Msg.caption := None;
     Msg.reply_to_message := None |}.

(** What the administrator receives of it. *)
Definition forwarded : string :=
  Text.forwardText (Text.header "alice" 42 (Str.of_Z 1700000000000)) "hello"
    (createSecureUserTag "42" (Some "secret")).

(** The administrator replies to what was forwarded, or to something
    else. *)
Definition answer (text : option string) (to : option string) : Msg.t :=
  {| Msg.from := boss; Msg.chat_id := 1000; Msg.message_id := 81;
     Msg.text := text; Msg.caption := None;
     Msg.reply_to_message :=
       Some {| Replied.text := to; Replied.caption := None;
               Replied.message_id := 80 |} |}.

(** Requests to the server. *)
Definition config (token : string) (secret : option string) : Http.Config :=
  {| Http.env := {| BOT_TOKEN := token;
                    ADMIN_CHAT_ID := "1000";
                    ENABLE_USER_TRACKING := None;
                    USER_ID_SECRET := Some "secret" |};
     Http.WEBHOOK_SECRET := secret |}.

Definition request (method pathname : string) (token : option string)
  (body : Http.Body) : Http.Request :=
  {| Http.method := method; Http.origin := "https://bot.example";
     Http.pathname := pathname; Http.secret_token := token;
     Http.body := body |}.

Definition operator : Http.Operator :=
  {| Http.answer := fun _ _ => accepted;
     Http.stringify := fun _ => "{}" |}.

Definition server : Http.Server :=
  {| Http.world := world None; Http.sent := [] |}.

End Fixture.

(** * Properties *)

(** ** Test vectors and the examples of the specification *)

Example sha256_abc :
  hex (SHA256.digest (encode "abc")) =
  "ba7816bf8f01cfea414140de5dae2223b00361a396177a9cb410ff61f20015ad".
Proof. vm_compute. reflexivity. Qed.

Example sha256_two_blocks :
  hex (SHA256.digest
         (encode "abcdbcdecdefdefgefghfghighijhijkijkljklmklmnlmnomnopnopq")) =
  "248d6a61d20638b8e5c026930c3e6039a33ce45964ff2167f6ecedd419db06c1".
Proof. vm_compute. reflexivity. Qed.

Example hmac_sha256_rfc4231_2 :
  hex (SHA256.hmac (encode "Jefe") (encode "what do ya want for nothing?")) =
  "5bdcc146bf60754e6a042426089575c75a003f089d2739839dec58b964ec3843".
Proof. vm_compute. reflexivity. Qed.

Example parse_all :
  parsePostTargets "all hello world" =
  {| userIds := All; message := "hello world" |}.
Proof. reflexivity. Qed.

Example parse_ids :
  parsePostTargets "123,456 ping" =
  {| userIds := Ids ["123"; "456"]; message := "ping" |}.
Proof. reflexivity. Qed.

Example parse_drop :
  parsePostTargets "abc,123 hi" =
  {| userIds := Ids ["123"]; message := "hi" |}.
Proof. reflexivity. Qed.

Example parse_only_targets :
  parsePostTargets "onlytargets" = {| userIds := Ids []; message := "" |}.
Proof. reflexivity. Qed.

Example extract_legacy_42 :
  extractUserChatId (Some "[USER:42]") (Some "k") = Some "42".
Proof. reflexivity. Qed.

Example extract_tag_42 :
  extractUserChatId (Some ("hello " ++ createSecureUserTag "42" (Some "k")))
                    (Some "k") = Some "42".
Proof. vm_compute. reflexivity. Qed.

(** ** Strings *)

Module StrFacts.
Import Str.

Lemma app_assoc (a b c : string) : (a ++ b) ++ c = a ++ b ++ c.
Proof. induction a as [|x a IH]; simpl; [reflexivity | now rewrite IH]. Qed.

Lemma app_nil_r (a : string) : a ++ "" = a.
Proof. induction a as [|x a IH]; simpl; [reflexivity | now rewrite IH]. Qed.

Lemma length_app (a b : string) :
  String.length (a ++ b) = String.length a + String.length b.
Proof. induction a as [|x a IH]; simpl; [reflexivity | now rewrite IH]. Qed.

Lemma strip_app (p r : string) : strip p (p ++ r) = Some r.
Proof.
  induction p as [|x p IH]; simpl; [reflexivity|].
  now rewrite Ascii.eqb_refl.
Qed.

Lemma strip_inv (p s r : string) : strip p s = Some r -> s = p ++ r.
Proof.
  revert s; induction p as [|x p IH]; intros s H; simpl in H.
  - now inversion H.
  - destruct s as [|y s]; [discriminate|].
    destruct (Ascii.eqb_spec x y) as [->|]; [|discriminate].
    simpl. f_equal. now apply IH.
Qed.

Lemma all_app (p : ascii -> bool) (a b : string) :
  all p (a ++ b) = all p a && all p b.
Proof.
  induction a as [|x a IH]; simpl; [reflexivity|].
  now rewrite IH, andb_assoc.
Qed.

(** A run that is followed by a character outside of it is the maximal
    run. *)
Lemma span_run (p : ascii -> bool) (a : string) (c : ascii) (r : string) :
  all p a = true -> p c = false ->
  span p (a ++ String c r) = (a, String c r).
Proof.
  intros Ha Hc. induction a as [|x a IH]; simpl in *.
  - now rewrite Hc.
  - apply andb_true_iff in Ha as [Hx Ha].
    now rewrite Hx, (IH Ha).
Qed.

Lemma span_fst_all (p : ascii -> bool) (s : string) :
  all p (fst (span p s)) = true.
Proof.
  induction s as [|x s IH]; simpl; [reflexivity|].
  destruct (p x) eqn:E; [|reflexivity].
  destruct (span p s); simpl in *. now rewrite E.
Qed.

Lemma span_eq (p : ascii -> bool) (s : string) :
  s = fst (span p s) ++ snd (span p s).
Proof.
  induction s as [|x s IH]; simpl; [reflexivity|].
  destruct (p x); [|reflexivity].
  destruct (span p s); simpl in *. now f_equal.
Qed.

(** A character outside of the run ends it wherever it stands. *)
Lemma span_stop (p : ascii -> bool) (a : string) (c : ascii) (r : string) :
  p c = false ->
  span p (a ++ String c r) =
  (fst (span p a), snd (span p a) ++ String c r).
Proof.
  intros Hc. induction a as [|x a IH]; simpl.
  - now rewrite Hc.
  - destruct (p x); [|reflexivity].
    rewrite IH. now destruct (span p a).
Qed.

Lemma take_app (a r : string) :
  take (String.length a) (a ++ r) = Some (a, r).
Proof. induction a as [|x a IH]; simpl; [reflexivity | now rewrite IH]. Qed.

Lemma take_inv (n : nat) (s a r : string) :
  take n s = Some (a, r) -> s = a ++ r /\ String.length a = n.
Proof.
  revert s a r; induction n as [|n IH]; intros s a r H; simpl in H.
  - inversion H. now split.
  - destruct s as [|x s]; [discriminate|].
    destruct (take n s) as [[a' r']|] eqn:E; [|discriminate].
    inversion H; subst. destruct (IH _ _ _ E) as [-> <-]. now split.
Qed.

(** A prefix found in a string that goes on with a character foreign to
    the prefix is found before that character. *)
Lemma strip_foreign (p a : string) (c : ascii) (r t : string) :
  all (fun x => negb (Ascii.eqb x c)) p = true ->
  strip p (a ++ String c r) = Some t ->
  exists a', strip p a = Some a' /\ t = a' ++ String c r.
Proof.
  revert a; induction p as [|x p IH]; intros a Hp H; simpl in *.
  - inversion H. now exists a.
  - apply andb_true_iff in Hp as [Hx Hp].
    destruct a as [|y a]; simpl in H.
    + apply negb_true_iff in Hx. now rewrite Hx in H.
    + destruct (Ascii.eqb x y); [|discriminate]. now apply IH.
Qed.

Lemma take_foreign (n : nat) (a : string) (c : ascii) (r h t : string)
  (p : ascii -> bool) :
  p c = false ->
  take n (a ++ String c r) = Some (h, t) ->
  all p h = true ->
  exists t', take n a = Some (h, t') /\ t = t' ++ String c r.
Proof.
  intros Hc. revert a h t; induction n as [|n IH]; intros a h t H Hh; simpl in *.
  - inversion H; subst. now exists a.
  - destruct a as [|y a]; simpl in H.
    + destruct (take n r) as [[h' t']|]; [|discriminate].
      inversion H; subst. simpl in Hh. now rewrite Hc in Hh.
    + destruct (take n (a ++ String c r)) as [[h' t']|] eqn:E; [|discriminate].
      inversion H; subst. simpl in Hh. apply andb_true_iff in Hh as [_ Hh].
      destruct (IH _ _ _ E Hh) as (t'' & -> & ->). now exists t''.
Qed.

Lemma drop_length_app (a b : string) : drop (String.length a) (a ++ b) = b.
Proof. induction a as [|x a IH]; simpl; [reflexivity | exact IH]. Qed.

Lemma split_not_nil (sep : ascii) (s : string) : split sep s <> [].
Proof.
  destruct s as [|c s]; simpl; [discriminate|].
  destruct (Ascii.eqb c sep); [discriminate|].
  destruct (split sep s); discriminate.
Qed.

(** Before the first separator stands the first part. *)
Lemma split_first (sep : ascii) (token rest : string) :
  all (fun c => negb (Ascii.eqb c sep)) token = true ->
  split sep (token ++ String sep rest) = token :: split sep rest.
Proof.
  intros H. induction token as [|x token IH]; simpl in *.
  - now rewrite Ascii.eqb_refl.
  - apply andb_true_iff in H as [Hx H].
    apply negb_true_iff in Hx. now rewrite Hx, (IH H).
Qed.

Lemma split_single (sep : ascii) (s : string) :
  all (fun c => negb (Ascii.eqb c sep)) s = true -> split sep s = [s].
Proof.
  intros H. induction s as [|x s IH]; simpl in *; [reflexivity|].
  apply andb_true_iff in H as [Hx H].
  apply negb_true_iff in Hx. now rewrite Hx, (IH H).
Qed.

Lemma join_cons (sep x : string) (l : list string) :
  l <> [] -> join sep (x :: l) = x ++ sep ++ join sep l.
Proof. destruct l; [congruence | reflexivity]. Qed.

(** Joining the parts with the separator gives the string back. *)
Lemma join_split (sep : ascii) (s : string) :
  join (String sep "") (split sep s) = s.
Proof.
  induction s as [|c s IH]; simpl; [reflexivity|].
  destruct (Ascii.eqb_spec c sep) as [->|Hc].
  - rewrite join_cons by apply split_not_nil. simpl. now rewrite IH.
  - pose proof (split_not_nil sep s) as Hn.
    destruct (split sep s) as [|x r]; [congruence|].
    destruct r as [|y r]; simpl in *; now rewrite <- IH.
Qed.

(** A string has a space, and then a first one, or none. *)
Lemma first_space (s : string) :
  all (fun c => negb (Ascii.eqb c " ")) s = true \/
  exists token rest,
    all (fun c => negb (Ascii.eqb c " ")) token = true /\
    s = token ++ " " ++ rest.
Proof.
  induction s as [|c s IH]; [now left|].
  destruct (Ascii.eqb_spec c " ") as [->|Hc].
  - right. now exists "", s.
  - apply Ascii.eqb_neq in Hc.
    destruct IH as [H | (token & rest & H & ->)].
    + left. simpl. now rewrite Hc.
    + right. exists (String c token), rest. simpl. now rewrite Hc.
Qed.

End StrFacts.

(** ** The command parser *)

Lemma parsePostTargets_short (commandText : string) :
  (List.length (Str.split " " commandText) < 2)%nat ->
  parsePostTargets commandText = {| userIds := Ids []; message := "" |}.
Proof.
  intros H. unfold parsePostTargets.
  destruct commandText; [reflexivity|].
  apply Nat.ltb_lt in H. now rewrite H.
Qed.

Lemma parsePostTargets_token (token rest : string) :
  no_space token = true ->
  parsePostTargets (token ++ " " ++ rest) =
  {| userIds :=
       if String.eqb token "all" then All
       else Ids (filter Str.is_digits
                   (map Str.trim (Str.split "," token)));
     message := rest |}.
Proof.
  intros H. unfold parsePostTargets.
  assert (Hs : Str.split " " (token ++ " " ++ rest) =
               token :: Str.split " " rest)
    by now apply StrFacts.split_first.
  destruct (token ++ " " ++ rest) eqn:E.
  - destruct token; discriminate.
  - rewrite Hs. cbn [List.length hd tl].
    pose proof (StrFacts.split_not_nil " " rest) as Hn.
    destruct (Str.split " " rest) as [|x r] eqn:Er; [congruence|].
    cbn [List.length Nat.ltb Nat.leb]. rewrite <- Er.
    change " " with (String " "%char "") at 1 2.
    rewrite StrFacts.join_split.
    now destruct (String.eqb token "all").
Qed.

(** C6. Fewer than two space-delimited segments give the empty target list
    and the empty payload. Otherwise the text before the first space is the
    token and the text after it, spaces included, is the payload: the
    token [all] gives the sentinel, any other token is split on commas,
    every piece trimmed, and exactly the pieces made of one or more
    decimal digits are kept, in their order. One of the two cases always
    applies. *)
Theorem parsePostTargets_spec (commandText : string) :
  ((List.length (Str.split " " commandText) < 2)%nat ->
   parsePostTargets commandText = {| userIds := Ids []; message := "" |}) /\
  (forall token rest,
     no_space token = true ->
     commandText = token ++ " " ++ rest ->
     parsePostTargets commandText =
     {| userIds :=
          if String.eqb token "all" then All
          else Ids (filter Str.is_digits
                      (map Str.trim (Str.split "," token)));
        message := rest |}) /\
  ((List.length (Str.split " " commandText) < 2)%nat \/
   exists token rest,
     no_space token = true /\ commandText = token ++ " " ++ rest).
Proof.
  split; [apply parsePostTargets_short|].
  split; [intros token rest H ->; now apply parsePostTargets_token|].
  destruct (StrFacts.first_space commandText) as [H | (token & rest & H & ->)].
  - left. rewrite StrFacts.split_single by exact H. simpl. lia.
  - right. now exists token, rest.
Qed.

Lemma parsePostTargets_spec_witness :
  ((List.length (Str.split " " "onlytargets") < 2)%nat /\
   parsePostTargets "onlytargets" = {| userIds := Ids []; message := "" |}) /\
  (no_space "abc,123,45x,7" = true /\
   parsePostTargets "abc,123,45x,7 hi there" =
   {| userIds := Ids ["123"; "7"]; message := "hi there" |}).
Proof.
  split; split.
  - simpl. lia.
  - apply (proj1 (parsePostTargets_spec "onlytargets")). simpl. lia.
  - reflexivity.
  - exact (proj1 (proj2 (parsePostTargets_spec "abc,123,45x,7 hi there"))
             "abc,123,45x,7" "hi there" eq_refl eq_refl).
Defined.

(** ** Identity tags *)

Lemma digest_length (msg : list Z) : List.length (SHA256.digest msg) = 32%nat.
Proof. reflexivity. Qed.

Lemma hmac_length (key msg : list Z) :
  List.length (SHA256.hmac key msg) = 32%nat.
Proof. apply digest_length. Qed.

Lemma hexdigit_hex (n : Z) : Str.is_hex (hexdigit n) = true.
Proof.
  unfold hexdigit.
  assert (H : (Z.to_nat (n mod 16) < 16)%nat).
  { pose proof (Z.mod_pos_bound n 16 ltac:(lia)). lia. }
  revert H. generalize (Z.to_nat (n mod 16)). intros k H.
  do 16 (destruct k as [|k]; [reflexivity|]). lia.
Qed.

Lemma hex_cons (b : Z) (bs : list Z) : hex (b :: bs) = hex2 b ++ hex bs.
Proof.
  unfold hex. cbn [map]. destruct (map hex2 bs); reflexivity.
Qed.

(** The first sixteen characters of the rendering of eight bytes or more
    are sixteen characters of lowercase hexadecimal. *)
Lemma hex16 (bs : list Z) :
  (8 <= List.length bs)%nat ->
  String.length (substring0 16 (hex bs)) = 16%nat /\
  Str.all Str.is_hex (substring0 16 (hex bs)) = true.
Proof.
  intros H.
  do 8 (destruct bs as [|? bs]; [simpl in H; lia|]).
  rewrite !hex_cons. unfold hex2, substring0. cbn [append substring].
  replace (substring 0 0 (hex bs)) with "" by now destruct (hex bs).
  split; [reflexivity|].
  cbn [Str.all]. now rewrite !hexdigit_hex.
Qed.

Lemma signature_hex16 (userId : string) (secret : option string) :
  String.length (generateUserIdSignature userId secret) = 16%nat /\
  Str.all Str.is_hex (generateUserIdSignature userId secret) = true.
Proof.
  unfold generateUserIdSignature.
  destruct secret as [[|c key]|]; apply hex16;
    rewrite ?digest_length, ?hmac_length; lia.
Qed.

Lemma is_digits_inv (s : string) :
  Str.is_digits s = true -> s <> "" /\ Str.all Str.is_digit s = true.
Proof. destruct s; [discriminate | now split]. Qed.

(** The signed pattern matches where a signed tag stands, with the
    identifier and the signature of the tag. *)
Lemma secure_at_tag (userId signature post : string) :
  Str.is_digits userId = true ->
  String.length signature = 16%nat ->
  Str.all Str.is_hex signature = true ->
  secure_at ("[USER:" ++ userId ++ ":" ++ signature ++ "]" ++ post) =
  Some (userId, signature).
Proof.
  intros Hd Hl Hh. apply is_digits_inv in Hd as [Hn Hd].
  unfold secure_at.
  rewrite StrFacts.strip_app.
  change (":" ++ signature ++ "]" ++ post)
    with (String ":"%char (signature ++ "]" ++ post)).
  rewrite StrFacts.span_run by (exact Hd || reflexivity).
  destruct userId; [congruence|].
  cbn [Str.strip Ascii.eqb Bool.eqb]. cbv iota.
  rewrite <- Hl, StrFacts.take_app, Hh. reflexivity.
Qed.

(** A match of the signed pattern contains no opening bracket after its
    first character: when the text goes on with one, the match lies before
    it. *)
Lemma strip_bracket (c : ascii) (s : string) :
  Str.strip "[USER:" (String c s) =
  if Ascii.eqb "[" c then Str.strip "USER:" s else None.
Proof. reflexivity. Qed.

Lemma secure_at_local (c : ascii) (a r : string) (m : string * string) :
  secure_at (String c a ++ String "["%char r) = Some m ->
  secure_at (String c a) = Some m.
Proof.
  unfold secure_at.
  change (String c a ++ String "["%char r)
    with (String c (a ++ String "["%char r)).
  rewrite !strip_bracket.
  destruct (Ascii.eqb "[" c); [|auto].
  destruct (Str.strip "USER:" (a ++ String "["%char r)) as [t|] eqn:E;
    [|intros H; discriminate H].
  apply StrFacts.strip_foreign in E as (a1 & -> & ->); [|reflexivity].
  rewrite StrFacts.span_stop by reflexivity.
  destruct (Str.span Str.is_digit a1) as [userId b]. cbn [fst snd].
  destruct userId as [|d userId]; [auto|].
  destruct (Str.strip ":" (b ++ String "["%char r)) as [t|] eqn:E1;
    [|intros H; discriminate H].
  apply StrFacts.strip_foreign in E1 as (b1 & -> & ->); [|reflexivity].
  destruct (Str.take 16 (b1 ++ String "["%char r)) as [[h t]|] eqn:E2;
    [|intros H; discriminate H].
  destruct (Str.all Str.is_hex h) eqn:Hh; [|intros H; discriminate H].
  eapply StrFacts.take_foreign in E2 as (t' & -> & ->);
    [| | exact Hh]; [|reflexivity].
  rewrite Hh. cbn [andb].
  destruct t' as [|x t']; [intros H; discriminate H|].
  unfold Str.startsWith. cbn [append Str.strip].
  destruct (Ascii.eqb "]" x); auto.
Qed.


(** The leftmost match of a text that starts with an opening bracket after
    a part where the pattern does not match is the leftmost match of what
    follows that part. *)
Lemma search_skip {A : Type} (at_pos : string -> option A) (pre text : string) :
  (forall c a r m,
     at_pos (String c a ++ String "["%char r) = Some m ->
     at_pos (String c a) = Some m) ->
  search at_pos pre = None ->
  forall r, text = String "["%char r ->
  search at_pos (pre ++ text) = search at_pos text.
Proof.
  intros Hloc Hpre r ->. induction pre as [|c pre IH]; [reflexivity|].
  cbn [search] in Hpre.
  destruct (at_pos (String c pre)) eqn:E; [discriminate|].
  change (search at_pos (String c pre ++ String "["%char r)) with
    (match at_pos (String c pre ++ String "["%char r) with
     | Some m => Some m
     | None => search at_pos (pre ++ String "["%char r)
     end).
  destruct (at_pos (String c pre ++ String "["%char r)) eqn:E1.
  - apply Hloc in E1. congruence.
  - now apply IH.
Qed.

Lemma search_here {A : Type} (at_pos : string -> option A) (s : string) (m : A) :
  at_pos s = Some m -> search at_pos s = Some m.
Proof. intros H. destruct s; simpl; now rewrite H. Qed.

Lemma tag_shape (userId : string) (secret : option string) (post : string) :
  createSecureUserTag userId secret ++ post =
  "[USER:" ++ userId ++ ":" ++ generateUserIdSignature userId secret ++
  "]" ++ post.
Proof.
  unfold createSecureUserTag.
  now rewrite !StrFacts.app_assoc.
Qed.

(** The leftmost signed pattern of a text whose part before a signed tag
    is free of the pattern is that tag. *)
Lemma search_tag (pre post userId : string) (secret : option string) :
  Str.is_digits userId = true ->
  unsigned pre ->
  search secure_at (pre ++ createSecureUserTag userId secret ++ post) =
  Some (userId, generateUserIdSignature userId secret).
Proof.
  intros Hd Hpre. rewrite tag_shape.
  erewrite search_skip; [| apply secure_at_local | exact Hpre | reflexivity].
  apply search_here.
  destruct (signature_hex16 userId secret) as [Hl Hh].
  now apply (secure_at_tag userId _ post).
Qed.

Lemma extract_signed (text : string) (secret : option string)
  (userId signature : string) :
  search secure_at text = Some (userId, signature) ->
  extractUserChatId (Some text) secret =
  if verifyUserIdSignature userId signature secret
  then Some userId else None.
Proof.
  intros H. unfold extractUserChatId.
  destruct text as [|c text]; [discriminate|].
  cbv zeta. now rewrite H.
Qed.

Lemma extract_unsigned (text : string) (secret : option string) :
  unsigned text ->
  extractUserChatId (Some text) secret = search legacy_at text.
Proof.
  intros H. unfold extractUserChatId.
  destruct text as [|c text]; [reflexivity|].
  unfold unsigned in H. cbv zeta. rewrite H.
  destruct (search legacy_at (String c text)); reflexivity.
Qed.

Lemma verify_own (userId : string) (secret : option string) :
  verifyUserIdSignature userId (generateUserIdSignature userId secret) secret
  = true.
Proof. apply String.eqb_refl. Qed.

Lemma verify_iff (userId signature : string) (secret : option string) :
  verifyUserIdSignature userId signature secret = true <->
  signature = generateUserIdSignature userId secret.
Proof. unfold verifyUserIdSignature. apply String.eqb_eq. Qed.

(** C9. Verifying the signature that was generated for an identifier, with
    the secret it was generated with, succeeds, whether the secret is a
    key, the empty string or unset; the last two sign with the unkeyed
    digest of the identifier with the fallback suffix.  Verification is
    equality with the generated signature. *)
Theorem verify_generated (userId : string) (secret : option string) :
  verifyUserIdSignature userId (generateUserIdSignature userId secret) secret
  = true /\
  (truthy secret = false ->
   generateUserIdSignature userId secret =
   substring0 16
     (hex (SHA256.digest (encode ("user:" ++ userId ++ ":fallback"))))) /\
  (forall signature,
     verifyUserIdSignature userId signature secret = true <->
     signature = generateUserIdSignature userId secret).
Proof.
  split; [apply verify_own|].
  split; [|intros; apply verify_iff].
  now destruct secret as [[|c key]|].
Qed.

Lemma verify_generated_witness :
  truthy (Some "") = false /\ truthy None = false /\
  verifyUserIdSignature "42" (generateUserIdSignature "42" (Some "")) (Some "")
  = true /\
  generateUserIdSignature "42" (Some "") = generateUserIdSignature "42" None.
Proof.
  split; [reflexivity|]. split; [reflexivity|].
  split; [exact (proj1 (verify_generated "42" (Some "")))|].
  rewrite (proj1 (proj2 (verify_generated "42" (Some ""))) eq_refl).
  now rewrite (proj1 (proj2 (verify_generated "42" None)) eq_refl).
Defined.

(** C2, as amended. A signed tag generated for a string of digits,
    embedded in a text whose part before the tag contains no match of the
    signed pattern, is extracted with the same secret: the signature is
    sixteen characters of lowercase hexadecimal, so that the pattern
    matches at the tag, and its verification succeeds. *)
Theorem extract_roundtrip (pre post userId : string) (secret : option string) :
  Str.is_digits userId = true ->
  unsigned pre ->
  (String.length (generateUserIdSignature userId secret) = 16%nat /\
   Str.all Str.is_hex (generateUserIdSignature userId secret) = true) /\
  extractUserChatId (Some (pre ++ createSecureUserTag userId secret ++ post))
                    secret = Some userId.
Proof.
  intros Hd Hpre. split; [apply signature_hex16|].
  rewrite (extract_signed _ _ _ _ (search_tag pre post userId secret Hd Hpre)).
  now rewrite verify_own.
Qed.

Lemma extract_roundtrip_witness :
  Str.is_digits "42" = true /\
  unsigned "a [USER:7] b " /\
  extractUserChatId
    (Some ("a [USER:7] b " ++ createSecureUserTag "42" (Some "secret") ++ " c"))
    (Some "secret") = Some "42".
Proof.
  split; [reflexivity|]. split; [reflexivity|].
  exact (proj2 (extract_roundtrip "a [USER:7] b " " c" "42" (Some "secret")
                  eq_refl eq_refl)).
Defined.

(** C2, as stated, fails: an earlier match of the signed pattern, here one
    with a signature that does not verify, is the one the extraction
    reads. *)
Lemma extract_roundtrip_anywhere_fails :
  ~ (forall pre post userId secret,
       Str.is_digits userId = true ->
       extractUserChatId
         (Some (pre ++ createSecureUserTag userId secret ++ post)) secret
       = Some userId).
Proof.
  intros H.
  specialize (H "[USER:7:0123456789abcdef] " "" "42" (Some "secret") eq_refl).
  vm_compute in H. discriminate H.
Qed.

(** C3, as amended. A text that is the signed tag generated for a string
    of digits with one secret is extracted with another secret exactly
    when both secrets sign the identifier alike; when the signatures
    differ the result is null, and the legacy pattern is not tried. *)
Theorem extract_other_secret (userId : string) (s1 s2 : option string) :
  Str.is_digits userId = true ->
  (generateUserIdSignature userId s1 <> generateUserIdSignature userId s2 ->
   extractUserChatId (Some (createSecureUserTag userId s1)) s2 = None) /\
  (generateUserIdSignature userId s1 = generateUserIdSignature userId s2 ->
   extractUserChatId (Some (createSecureUserTag userId s1)) s2 = Some userId).
Proof.
  intros Hd.
  pose proof (search_tag "" "" userId s1 Hd eq_refl) as H.
  cbn [append] in H. rewrite StrFacts.app_nil_r in H.
  rewrite (extract_signed _ s2 _ _ H).
  destruct (verifyUserIdSignature userId (generateUserIdSignature userId s1) s2)
    eqn:E.
  - apply verify_iff in E. split; [congruence | reflexivity].
  - split; [reflexivity|]. intros E'.
    rewrite E', verify_own in E. discriminate.
Qed.

Lemma extract_other_secret_witness :
  Str.is_digits "42" = true /\
  (generateUserIdSignature "42" (Some "secret") <>
   generateUserIdSignature "42" (Some "other") /\
   extractUserChatId (Some (createSecureUserTag "42" (Some "secret")))
                     (Some "other") = None) /\
  (generateUserIdSignature "42" (Some "") =
   generateUserIdSignature "42" None /\
   extractUserChatId (Some (createSecureUserTag "42" (Some ""))) None
   = Some "42").
Proof.
  split; [reflexivity|].
  assert (H : generateUserIdSignature "42" (Some "secret") <>
              generateUserIdSignature "42" (Some "other"))
    by (vm_compute; discriminate).
  split; split.
  - exact H.
  - exact (proj1 (extract_other_secret "42" (Some "secret") (Some "other")
                    eq_refl) H).
  - reflexivity.
  - exact (proj2 (extract_other_secret "42" (Some "") None eq_refl) eq_refl).
Defined.

(** The key of the digest is filled with zero bytes: a key and the same
    key followed by a zero byte sign alike. *)
Lemma hmac_key_zero (key : list Z) :
  (List.length key < 64)%nat ->
  SHA256.hmac_key (key ++ [0%Z])%list = SHA256.hmac_key key.
Proof.
  intros H. unfold SHA256.hmac_key.
  rewrite length_app. cbn [List.length].
  replace (64 <? Z.of_nat (List.length key + 1))%Z with false
    by (symmetry; apply Z.ltb_ge; lia).
  replace (64 <? Z.of_nat (List.length key))%Z with false
    by (symmetry; apply Z.ltb_ge; lia).
  rewrite length_app. cbn [List.length].
  rewrite <- List.app_assoc. f_equal.
  replace (64 - List.length key)%nat with (S (64 - (List.length key + 1)))
    by lia.
  reflexivity.
Qed.

Lemma encode_app (a b : string) :
  encode (a ++ b) = (encode a ++ encode b)%list.
Proof.
  unfold encode. induction a as [|c a IH]; [reflexivity|].
  simpl. now rewrite IH.
Qed.

Lemma encode_length (s : string) :
  List.length (encode s) = String.length s.
Proof.
  unfold encode. rewrite length_map.
  induction s as [|x s IH]; simpl; [reflexivity | now rewrite IH].
Qed.

(** A secret of fewer than 64 bytes and the same secret followed by the
    character U+0000 sign every identifier alike. *)
Lemma sign_zero_padded (userId : string) (c : ascii) (key : string) :
  (String.length (String c key) < 64)%nat ->
  generateUserIdSignature userId
    (Some (String c key ++ String "000" "")) =
  generateUserIdSignature userId (Some (String c key)).
Proof.
  intros H. cbn [append generateUserIdSignature].
  change (String c (key ++ String "000" ""))
    with (String c key ++ String "000" "").
  unfold SHA256.hmac. rewrite encode_app.
  change (encode (String "000" "")) with [0%Z].
  rewrite hmac_key_zero; [reflexivity|].
  now rewrite encode_length.
Qed.

(** C3, as stated, fails: two distinct secrets, the second being the first
    followed by the character U+0000, give every identifier the same
    signature, and the tag signed with the first is accepted with the
    second. *)
Lemma extract_other_secret_fails :
  ~ (forall userId s1 s2,
       Str.is_digits userId = true ->
       s1 <> s2 ->
       extractUserChatId (Some (createSecureUserTag userId s1)) s2 = None).
Proof.
  intros H.
  specialize (H "42" (Some "a") (Some (String "a" (String "000" "")))
                eq_refl ltac:(discriminate)).
  vm_compute in H. discriminate H.
Qed.





(** ** The recipient directory *)

Module Directory.

Lemma insert_perm (x : User.t) (l : list User.t) :
  Permutation (insert x l) (x :: l).
Proof.
  induction l as [|y l IH]; simpl; [apply Permutation_refl|].
  destruct (Z.leb (User.lastActive y) (User.lastActive x)).
  - apply Permutation_refl.
  - eapply perm_trans; [apply perm_skip, IH | apply perm_swap].
Qed.

Lemma sort_perm (l : list User.t) : Permutation (sort l) l.
Proof.
  induction l as [|x l IH]; simpl; [apply perm_nil|].
  eapply perm_trans; [apply insert_perm | now apply perm_skip].
Qed.

Lemma insert_sorted (x : User.t) (l : list User.t) :
  StronglySorted recent l -> StronglySorted recent (insert x l).
Proof.
  induction 1 as [|y l Hl IH Hy]; simpl.
  - constructor; constructor.
  - destruct (Z.leb (User.lastActive y) (User.lastActive x)) eqn:E.
    + apply Z.leb_le in E. constructor; [now constructor|].
      constructor; [exact E|].
      eapply Forall_impl; [|exact Hy].
      unfold recent, older. intros; lia.
    + apply Z.leb_gt in E. constructor; [exact IH|].
      eapply Permutation_Forall; [apply Permutation_sym, insert_perm|].
      constructor; [unfold recent, older; lia | exact Hy].
Qed.

Lemma sort_sorted (l : list User.t) : StronglySorted recent (sort l).
Proof.
  induction l as [|x l IH]; simpl; [constructor | now apply insert_sorted].
Qed.

Lemma sorted_app (a b : list User.t) :
  StronglySorted recent (a ++ b)%list ->
  StronglySorted recent a /\ Forall (fun u => Forall (recent u) b) a.
Proof.
  induction a as [|x a IH]; simpl; intros H.
  - split; constructor.
  - inversion H as [|? ? Hs Hx]; subst.
    destruct (IH Hs) as [Ha Hb].
    apply Forall_app in Hx as [Hxa Hxb].
    split; constructor; assumption.
Qed.

Lemma findIndex_none (chatId : Z) (users : list User.t) :
  findIndex chatId users = None <-> ~ In chatId (map User.chatId users).
Proof.
  induction users as [|u users IH]; simpl; [tauto|].
  destruct (Z.eqb_spec (User.chatId u) chatId) as [E|E].
  - split; [discriminate | tauto].
  - destruct (findIndex chatId users); simpl.
    + split; [discriminate|]. intros H.
      assert (Hn : ~ In chatId (map User.chatId users)) by tauto.
      apply IH in Hn. discriminate Hn.
    + split; [|reflexivity]. intros _ [H|H]; [contradiction|].
      now apply (proj1 IH).
Qed.

(** Assigning a record at the index of its own identifier keeps the
    identifiers. *)
Lemma assign_ids (x : User.t) (users : list User.t) (i : nat) :
  findIndex (User.chatId x) users = Some i ->
  map User.chatId (assign i x users) = map User.chatId users /\
  List.length (assign i x users) = List.length users.
Proof.
  revert i; induction users as [|u users IH]; intros i; simpl; [discriminate|].
  destruct (Z.eqb_spec (User.chatId u) (User.chatId x)) as [E|E].
  - intros H; inversion H; subst. simpl. now rewrite E.
  - destruct (findIndex (User.chatId x) users) as [j|]; [|discriminate].
    simpl. intros H; inversion H; subst. simpl.
    destruct (IH j eq_refl) as [-> ->]. now split.
Qed.

Lemma nodup_firstn {A : Type} (n : nat) (l : list A) :
  NoDup l -> NoDup (firstn n l).
Proof.
  intros H. rewrite <- (firstn_skipn n l) in H.
  now apply NoDup_app_remove_r in H.
Qed.

End Directory.

Lemma addUserToKV_unbound (chatId : Z) (userInfo : UserInfo.t) (w : World) :
  USER_STORAGE w = None -> addUserToKV chatId userInfo w = (Val tt, w).
Proof. intros H. unfold addUserToKV. now rewrite H. Qed.

(** What an upsert stores. *)
Lemma addUserToKV_stores (chatId : Z) (userInfo : UserInfo.t) (w : World)
  (users : list User.t) :
  USER_STORAGE w = Some users ->
  let users1 :=
    match findIndex chatId users with
    | Some i => assign i (record chatId userInfo (now w)) users
    | None => (users ++ [record chatId userInfo (now w)])%list
    end in
  let users2 :=
    if (1000 <? List.length users1)%nat
    then firstn 1000 (sort users1) else users1 in
  addUserToKV chatId userInfo w = (Val tt, emit (Put users2) (store users2 w)).
Proof.
  intros H. unfold addUserToKV, bind, getUsersFromKV, date, put.
  rewrite H. reflexivity.
Qed.

(** The upsert of an identifier that is new to a directory of 1000
    records sorts and cuts. *)
Lemma addUserToKV_evicts (chatId : Z) (userInfo : UserInfo.t) (w : World)
  (users : list User.t) :
  USER_STORAGE w = Some users ->
  List.length users = 1000%nat ->
  ~ In chatId (map User.chatId users) ->
  let users' :=
    firstn 1000 (sort (users ++ [record chatId userInfo (now w)])%list) in
  addUserToKV chatId userInfo w = (Val tt, emit (Put users') (store users' w)).
Proof.
  intros Hw Hl Hnew users'.
  rewrite (addUserToKV_stores chatId userInfo w users Hw).
  apply Directory.findIndex_none in Hnew. rewrite Hnew.
  rewrite length_app, Hl. reflexivity.
Qed.

(** C8, as amended. An upsert stores at most 1000 records, and at most one
    record for an identifier when that was so before.  Upserting an
    identifier that is new to a directory of 1000 records of distinct
    identifiers sorts the 1001 records by recency and takes exactly one of
    them out, the last of the sorted list: 1000 records stay, the most
    recently active first, and each of them was active no earlier than
    the evicted one. *)
Theorem addUserToKV_cap (chatId : Z) (userInfo : UserInfo.t) (w : World)
  (users : list User.t) :
  USER_STORAGE w = Some users ->
  exists users',
    addUserToKV chatId userInfo w =
    (Val tt, emit (Put users') (store users' w)) /\
    (List.length users' <= 1000)%nat /\
    (NoDup (map User.chatId users) -> NoDup (map User.chatId users')) /\
    (List.length users = 1000%nat ->
     ~ In chatId (map User.chatId users) ->
     exists evicted,
       (users' ++ [evicted])%list =
       sort (users ++ [record chatId userInfo (now w)])%list /\
       Permutation (users' ++ [evicted])%list
                   (users ++ [record chatId userInfo (now w)])%list /\
       List.length users' = 1000%nat /\
       StronglySorted recent users' /\
       Forall (older evicted) users').
Proof.
  intros Hw. pose proof (addUserToKV_stores chatId userInfo w users Hw) as H.
  cbv zeta in H. eexists. split; [exact H|]. clear H.
  set (x := record chatId userInfo (now w)).
  split; [|split].
  - destruct (1000 <? _)%nat eqn:E.
    + apply firstn_le_length.
    + now apply Nat.ltb_ge in E.
  - intros Hn.
    assert (Hn1 : NoDup (map User.chatId
                     match findIndex chatId users with
                     | Some i => assign i x users
                     | None => (users ++ [x])%list
                     end)).
    { destruct (findIndex chatId users) as [i|] eqn:Ei.
      - now rewrite (proj1 (Directory.assign_ids x users i Ei)).
      - apply Directory.findIndex_none in Ei.
        rewrite map_app. cbn [map].
        eapply Permutation_NoDup; [apply Permutation_cons_append|].
        now constructor. }
    destruct (1000 <? _)%nat; [|exact Hn1].
    rewrite <- firstn_map. apply Directory.nodup_firstn.
    eapply Permutation_NoDup; [|exact Hn1].
    apply Permutation_map, Permutation_sym, Directory.sort_perm.
  - intros Hl Hnew. apply Directory.findIndex_none in Hnew. rewrite Hnew.
    assert (Hl1 : List.length (users ++ [x])%list = 1001%nat)
      by (rewrite length_app, Hl; reflexivity).
    rewrite Hl1. cbn [Nat.ltb Nat.leb]. change (1000 <=? 1000)%nat with true.
    cbv iota.
    pose proof (Directory.sort_perm (users ++ [x])%list) as Hp.
    pose proof (Directory.sort_sorted (users ++ [x])%list) as Hs.
    pose proof (Permutation_length Hp) as Hls. rewrite Hl1 in Hls.
    revert Hp Hs Hls. generalize (sort (users ++ [x])%list). intros s Hp Hs Hls.
    rewrite <- (firstn_skipn 1000 s) in Hp, Hs.
    assert (Hk : List.length (skipn 1000 s) = 1%nat)
      by (rewrite length_skipn; lia).
    destruct (skipn 1000 s) as [|evicted [|? ?]] eqn:Ek; try discriminate Hk.
    exists evicted.
    split; [now rewrite <- Ek, firstn_skipn|].
    split; [exact Hp|].
    split; [rewrite length_firstn; lia|].
    apply Directory.sorted_app in Hs as [Hs Hf].
    split; [exact Hs|].
    eapply Forall_impl; [|exact Hf].
    intros u Hu. now inversion Hu.
Qed.

Lemma directory_ids (time : Z -> Z) (n : nat) :
  map User.chatId (Fixture.directory time n) = map Z.of_nat (seq 1 n).
Proof. unfold Fixture.directory. rewrite map_map. reflexivity. Qed.

Lemma directory_nodup (time : Z -> Z) (n : nat) :
  NoDup (map User.chatId (Fixture.directory time n)).
Proof.
  rewrite directory_ids. apply Injective_map_NoDup.
  - intros a b. apply Nat2Z.inj.
  - apply seq_NoDup.
Qed.

Lemma directory_new (time : Z -> Z) (n : nat) (z : Z) :
  (Z.of_nat n < z)%Z -> ~ In z (map User.chatId (Fixture.directory time n)).
Proof.
  intros H. rewrite directory_ids. intros Hin.
  apply in_map_iff in Hin as (k & <- & Hk). apply in_seq in Hk. lia.
Qed.

Lemma addUserToKV_cap_witness :
  let users := Fixture.directory (fun k => k) 1000 in
  let w := Fixture.world (Some users) in
  USER_STORAGE w = Some users /\
  NoDup (map User.chatId users) /\
  List.length users = 1000%nat /\
  ~ In 2000%Z (map User.chatId users) /\
  exists users' evicted,
    USER_STORAGE (snd (addUserToKV 2000 Fixture.zoe w)) = Some users' /\
    NoDup (map User.chatId users') /\
    List.length users' = 1000%nat /\
    Permutation (users' ++ [evicted])%list
                (users ++ [record 2000 Fixture.zoe (now w)])%list /\
    Forall (older evicted) users'.
Proof.
  intros users w.
  assert (Hw : USER_STORAGE w = Some users) by reflexivity.
  assert (Hn : NoDup (map User.chatId users)) by apply directory_nodup.
  assert (Hl : List.length users = 1000%nat) by (vm_compute; reflexivity).
  assert (Hi : ~ In 2000%Z (map User.chatId users))
    by (apply directory_new; vm_compute; reflexivity).
  do 4 (split; [assumption|]).
  destruct (addUserToKV_cap 2000 Fixture.zoe w users Hw)
    as (users' & E & _ & Hd & Hc).
  destruct (Hc Hl Hi) as (evicted & _ & Hp & Hl' & _ & Ho).
  exists users', evicted. rewrite E.
  split; [reflexivity|]. split; [exact (Hd Hn)|].
  split; [exact Hl'|]. split; [exact Hp | exact Ho].
Defined.

(** C8, as stated, fails when the least recent instant is shared: of 1000
    records last active at the same instant one is evicted when a new
    identifier comes, and those that stay were not active more recently
    than it. *)
Lemma eviction_tie :
  let users := Fixture.directory (fun _ => 5%Z) 1000 in
  let w := Fixture.world (Some users) in
  List.length users = 1000%nat /\
  NoDup (map User.chatId users) /\
  ~ In 2000%Z (map User.chatId users) /\
  exists users',
    USER_STORAGE (snd (addUserToKV 2000 Fixture.zoe w)) = Some users' /\
    forall evicted,
      Permutation (users' ++ [evicted])%list
                  (users ++ [record 2000 Fixture.zoe (now w)])%list ->
      ~ Forall (fun u => (User.lastActive evicted < User.lastActive u)%Z)
               users'.
Proof.
  intros users w.
  split; [vm_compute; reflexivity|].
  split; [apply directory_nodup|].
  split; [apply directory_new; vm_compute; reflexivity|].
  assert (Hl : List.length users = 1000%nat) by (vm_compute; reflexivity).
  assert (Hi : ~ In 2000%Z (map User.chatId users))
    by (apply directory_new; vm_compute; reflexivity).
  pose proof (addUserToKV_evicts 2000 Fixture.zoe w users eq_refl Hl Hi) as E.
  cbv zeta in E.
  set (users' := firstn 1000 _) in E.
  exists users'. rewrite E. split; [reflexivity|].
  intros evicted Hp Hf.
  assert (Hin : In evicted (users ++ [record 2000 Fixture.zoe (now w)])%list).
  { eapply Permutation_in; [exact Hp|]. apply in_or_app. right. now left. }
  assert (Hge : (5 <= User.lastActive evicted)%Z).
  { apply in_app_or in Hin as [Hin|[<-|[]]].
    - unfold users, Fixture.directory in Hin.
      apply in_map_iff in Hin as (k & <- & _). simpl. lia.
    - vm_compute. discriminate. }
  assert (Hk : exists u, In u users' /\ User.lastActive u = 5%Z).
  { assert (Hex : existsb (fun u => Z.eqb (User.lastActive u) 5) users' = true)
      by (vm_compute; reflexivity).
    apply existsb_exists in Hex as (u & Hu & Hu').
    exists u. split; [exact Hu | apply Z.eqb_eq; exact Hu']. }
  destruct Hk as (u & Hu & Hu5).
  rewrite Forall_forall in Hf. specialize (Hf u Hu). lia.
Qed.

(** ** Worlds and traces *)

Lemma emits_nil (w : World) : emits [] w = w.
Proof. destruct w. unfold emits. simpl. now rewrite app_nil_r. Qed.

Lemma emits_emits (a b : list Event) (w : World) :
  emits b (emits a w) = emits (a ++ b)%list w.
Proof. unfold emits. simpl. now rewrite app_assoc. Qed.

Lemma emit_emits (e : Event) (w : World) : emit e w = emits [e] w.
Proof. reflexivity. Qed.

Lemma requests_app (a b : list Event) :
  requests (a ++ b)%list = (requests a ++ requests b)%list.
Proof.
  induction a as [|e a IH]; [reflexivity|].
  destruct e; simpl; now rewrite IH.
Qed.

Lemma puts_app (a b : list Event) :
  puts (a ++ b)%list = (puts a ++ puts b)%list.
Proof.
  induction a as [|e a IH]; [reflexivity|].
  destruct e; simpl; now rewrite IH.
Qed.

Lemma refused_app (a b : list Event) :
  refused (a ++ b)%list = (refused a ++ refused b)%list.
Proof.
  induction a as [|e a IH]; [reflexivity|].
  destruct e as [| ? [|] | | |]; simpl; now rewrite IH.
Qed.

Lemma requests_fetch (calls : list Call) : requests (map Fetch calls) = calls.
Proof. induction calls; simpl; congruence. Qed.

Lemma puts_fetch (calls : list Call) : puts (map Fetch calls) = [].
Proof. induction calls; simpl; congruence. Qed.

Lemma refused_fetch (calls : list Call) : refused (map Fetch calls) = [].
Proof. induction calls; simpl; congruence. Qed.

Lemma requests_settled (order : list (ChatId * option string)) :
  requests (map settled order) = [].
Proof. induction order; simpl; congruence. Qed.

Lemma puts_settled (order : list (ChatId * option string)) :
  puts (map settled order) = [].
Proof. induction order; simpl; congruence. Qed.

Lemma refused_settled (order : list (ChatId * option string)) :
  refused (map settled order) = map fst (fails order).
Proof.
  induction order as [|[chat [m|]] order IH]; simpl; congruence.
Qed.

(** ** Batches *)

Module Chunks.

Section Size.

Context {A : Type} (size : nat) (positive : (0 < size)%nat).

Lemma skipn_shorter (l : list A) :
  l <> [] -> (List.length (skipn size l) < List.length l)%nat.
Proof.
  intros H. rewrite length_skipn. destruct l; [congruence|].
  cbn [List.length]. lia.
Qed.

(** Fuel beyond the length of the list changes nothing. *)
Lemma fuel_enough (f1 f2 : nat) (l : list A) :
  (List.length l <= f1)%nat -> (List.length l <= f2)%nat ->
  chunks_fuel f1 size l = chunks_fuel f2 size l.
Proof.
  revert f2 l; induction f1 as [|f1 IH]; intros f2 l H1 H2.
  - destruct l; [|simpl in H1; lia]. now destruct f2.
  - destruct l as [|x l]; [now destruct f2|].
    destruct f2 as [|f2]; [simpl in H2; lia|].
    cbn [chunks_fuel]. f_equal.
    pose proof (skipn_shorter (x :: l) ltac:(discriminate)) as Hs.
    apply IH; simpl in *; lia.
Qed.

Lemma chunks_nil : chunks size (@List.nil A) = [].
Proof. reflexivity. Qed.

Lemma chunks_cons (l : list A) :
  l <> [] -> chunks size l = firstn size l :: chunks size (skipn size l).
Proof.
  intros H. unfold chunks. destruct l as [|x l]; [congruence|].
  cbn [List.length chunks_fuel]. f_equal.
  pose proof (skipn_shorter (x :: l) H) as Hs.
  apply fuel_enough; simpl in *; lia.
Qed.

(** An induction that follows the batches. *)
Lemma chunks_ind (P : list A -> Prop) :
  P [] ->
  (forall l, l <> [] -> P (skipn size l) -> P l) ->
  forall l, P l.
Proof.
  intros H0 Hs l.
  assert (H : forall n l, (List.length l <= n)%nat -> P l).
  { induction n as [|n IH]; intros l' Hl.
    - destruct l'; [exact H0 | simpl in Hl; lia].
    - destruct l' as [|x l']; [exact H0|].
      apply Hs; [discriminate|]. apply IH.
      pose proof (skipn_shorter (x :: l') ltac:(discriminate)). lia. }
  now apply (H (List.length l)).
Qed.

Lemma concat_chunks (l : list A) : concat (chunks size l) = l.
Proof.
  induction l as [|l Hl IH] using chunks_ind; [reflexivity|].
  rewrite chunks_cons by exact Hl. cbn [concat]. rewrite IH.
  apply firstn_skipn.
Qed.

Lemma bounded (l : list A) :
  Forall (fun b => (List.length b <= size)%nat /\ b <> []) (chunks size l).
Proof.
  induction l as [|l Hl IH] using chunks_ind; [constructor|].
  rewrite chunks_cons by exact Hl. constructor; [|exact IH].
  split; [apply firstn_le_length|].
  destruct l; [congruence|]. destruct size; [lia | discriminate].
Qed.

Lemma is_nil (l : list A) : chunks size l = [] <-> l = [].
Proof.
  split; [|now intros ->].
  destruct l; [reflexivity|]. now rewrite chunks_cons.
Qed.

End Size.

(** Batches of ten: as many as the tenth of the length, rounded up. *)
Lemma chunks_count {A : Type} (l : list A) :
  List.length (chunks 10 l) = ((List.length l + 9) / 10)%nat.
Proof.
  induction l as [|l Hl IH] using (chunks_ind 10 ltac:(lia)); [reflexivity|].
  rewrite chunks_cons by (lia || exact Hl). cbn [List.length]. rewrite IH.
  rewrite length_skipn.
  assert (Hp : (0 < List.length l)%nat)
    by (destruct l; [congruence | simpl; lia]).
  destruct (Nat.le_gt_cases 10 (List.length l)) as [H|H].
  - replace (List.length l + 9)%nat with (List.length l - 10 + 9 + 1 * 10)%nat
      by lia.
    rewrite Nat.div_add by lia. lia.
  - replace (List.length l - 10 + 9)%nat with 9%nat by lia.
    change (9 / 10)%nat with 0%nat.
    apply Nat.div_unique with (r := (List.length l - 1)%nat); lia.
Qed.

End Chunks.

(** ** The fan-out *)

Lemma bind_val {A B : Type} (m : M A) (k : A -> M B) (w w' : World) (a : A) :
  m w = (Val a, w') -> bind m k w = k a w'.
Proof. intros H. unfold bind. now rewrite H. Qed.

Lemma accounted_nil (results : Results) : accounted [] [] results results [].
Proof.
  split; [reflexivity|]. split; [reflexivity|]. split; [simpl; lia|].
  exists nil. simpl. rewrite app_nil_r.
  split; [reflexivity|]. split; [lia|]. split; [reflexivity|].
  apply incl_nil_l.
Qed.

Lemma accounted_delay (results : Results) (ms : Z) :
  accounted [] [] results results [Delay ms].
Proof.
  split; [reflexivity|]. split; [reflexivity|]. split; [simpl; lia|].
  exists nil. simpl. rewrite app_nil_r.
  split; [reflexivity|]. split; [lia|]. split; [reflexivity|].
  apply incl_nil_l.
Qed.

Lemma accounted_app (t1 t2 : list ChatId) (c1 c2 : list Call)
  (r0 r1 r2 : Results) (e1 e2 : list Event) :
  accounted t1 c1 r0 r1 e1 ->
  accounted t2 c2 r1 r2 e2 ->
  accounted (t1 ++ t2)%list (c1 ++ c2)%list r0 r2 (e1 ++ e2)%list.
Proof.
  intros (Hq1 & Hp1 & Hn1 & f1 & He1 & Hf1 & Hr1 & Hi1)
         (Hq2 & Hp2 & Hn2 & f2 & He2 & Hf2 & Hr2 & Hi2).
  split; [rewrite requests_app; congruence|].
  split; [rewrite puts_app, Hp1, Hp2; reflexivity|].
  split; [rewrite length_app; lia|].
  exists (f1 ++ f2)%list.
  split; [rewrite He2, He1, map_app, app_assoc; reflexivity|].
  split; [rewrite length_app; lia|].
  split; [rewrite map_app, refused_app; congruence|].
  rewrite map_app. apply incl_app; [now apply incl_appl | now apply incl_appr].
Qed.

Lemma fold_settle (order : list (ChatId * option string)) (results : Results) :
  let after := fold_left settle order results in
  (success after + failed after =
   success results + failed results + List.length order)%nat /\
  errors after = (errors results ++ map diagnosed (fails order))%list /\
  failed after = (failed results + List.length (fails order))%nat.
Proof.
  revert results; induction order as [|[chat [m|]] order IH]; intros results.
  - simpl. rewrite app_nil_r. split; [lia|]. split; [reflexivity | lia].
  - cbn [fold_left fails List.length map]. cbv zeta in *.
    destruct (IH (settle results (chat, Some m))) as (H1 & H2 & H3).
    rewrite H2, H3. unfold settle in *. cbn [snd fst errors failed success] in *.
    rewrite <- app_assoc. split; [lia|]. split; [reflexivity | lia].
  - cbn [fold_left fails List.length map]. cbv zeta in *.
    destruct (IH (settle results (chat, None))) as (H1 & H2 & H3).
    rewrite H2, H3. unfold settle in *. cbn [snd fst errors failed success] in *.
    split; [lia|]. split; reflexivity.
Qed.

Lemma fails_incl (order : list (ChatId * option string)) :
  incl (map fst (fails order)) (map fst order).
Proof.
  induction order as [|[chat [m|]] order IH]; simpl.
  - apply incl_refl.
  - apply incl_cons; [now left | now apply incl_tl].
  - now apply incl_tl.
Qed.

Section FanOut.

Context {R : Runtime}.
Variables (env : Env) (message : string) (isMedia : bool)
          (messageId : option Z).

Lemma tell_all_emits (events : list Event) (w : World) :
  tell_all events w = (Val tt, emits events w).
Proof.
  revert w; induction events as [|e events IH]; intros w.
  - simpl. unfold ret. now rewrite emits_nil.
  - cbn [tell_all]. unfold bind, tell. rewrite IH, emit_emits, emits_emits.
    reflexivity.
Qed.

(** A delivery sends its request and settles, whatever the outcome. *)
Lemma deliver_sends (chat : ChatId) (w : World) :
  exists outcome,
    deliver env message isMedia messageId chat w =
    (Val (chat, outcome), emits [Fetch (delivery env message isMedia messageId chat)] w).
Proof.
  unfold deliver, try_catch, bind, copyMessage, sendMessage, callTelegramAPI,
    delivery, ret.
  destruct isMedia.
  - destruct (transport _ _); eexists; reflexivity.
  - destruct (transport _ _); eexists; reflexivity.
Qed.

Lemma mapM_deliver (batch : list ChatId) (w : World) :
  exists started,
    mapM (deliver env message isMedia messageId) batch w =
    (Val started, emits (map Fetch (map (delivery env message isMedia messageId) batch)) w) /\
    map fst started = batch.
Proof.
  revert w; induction batch as [|chat batch IH]; intros w.
  - exists []. simpl. unfold ret. now rewrite emits_nil.
  - destruct (deliver_sends chat w) as (o & Ho).
    destruct (IH (emits [Fetch (delivery env message isMedia messageId chat)] w)) as (started & Hs & Hf).
    exists ((chat, o) :: started). cbn [mapM].
    rewrite (bind_val _ _ _ _ _ Ho), (bind_val _ _ _ _ _ Hs).
    unfold ret. rewrite emits_emits. simpl. now rewrite Hf.
Qed.

(** One batch: its events have the shape of a batch, and its counts
    account for every member. *)
Lemma run_batch_spec (batch : list ChatId) (results : Results) (w : World) :
  exists after events,
    run_batch env message isMedia messageId batch results w =
    (Val after, emits events w) /\
    batch_events batch events /\
    accounted batch (map (delivery env message isMedia messageId) batch) results after events.
Proof.
  destruct (mapM_deliver batch w) as (started & Hs & Hf).
  pose proof (sched_perm started) as Hp.
  set (order := sched started) in *.
  exists (fold_left settle order results),
    (map Fetch (map (delivery env message isMedia messageId) batch) ++ map settled order ++ [AllSettled])%list.
  split; [|split].
  - unfold run_batch. rewrite (bind_val _ _ _ _ _ Hs). fold order.
    unfold bind. rewrite tell_all_emits. unfold tell, ret.
    rewrite emit_emits, !emits_emits. reflexivity.
  - exists (map (delivery env message isMedia messageId) batch), order. split; [reflexivity|].
    split.
    + rewrite map_map. rewrite <- (map_id batch) at 2.
      apply map_ext. intros c. unfold delivery. now destruct isMedia.
    + rewrite <- Hf. now apply Permutation_map.
  - destruct (fold_settle order results) as (H1 & H2 & H3).
    assert (Hl : List.length order = List.length batch).
    { rewrite (Permutation_length Hp), <- Hf. now rewrite length_map. }
    split; [rewrite !requests_app, requests_fetch, requests_settled;
            simpl; now rewrite app_nil_r|].
    split; [rewrite !puts_app, puts_fetch, puts_settled; reflexivity|].
    split; [lia|].
    exists (fails order). split; [exact H2|]. split; [exact H3|].
    split.
    + rewrite !refused_app, refused_fetch, refused_settled. simpl.
      now rewrite app_nil_r.
    + eapply incl_tran; [apply fails_incl|].
      intros c Hc. rewrite <- Hf.
      eapply Permutation_in; [apply Permutation_map, Hp | exact Hc].
Qed.

(** The loop over the batches, from the index [i] on: it ends with a
    value, its events are those of the batches of the remaining targets
    with a pause between two of them, and its counts account for every
    remaining target. *)
Lemma batches_spec (targets : list ChatId) (fuel i : nat) (results : Results)
  (w : World) :
  (List.length targets <= i + fuel)%nat ->
  exists after events,
    batches fuel env message isMedia messageId targets i results w =
    (Val after, emits events w) /\
    accounted (skipn i targets) (map (delivery env message isMedia messageId) (skipn i targets))
              results after events /\
    (skipn i targets = [] -> events = []) /\
    (skipn i targets <> [] -> fanned (chunks 10 (skipn i targets)) events).
Proof.
  revert i results w; induction fuel as [|fuel IH]; intros i results w Hfuel.
  - exists results, [].
    assert (Hs : skipn i targets = []) by (apply skipn_all2; lia).
    assert (Hi : (i <? List.length targets)%nat = false)
      by (apply Nat.ltb_ge; lia).
    cbn [batches]. rewrite Hi, Hs. unfold ret. rewrite emits_nil.
    split; [reflexivity|]. split; [apply accounted_nil|].
    split; [reflexivity | congruence].
  - cbn [batches].
    destruct (i <? List.length targets)%nat eqn:Hi.
    2:{ exists results, [].
        assert (Hs : skipn i targets = [])
          by (apply skipn_all2; apply Nat.ltb_ge in Hi; lia).
        rewrite Hs. unfold ret. rewrite emits_nil.
        split; [reflexivity|]. split; [apply accounted_nil|].
        split; [reflexivity | congruence]. }
    apply Nat.ltb_lt in Hi.
    set (rest := skipn i targets).
    assert (Hrest : rest <> []).
    { intros E. apply (f_equal (@List.length _)) in E.
      unfold rest in E. rewrite length_skipn in E. simpl in E. lia. }
    assert (Hbatch : slice i (i + batchSize) targets = firstn 10 rest).
    { unfold slice, batchSize, rest. now replace (i + 10 - i)%nat with 10%nat by lia. }
    assert (Hnext : skipn (i + batchSize) targets = skipn 10 rest).
    { unfold batchSize, rest. rewrite skipn_skipn. f_equal. lia. }
    rewrite Hbatch.
    destruct (run_batch_spec (firstn 10 rest) results w)
      as (r1 & e1 & Hrun & Hshape & Hacc).
    rewrite (bind_val _ _ _ _ _ Hrun).
    destruct (IH (i + batchSize)%nat r1
                 (emits (if (i + batchSize <? List.length targets)%nat
                         then [Delay 100] else []) (emits e1 w))
                 ltac:(unfold batchSize; lia))
      as (r2 & e2 & Hloop & Hacc2 & Hnil & Hfan).
    rewrite Hnext in Hacc2, Hnil, Hfan.
    rewrite Chunks.chunks_cons by (lia || exact Hrest).
    destruct (i + batchSize <? List.length targets)%nat eqn:Hmore.
    + exists r2, (e1 ++ Delay 100 :: e2)%list.
      split.
      { unfold bind at 1. unfold tell. rewrite emit_emits, Hloop.
        rewrite !emits_emits. reflexivity. }
      assert (Hne : skipn 10 rest <> []).
      { rewrite <- Hnext. intros E.
        apply (f_equal (@List.length _)) in E.
        rewrite length_skipn in E. apply Nat.ltb_lt in Hmore. simpl in E. lia. }
      split.
      { rewrite <- (firstn_skipn 10 rest) at 1 2. rewrite map_app.
        eapply accounted_app; [exact Hacc|].
        change (Delay 100 :: e2) with ([Delay 100] ++ e2)%list.
        apply (accounted_app [] _ [] _ r1 r1 r2);
          [apply accounted_delay | exact Hacc2]. }
      split; [congruence|]. intros _.
      apply fanned_more; [exact Hshape | | now apply Hfan].
      intros E. apply Chunks.is_nil in E; [congruence | lia].
    + exists r2, e1.
      assert (He : skipn 10 rest = []).
      { rewrite <- Hnext. apply skipn_all2.
        apply Nat.ltb_ge in Hmore. lia. }
      specialize (Hnil He). subst e2.
      split.
      { rewrite emits_nil in Hloop.
        unfold bind at 1. unfold ret at 1. rewrite Hloop.
        rewrite !emits_emits, !app_nil_r. reflexivity. }
      split.
      { rewrite <- (firstn_skipn 10 rest) at 1 2. rewrite map_app.
        rewrite <- (app_nil_r e1).
        eapply accounted_app; [exact Hacc | exact Hacc2]. }
      split; [congruence|]. intros _.
      rewrite He, Chunks.chunks_nil. now apply fanned_last.
Qed.

(** A fan-out over a list that is not empty. *)
Lemma fan_out_spec (targets : list ChatId) (w : World) :
  targets <> [] ->
  exists after events,
    fan_out env message isMedia messageId targets w =
    (Val after, emits events w) /\
    accounted targets (map (delivery env message isMedia messageId) targets)
              {| success := 0; failed := 0; errors := [] |} after events /\
    fanned (chunks 10 targets) events.
Proof.
  intros Hne. unfold fan_out.
  destruct targets as [|c targets]; [congruence|].
  cbn [List.length Nat.eqb].
  destruct (batches_spec (c :: targets) (S (List.length targets)) 0
              {| success := 0; failed := 0; errors := [] |} w
              ltac:(simpl; lia))
    as (after & events & H & Hacc & _ & Hfan).
  exists after, events. split; [exact H|].
  split; [exact Hacc | now apply Hfan].
Qed.

Lemma fan_out_empty (w : World) :
  fan_out env message isMedia messageId [] w =
  (Val {| success := 0; failed := 1; errors := [Text.noTargets] |}, w).
Proof. reflexivity. Qed.

End FanOut.

Section Broadcast.

Context {R : Runtime}.
Variables (message : string) (env : Env) (isMedia : bool)
          (messageId : option Z).

(** A broadcast to the sentinel reads the directory. *)
Lemma broadcast_all (w : World) :
  broadcastMessage All message env isMedia messageId w =
  match resolve All w with
  | [] => (Val {| success := 0; failed := 1; errors := [Text.noRecipients] |},
           w)
  | targets => fan_out env message isMedia messageId targets w
  end.
Proof.
  unfold broadcastMessage, bind, getUsersFromKV, resolve.
  destruct (USER_STORAGE w) as [[|u users]|]; reflexivity.
Qed.

Lemma broadcast_ids (l : list string) (w : World) :
  broadcastMessage (Ids l) message env isMedia messageId w =
  fan_out env message isMedia messageId (map Txt l) w.
Proof. reflexivity. Qed.

(** Every broadcast ends with counts; over targets that are not empty
    they come from the fan-out. *)
Lemma broadcast_spec (userIds : UserIds) (w : World) :
  resolve userIds w <> [] ->
  exists results events,
    broadcastMessage userIds message env isMedia messageId w =
    (Val results, emits events w) /\
    accounted (resolve userIds w)
              (map (delivery env message isMedia messageId)
                   (resolve userIds w))
              {| success := 0; failed := 0; errors := [] |} results events /\
    fanned (chunks 10 (resolve userIds w)) events.
Proof.
  intros Hne. destruct userIds as [|l].
  - rewrite broadcast_all.
    destruct (resolve All w) as [|c targets] eqn:E; [congruence|].
    now apply fan_out_spec.
  - rewrite broadcast_ids. now apply fan_out_spec.
Qed.

Lemma broadcast_nobody (userIds : UserIds) (w : World) :
  resolve userIds w = [] ->
  broadcastMessage userIds message env isMedia messageId w =
  (Val {| success := 0; failed := 1;
          errors := [if is_all userIds
                     then Text.noRecipients else Text.noTargets] |}, w).
Proof.
  intros He. destruct userIds as [|l].
  - rewrite broadcast_all, He. reflexivity.
  - rewrite broadcast_ids. simpl in He. rewrite He. reflexivity.
Qed.

End Broadcast.

(** C7. A broadcast to an explicit list of n identifiers, n at least 1,
    returns counts, whatever the outcome of each delivery and the order in
    which the deliveries of a batch settle.  The targets are cut into
    batches of at most 10, as many as n / 10 rounded up; the events are,
    batch after batch, the requests to the members in order, then the
    settlement of every member, then the settlement of the batch, with a
    pause of 100 ms after every batch but the last; each target is
    requested once; and the successes and the failures add up to n. *)
Theorem broadcast_batches {R : Runtime} (l : list string) (message : string)
  (env : Env) (isMedia : bool) (messageId : option Z) (w : World) :
  l <> [] ->
  exists results events,
    broadcastMessage (Ids l) message env isMedia messageId w =
    (Val results, emits events w) /\
    fanned (chunks 10 (map Txt l)) events /\
    List.length (chunks 10 (map Txt l)) = ((List.length l + 9) / 10)%nat /\
    Forall (fun batch => (List.length batch <= 10)%nat /\ batch <> [])
           (chunks 10 (map Txt l)) /\
    concat (chunks 10 (map Txt l)) = map Txt l /\
    requests events =
    map (delivery env message isMedia messageId) (map Txt l) /\
    (success results + failed results = List.length l)%nat.
Proof.
  intros Hne.
  assert (Hr : resolve (Ids l) w <> []) by (destruct l; [congruence | discriminate]).
  destruct (broadcast_spec message env isMedia messageId (Ids l) w Hr)
    as (results & events & H & (Hq & _ & Hn & _) & Hfan).
  cbn [resolve] in *.
  exists results, events. split; [exact H|]. split; [exact Hfan|].
  split; [rewrite Chunks.chunks_count, length_map; reflexivity|].
  split; [apply Chunks.bounded; lia|].
  split; [apply Chunks.concat_chunks; lia|].
  split; [exact Hq|].
  cbn [success failed] in Hn. rewrite length_map in Hn. lia.
Qed.

Lemma broadcast_batches_witness :
  Fixture.ids 1 23 <> [] /\
  exists results events,
    broadcastMessage (R := Fixture.flaky) (Ids (Fixture.ids 1 23)) "hi"
      (Fixture.env None) false None (Fixture.world None) =
    (Val results, emits events (Fixture.world None)) /\
    fanned (chunks 10 (map Txt (Fixture.ids 1 23))) events /\
    List.length (chunks 10 (map Txt (Fixture.ids 1 23))) = 3%nat /\
    (success results + failed results = 23)%nat.
Proof.
  assert (Hne : Fixture.ids 1 23 <> []) by discriminate.
  split; [exact Hne|].
  destruct (broadcast_batches (R := Fixture.flaky) (Fixture.ids 1 23) "hi"
              (Fixture.env None) false None (Fixture.world None) Hne)
    as (results & events & H & Hfan & Hc & _ & _ & _ & Hn).
  exists results, events.
  split; [exact H|]. split; [exact Hfan|].
  split; [exact Hc | exact Hn].
Defined.

(** ** The diagnostics and the answers of the transport *)

Section Judged.

Context {R : Runtime}.
Variables (env : Env) (message : string) (isMedia : bool)
          (messageId : option Z).

Lemma rejected_app (history a b : list Event) :
  rejected history (a ++ b)%list =
  (rejected history a ++ rejected (history ++ a)%list b)%list.
Proof.
  revert history; induction a as [|e a IH]; intros history.
  - simpl. now rewrite app_nil_r.
  - cbn [app rejected]. rewrite IH, <- app_assoc. cbn [app].
    destruct e as [c| | | |]; try reflexivity.
    destruct (transport history c); reflexivity.
Qed.

Lemma rejected_settled (history : list Event)
  (order : list (ChatId * option string)) :
  rejected history (map settled order) = [].
Proof.
  revert history; induction order as [|d order IH]; intros history;
    [reflexivity|].
  cbn [map rejected]. unfold settled at 1. apply IH.
Qed.

(** A delivery is judged by the answer of the transport to its request. *)
Lemma deliver_outcome (chat : ChatId) (w : World) :
  deliver env message isMedia messageId chat w =
  (Val (chat,
        match transport (trace w)
                (delivery env message isMedia messageId chat) with
        | Returned _ => None
        | Failed error => Some error
        end),
   emits [Fetch (delivery env message isMedia messageId chat)] w).
Proof.
  unfold deliver, try_catch, bind, copyMessage, sendMessage, callTelegramAPI,
    delivery, ret.
  destruct isMedia; destruct (transport _ _); reflexivity.
Qed.

Lemma recipient_delivery (chat : ChatId) :
  recipient (delivery env message isMedia messageId chat) = chat.
Proof. unfold delivery. now destruct isMedia. Qed.

Lemma mapM_deliver_fails (batch : list ChatId) (w : World) :
  exists started,
    mapM (deliver env message isMedia messageId) batch w =
    (Val started,
     emits (map Fetch (map (delivery env message isMedia messageId) batch))
       w) /\
    map fst started = batch /\
    fails started =
    rejected (trace w)
      (map Fetch (map (delivery env message isMedia messageId) batch)).
Proof.
  revert w; induction batch as [|chat batch IH]; intros w.
  - exists []. simpl. unfold ret. now rewrite emits_nil.
  - pose proof (deliver_outcome chat w) as Ho.
    destruct (IH (emits [Fetch (delivery env message isMedia messageId chat)]
                    w))
      as (started & Hs & Hf & Hr).
    eexists. cbn [mapM].
    rewrite (bind_val _ _ _ _ _ Ho), (bind_val _ _ _ _ _ Hs).
    unfold ret. rewrite emits_emits.
    split; [reflexivity|]. split; [simpl; now rewrite Hf|].
    cbn [map rejected fails]. cbn [trace emits] in Hr.
    rewrite recipient_delivery.
    destruct (transport (trace w) _); now rewrite Hr.
Qed.

Lemma fails_perm (a b : list (ChatId * option string)) :
  Permutation a b -> Permutation (fails a) (fails b).
Proof.
  induction 1 as [|[c [m|]] a b H IH|[c [m|]] [c' [m'|]] a|a b c H1 IH1 H2 IH2];
    cbn [fails]; try (now constructor); try apply Permutation_refl;
    try exact IH.
  now transitivity (fails b).
Qed.

Lemma judged_nil (history : list Event) (results : Results) :
  judged history [] results results [].
Proof.
  exists nil. simpl. rewrite app_nil_r.
  split; [reflexivity|]. split; [lia|]. split; [lia|].
  split; [reflexivity|]. split; [apply incl_nil_l | constructor].
Qed.

Lemma judged_delay (history : list Event) (results : Results) (ms : Z) :
  judged history [] results results [Delay ms].
Proof.
  exists nil. simpl. rewrite app_nil_r.
  split; [reflexivity|]. split; [lia|]. split; [lia|].
  split; [reflexivity|]. split; [apply incl_nil_l | constructor].
Qed.

Lemma judged_app (history : list Event) (t1 t2 : list ChatId)
  (r0 r1 r2 : Results) (e1 e2 : list Event) :
  judged history t1 r0 r1 e1 ->
  judged (history ++ e1)%list t2 r1 r2 e2 ->
  judged history (t1 ++ t2)%list r0 r2 (e1 ++ e2)%list.
Proof.
  intros (f1 & He1 & Hf1 & Hn1 & Hr1 & Hi1 & Hp1)
         (f2 & He2 & Hf2 & Hn2 & Hr2 & Hi2 & Hp2).
  exists (f1 ++ f2)%list.
  split; [rewrite He2, He1, map_app, app_assoc; reflexivity|].
  split; [rewrite length_app; lia|].
  split; [rewrite length_app; lia|].
  split; [rewrite map_app, refused_app; congruence|].
  split.
  - rewrite map_app.
    apply incl_app; [now apply incl_appl | now apply incl_appr].
  - rewrite rejected_app. now apply Permutation_app.
Qed.

(** One batch: the deliveries that settle as failures are the requests
    that the transport refused. *)
Lemma run_batch_judged (batch : list ChatId) (results : Results) (w : World) :
  exists after events,
    run_batch env message isMedia messageId batch results w =
    (Val after, emits events w) /\
    judged (trace w) batch results after events.
Proof.
  destruct (mapM_deliver_fails batch w) as (started & Hs & Hf & Hr).
  pose proof (sched_perm started) as Hp.
  set (order := sched started) in *.
  set (calls := map (delivery env message isMedia messageId) batch) in *.
  exists (fold_left settle order results),
    (map Fetch calls ++ map settled order ++ [AllSettled])%list.
  split.
  - unfold run_batch. rewrite (bind_val _ _ _ _ _ Hs). fold order.
    unfold bind. rewrite tell_all_emits. unfold tell, ret.
    rewrite emit_emits, !emits_emits. reflexivity.
  - destruct (fold_settle order results) as (H1 & H2 & H3).
    assert (Hl : List.length order = List.length batch).
    { rewrite (Permutation_length Hp), <- Hf. now rewrite length_map. }
    exists (fails order). split; [exact H2|]. split; [exact H3|].
    split; [lia|].
    split.
    { rewrite !refused_app, refused_fetch, refused_settled. simpl.
      now rewrite app_nil_r. }
    split.
    { eapply incl_tran; [apply fails_incl|].
      intros c Hc. rewrite <- Hf.
      eapply Permutation_in; [apply Permutation_map, Hp | exact Hc]. }
    rewrite !rejected_app, rejected_settled, <- Hr. cbn [rejected app].
    rewrite app_nil_r. now apply fails_perm.
Qed.

(** The loop over the batches, from the index [i] on. *)
Lemma batches_judged (targets : list ChatId) (fuel i : nat)
  (results : Results) (w : World) :
  (List.length targets <= i + fuel)%nat ->
  exists after events,
    batches fuel env message isMedia messageId targets i results w =
    (Val after, emits events w) /\
    judged (trace w) (skipn i targets) results after events.
Proof.
  revert i results w; induction fuel as [|fuel IH]; intros i results w Hfuel.
  - exists results, [].
    assert (Hs : skipn i targets = []) by (apply skipn_all2; lia).
    assert (Hi : (i <? List.length targets)%nat = false)
      by (apply Nat.ltb_ge; lia).
    cbn [batches]. rewrite Hi, Hs. unfold ret. rewrite emits_nil.
    split; [reflexivity | apply judged_nil].
  - cbn [batches].
    destruct (i <? List.length targets)%nat eqn:Hi.
    2:{ exists results, [].
        assert (Hs : skipn i targets = [])
          by (apply skipn_all2; apply Nat.ltb_ge in Hi; lia).
        rewrite Hs. unfold ret. rewrite emits_nil.
        split; [reflexivity | apply judged_nil]. }
    apply Nat.ltb_lt in Hi.
    set (rest := skipn i targets).
    assert (Hbatch : slice i (i + batchSize) targets = firstn 10 rest).
    { unfold slice, batchSize, rest.
      now replace (i + 10 - i)%nat with 10%nat by lia. }
    assert (Hnext : skipn (i + batchSize) targets = skipn 10 rest).
    { unfold batchSize, rest. rewrite skipn_skipn. f_equal. lia. }
    rewrite Hbatch.
    destruct (run_batch_judged (firstn 10 rest) results w)
      as (r1 & e1 & Hrun & Hj1).
    rewrite (bind_val _ _ _ _ _ Hrun).
    set (pause := if (i + batchSize <? List.length targets)%nat
                  then [Delay 100] else []).
    destruct (IH (i + batchSize)%nat r1 (emits pause (emits e1 w))
                 ltac:(unfold batchSize; lia))
      as (r2 & e2 & Hloop & Hj2).
    rewrite Hnext in Hj2.
    exists r2, (e1 ++ pause ++ e2)%list.
    split.
    + unfold pause in *.
      destruct (i + batchSize <? List.length targets)%nat.
      * unfold bind at 1. unfold tell. rewrite emit_emits, Hloop.
        rewrite !emits_emits, <- ?app_assoc. reflexivity.
      * rewrite emits_nil in Hloop.
        unfold bind at 1. unfold ret at 1. rewrite Hloop.
        rewrite !emits_emits. reflexivity.
    + rewrite <- (firstn_skipn 10 rest) at 1.
      apply (judged_app _ _ _ results r1 r2); [exact Hj1|].
      change (skipn 10 rest) with ([] ++ skipn 10 rest)%list.
      apply (judged_app _ [] _ r1 r1 r2).
      * unfold pause. destruct (_ <? _)%nat;
          [apply judged_delay | apply judged_nil].
      * exact Hj2.
Qed.

(** A broadcast over targets that are not empty. *)
Lemma broadcast_judged (userIds : UserIds) (w : World) :
  resolve userIds w <> [] ->
  exists results events,
    broadcastMessage userIds message env isMedia messageId w =
    (Val results, emits events w) /\
    judged (trace w) (resolve userIds w)
           {| success := 0; failed := 0; errors := [] |} results events.
Proof.
  intros Hne.
  assert (H : broadcastMessage userIds message env isMedia messageId w =
              fan_out env message isMedia messageId (resolve userIds w) w).
  { destruct userIds as [|l]; [|apply broadcast_ids].
    rewrite broadcast_all.
    destruct (resolve All w) as [|c targets]; [congruence | reflexivity]. }
  rewrite H. unfold fan_out.
  destruct (resolve userIds w) as [|c targets]; [congruence|].
  cbn [List.length Nat.eqb].
  apply (batches_judged (c :: targets) (S (List.length targets)) 0
           {| success := 0; failed := 0; errors := [] |} w).
  simpl. lia.
Qed.

End Judged.

(** C10. Every broadcast returns counts with as many diagnostics as
    failures.  When the targets resolve to nobody, the sentinel over an
    empty directory or an empty explicit list, nothing is sent and the
    result is no success and one failure with its one diagnostic.
    Otherwise the diagnostics are, one for one and in the order of
    settlement, those of the deliveries that settled as failures, each
    naming its recipient and the message of the error after the label;
    and these deliveries are the requests that the transport refused,
    each once and with the message of its own error, so that the
    failures counted are the requests refused and every other recipient
    is counted as a success. *)
Theorem broadcast_diagnostics {R : Runtime} (userIds : UserIds)
  (message : string) (env : Env) (isMedia : bool) (messageId : option Z)
  (w : World) :
  exists results events,
    broadcastMessage userIds message env isMedia messageId w =
    (Val results, emits events w) /\
    List.length (errors results) = failed results /\
    (resolve userIds w = [] ->
     events = [] /\
     success results = 0%nat /\ failed results = 1%nat /\
     errors results =
     [if is_all userIds then Text.noRecipients else Text.noTargets]) /\
    (resolve userIds w <> [] ->
     exists failures,
       errors results = map diagnosed failures /\
       map fst failures = refused events /\
       incl (map fst failures) (resolve userIds w) /\
       (forall f, In f failures ->
          diagnosed f = "用户 " ++ render (fst f) ++ ": " ++ snd f) /\
       Permutation failures (rejected (trace w) events) /\
       failed results = List.length (rejected (trace w) events) /\
       (success results + failed results =
        List.length (resolve userIds w))%nat).
Proof.
  destruct (resolve userIds w) as [|c targets] eqn:E.
  - exists {| success := 0; failed := 1;
              errors := [if is_all userIds
                         then Text.noRecipients else Text.noTargets] |}, [].
    rewrite emits_nil.
    split; [now apply broadcast_nobody|].
    split; [reflexivity|].
    split; [now repeat split | congruence].
  - assert (Hr : resolve userIds w <> []) by congruence.
    destruct (broadcast_judged env message isMedia messageId userIds w Hr)
      as (results & events & H & failures & He & Hf & Hn & Hm & Hi & Hp).
    cbn [errors failed success app] in He, Hf, Hn.
    exists results, events. split; [exact H|].
    split; [rewrite He, length_map; lia|].
    split; [discriminate|]. intros _.
    exists failures. split; [exact He|]. split; [exact Hm|].
    split; [now rewrite <- E|]. split; [reflexivity|].
    split; [exact Hp|].
    split; [rewrite Hf; now apply Permutation_length|].
    rewrite Hn, E. reflexivity.
Qed.

Lemma broadcast_diagnostics_witness :
  resolve All (Fixture.world None) = [] /\
  broadcastMessage (R := Fixture.flaky) All "hi" (Fixture.env None) false None
    (Fixture.world None) =
  (Val {| success := 0; failed := 1; errors := [Text.noRecipients] |},
   Fixture.world None) /\
  resolve (Ids ["3"; "4"]) (Fixture.world None) <> [] /\
  exists results events,
    broadcastMessage (R := Fixture.flaky) (Ids ["3"; "4"]) "hi"
      (Fixture.env None) false None (Fixture.world None) =
    (Val results, emits events (Fixture.world None)) /\
    List.length (errors results) = failed results /\
    exists failures,
      errors results = map diagnosed failures /\
      map fst failures = refused events /\
      Permutation failures
        (rejected (R := Fixture.flaky) (trace (Fixture.world None)) events) /\
      failed results =
      List.length
        (rejected (R := Fixture.flaky) (trace (Fixture.world None)) events).
Proof.
  split; [reflexivity|].
  split.
  - destruct (broadcast_diagnostics (R := Fixture.flaky) All "hi"
                (Fixture.env None) false None (Fixture.world None))
      as (results & events & H & _ & Hn & _).
    destruct (Hn eq_refl) as (-> & Hs & Hf & He).
    rewrite H, emits_nil. destruct results as [s f e].
    cbn [success failed errors is_all] in Hs, Hf, He. now subst.
  - assert (Hne : resolve (Ids ["3"; "4"]) (Fixture.world None) <> [])
      by discriminate.
    split; [exact Hne|].
    destruct (broadcast_diagnostics (R := Fixture.flaky) (Ids ["3"; "4"]) "hi"
                (Fixture.env None) false None (Fixture.world None))
      as (results & events & H & Hl & _ & Hf).
    destruct (Hf Hne) as (failures & He & Hm & _ & _ & Hp & Hc & _).
    exists results, events. split; [exact H|]. split; [exact Hl|].
    exists failures. split; [exact He|]. split; [exact Hm|].
    split; [exact Hp | exact Hc].
Defined.

(** The transport refuses the request to the recipient 3 and accepts the
    one to the recipient 4: one failure with the message of that error,
    one success. *)
Example broadcast_refused_once :
  fst (broadcastMessage (R := Fixture.flaky) (Ids ["3"; "4"]) "hi"
         (Fixture.env None) false None (Fixture.world None)) =
  Val {| success := 1; failed := 1;
         errors := [Text.diagnostic "3" "Telegram API error: 403 Forbidden"] |}.
Proof. vm_compute. reflexivity. Qed.

(** ** The end-user branch *)

(** An upsert never fails; it leaves the world alone when no store is
    bound and writes the store otherwise. *)
Lemma addUserToKV_total (chatId : Z) (userInfo : UserInfo.t) (w : World) :
  exists w1,
    addUserToKV chatId userInfo w = (Val tt, w1) /\
    (USER_STORAGE w = None -> w1 = w) /\
    (forall users, USER_STORAGE w = Some users ->
       exists users', w1 = emit (Put users') (store users' w)).
Proof.
  destruct (USER_STORAGE w) as [users|] eqn:E.
  - pose proof (addUserToKV_stores chatId userInfo w users E) as H.
    cbv zeta in H.
    eexists. split; [exact H|]. split; [discriminate|].
    intros ? _. eexists. reflexivity.
  - exists w. split; [now apply addUserToKV_unbound|].
    split; [reflexivity | discriminate].
Qed.

Lemma createUserInfo_val {R : Runtime} (message : Msg.t) (w : World) :
  exists userInfo,
    createUserInfo message w = (Val userInfo, w) /\
    UserInfo.chatId userInfo = Msg.chat_id message.
Proof. eexists. split; reflexivity. Qed.

(** C5, as amended. On the text [/start] from an end user the worker
    first upserts the record of the user when tracking is enabled, which
    writes the store when one is bound, then sends the welcome to the
    user and stops: the only other request it may send is the notice of
    failure, to the same user, when the welcome could not be sent.
    Nothing is sent to the administrator, and the store is left alone
    when tracking is disabled or no store is bound. *)
Theorem start_welcomes {R : Runtime} (message : Msg.t) (env : Env) (w : World) :
  Msg.text message = Some "/start" ->
  let user := Num (Msg.chat_id message) in
  exists userInfo w1 notice,
    createUserInfo message w = (Val userInfo, w) /\
    (if tracking env
     then addUserToKV (Msg.chat_id message) userInfo w
     else ret tt w) = (Val tt, w1) /\
    handleUserMessage message env w =
    (Val tt, emits (Fetch (SendMessage user Text.welcome None) :: notice) w1) /\
    (notice = [] \/
     notice = [Fetch (SendMessage user Text.notDelivered None)]) /\
    (tracking env = false \/ USER_STORAGE w = None -> w1 = w) /\
    (tracking env = true ->
     forall users, USER_STORAGE w = Some users ->
     exists users', w1 = emit (Put users') (store users' w)).
Proof.
  intros Htext user.
  destruct (createUserInfo_val message w) as (userInfo & Hinfo & Hchat).
  exists userInfo.
  unfold handleUserMessage. rewrite (bind_val _ _ _ _ _ Hinfo).
  rewrite Hchat, Htext. fold user.
  change (text_is (Some "/start") "/start") with true. cbv iota.
  assert (Hupsert : exists w1,
            (if tracking env
             then addUserToKV (Msg.chat_id message) userInfo w
             else ret tt w) = (Val tt, w1) /\
            (tracking env = false \/ USER_STORAGE w = None -> w1 = w) /\
            (tracking env = true ->
             forall users, USER_STORAGE w = Some users ->
             exists users', w1 = emit (Put users') (store users' w))).
  { destruct (tracking env).
    - destruct (addUserToKV_total (Msg.chat_id message) userInfo w)
        as (w1 & H & Hn & Hs).
      exists w1. split; [exact H|]. split; [|intros _; exact Hs].
      intros [Hf|Hu]; [discriminate | now apply Hn].
    - exists w. split; [reflexivity|]. split; [reflexivity | discriminate]. }
  destruct Hupsert as (w1 & Hw1 & Hoff & Hon).
  assert (Hw1' : (if tracking env
                  then addUserToKV (Msg.chat_id message) userInfo
                  else ret tt) w = (Val tt, w1))
    by (destruct (tracking env); exact Hw1).
  unfold try_catch at 1. rewrite (bind_val _ _ _ _ _ Hw1').
  unfold bind, sendMessage, callTelegramAPI.
  destruct (transport (trace w1) (SendMessage user Text.welcome None))
    as [body|failure] eqn:Et.
  - exists w1, []. split; [exact Hinfo|]. split; [exact Hw1|].
    split; [reflexivity|]. split; [now left|]. split; assumption.
  - exists w1, [Fetch (SendMessage user Text.notDelivered None)].
    split; [exact Hinfo|]. split; [exact Hw1|].
    split.
    + unfold try_catch, ret. rewrite !emit_emits.
      destruct (transport (trace (emits _ _)) _); rewrite emits_emits;
        reflexivity.
    + split; [now right|]. split; assumption.
Qed.

Lemma start_welcomes_witness :
  Msg.text Fixture.start = Some "/start" /\
  tracking (Fixture.env (Some "true")) = true /\
  USER_STORAGE (Fixture.world (Some [])) = Some [] /\
  exists users',
    handleUserMessage (R := Fixture.ideal) Fixture.start
      (Fixture.env (Some "true")) (Fixture.world (Some [])) =
    (Val tt,
     emits [Fetch (SendMessage (Num 42) Text.welcome None)]
       (emit (Put users') (store users' (Fixture.world (Some []))))).
Proof.
  do 3 (split; [reflexivity|]).
  destruct (start_welcomes (R := Fixture.ideal) Fixture.start
              (Fixture.env (Some "true")) (Fixture.world (Some [])) eq_refl)
    as (userInfo & w1 & notice & _ & _ & H & Hn & _ & Hon).
  destruct (Hon eq_refl [] eq_refl) as (users' & ->).
  exists users'. rewrite H. destruct Hn as [-> | ->]; [reflexivity|].
  exfalso. vm_compute in H. discriminate H.
Defined.

(** C5, as stated, fails: with tracking enabled and a store bound, the
    text [/start] of a user who is not in the directory changes the
    store. *)
Lemma start_upserts :
  ~ (forall (R : Runtime) message env w,
       Msg.text message = Some "/start" ->
       USER_STORAGE (snd (handleUserMessage message env w)) = USER_STORAGE w).
Proof.
  intros H.
  specialize (H Fixture.ideal Fixture.start (Fixture.env (Some "true"))
                (Fixture.world (Some [])) eq_refl).
  vm_compute in H. discriminate H.
Qed.

(** ** The administrator branch *)

Section TextOnly.

Context {R : Runtime}.

Lemma text_only_ret {A : Type} (a : A) : text_only (ret a).
Proof.
  intros w. exists (Val a), []. rewrite emits_nil.
  split; [reflexivity | constructor].
Qed.

Lemma text_only_bind {A B : Type} (m : M A) (k : A -> M B) :
  text_only m -> (forall a, text_only (k a)) -> text_only (bind m k).
Proof.
  intros Hm Hk w. destruct (Hm w) as (r & e1 & H1 & F1).
  unfold bind. rewrite H1. destruct r as [a|e|].
  - destruct (Hk a (emits e1 w)) as (r2 & e2 & H2 & F2).
    exists r2, (e1 ++ e2)%list. rewrite H2, emits_emits.
    split; [reflexivity|]. rewrite requests_app. now apply Forall_app.
  - now exists (Exn e), e1.
  - now exists OutOfFuel, e1.
Qed.

Lemma text_only_try {A : Type} (m : M A) (handler : string -> M A) :
  text_only m -> (forall e, text_only (handler e)) ->
  text_only (try_catch m handler).
Proof.
  intros Hm Hh w. destruct (Hm w) as (r & e1 & H1 & F1).
  unfold try_catch. rewrite H1. destruct r as [a|e|].
  - now exists (Val a), e1.
  - destruct (Hh e (emits e1 w)) as (r2 & e2 & H2 & F2).
    exists r2, (e1 ++ e2)%list. rewrite H2, emits_emits.
    split; [reflexivity|]. rewrite requests_app. now apply Forall_app.
  - now exists OutOfFuel, e1.
Qed.

Lemma text_only_send (chat : ChatId) (text : string) (reply : option Z) :
  text_only (sendMessage chat text reply).
Proof.
  intros w. unfold sendMessage, callTelegramAPI.
  destruct (transport _ _) as [body|failure]; eexists; eexists;
    (split; [rewrite emit_emits; reflexivity|]);
    repeat constructor.
Qed.

Lemma text_only_users : text_only getUsersFromKV.
Proof.
  intros w. unfold getUsersFromKV.
  destruct (USER_STORAGE w); eexists; exists [];
    (split; [rewrite emits_nil; reflexivity | constructor]).
Qed.

Lemma text_only_date : text_only date.
Proof.
  intros w. exists (Val (now w)), []. rewrite emits_nil.
  split; [reflexivity | constructor].
Qed.

Lemma text_only_count (userIds : UserIds) : text_only (targetCount userIds).
Proof.
  destruct userIds; cbn [targetCount].
  - apply text_only_bind; [apply text_only_users | intros; apply text_only_ret].
  - apply text_only_ret.
Qed.

(** A broadcast of a text copies nothing. *)
Lemma text_only_broadcast (userIds : UserIds) (message : string) (env : Env)
  (messageId : option Z) :
  text_only (broadcastMessage userIds message env false messageId).
Proof.
  intros w. destruct (resolve userIds w) as [|c targets] eqn:E.
  - eexists; exists []. rewrite emits_nil.
    split; [now apply broadcast_nobody | constructor].
  - assert (Hr : resolve userIds w <> []) by congruence.
    destruct (broadcast_spec message env false messageId userIds w Hr)
      as (results & events & H & (Hq & _) & _).
    exists (Val results), events. split; [exact H|].
    rewrite Hq. apply Forall_forall. intros call Hc.
    apply in_map_iff in Hc as (chat & <- & _). reflexivity.
Qed.

Lemma text_only_reply (chat : ChatId) (text : string) (reply : option Z) :
  text_only (bind (sendMessage chat text reply) (fun _ => ret tt)).
Proof.
  apply text_only_bind; [apply text_only_send | intros; apply text_only_ret].
Qed.

Lemma text_only_post (message : Msg.t) (env : Env) :
  text_only (postCommand message env).
Proof.
  unfold postCommand.
  destruct (Str.trim _) as [|c commandText]; [apply text_only_reply|].
  destruct (parsePostTargets _) as [userIds postMessage].
  destruct postMessage as [|c' postMessage]; [apply text_only_reply|].
  destruct (is_all userIds && negb (tracking env)); [apply text_only_reply|].
  destruct (is_empty_array userIds); [apply text_only_reply|].
  apply text_only_bind; [apply text_only_count | intros n].
  apply text_only_bind; [apply text_only_send | intros _].
  apply text_only_bind; [apply text_only_broadcast | intros results].
  apply text_only_reply.
Qed.

End TextOnly.

(** A text that starts with the command word is none of the three
    informational commands. *)
Lemma post_is_no_other (text : option string) :
  text_starts text "/post" = true ->
  text_is text "/start" = false /\
  text_is text "/status" = false /\
  text_is text "/help" = false.
Proof.
  destruct text as [t|]; [|discriminate]. cbn [text_starts text_is].
  unfold Str.startsWith.
  destruct (Str.strip "/post" t) as [r|] eqn:E; [|discriminate].
  apply StrFacts.strip_inv in E as ->. now repeat split.
Qed.

(** C1 fails on the code: an administrator message whose text starts with
    the command word is handled by the branch of the text broadcast,
    which comes first, whether or not it replies to a message and
    whatever that message is; the worker then sends texts only and never
    a copy of the message replied to. *)
Theorem post_reply_is_text_broadcast {R : Runtime} (message : Msg.t)
  (env : Env) (w : World) :
  text_starts (Msg.text message) "/post" = true ->
  (forall replied,
     handleAdminMessage message env w =
     handleAdminMessage (with_reply message replied) env w) /\
  exists r events,
    handleAdminMessage message env w = (r, emits events w) /\
    Forall (fun c => is_copy c = false) (requests events).
Proof.
  intros Hpost.
  destruct (post_is_no_other _ Hpost) as (H1 & H2 & H3).
  assert (Hcmd : forall m,
            Msg.text m = Msg.text message ->
            handleAdminMessage m env =
            try_catch (postCommand m env)
              (fun error =>
                 try_catch
                   (bind (sendMessage (Txt (ADMIN_CHAT_ID env))
                            (Text.processingError error) None)
                         (fun _ => ret tt))
                   (fun sendError => ret tt))).
  { intros m Hm. unfold handleAdminMessage.
    rewrite Hm, H1, H2, H3, Hpost. reflexivity. }
  split.
  - intros replied.
    rewrite (Hcmd message eq_refl), (Hcmd (with_reply message replied) eq_refl).
    reflexivity.
  - rewrite (Hcmd message eq_refl).
    apply text_only_try; [apply text_only_post|].
    intros e. apply text_only_try; [apply text_only_reply|].
    intros; apply text_only_ret.
Qed.

Lemma post_reply_is_text_broadcast_witness :
  text_starts (Msg.text Fixture.postReply) "/post" = true /\
  handleAdminMessage (R := Fixture.ideal) Fixture.postReply
    (Fixture.env None) (Fixture.world None) =
  handleAdminMessage (R := Fixture.ideal)
    (with_reply Fixture.postReply None)
    (Fixture.env None) (Fixture.world None).
Proof.
  split; [reflexivity|].
  exact (proj1 (post_reply_is_text_broadcast (R := Fixture.ideal)
                  Fixture.postReply (Fixture.env None) (Fixture.world None)
                  eq_refl) None).
Defined.

(** The requests of the worker when the administrator replies to a photo
    with [/post 123 hello]: the text goes to 123, the photo does not. *)
Example post_reply_requests :
  requests (trace (snd (handleMessage (R := Fixture.ideal) Fixture.postReply
                          (Fixture.env None) (Fixture.world None)))) =
  [SendMessage (Txt "1000") (Text.starting 1) (Some 71%Z);
   SendMessage (Txt "123") (Text.broadcast "hello") None;
   SendMessage (Txt "1000")
     (report {| success := 1; failed := 0; errors := [] |}) None].
Proof. vm_compute. reflexivity. Qed.

(** What the branch of the media broadcast would send for the same
    message, were it reached. *)
Example media_branch_requests :
  requests (trace (snd (mediaBroadcast (R := Fixture.ideal) Fixture.postReply
                          Fixture.photo (Fixture.env None)
                          (Fixture.world None)))) =
  [SendMessage (Txt "1000") (Text.startingMedia 1) (Some 71%Z);
   CopyMessage (Txt "123") (Txt "1000") (Some 70%Z)
     (Some (Text.broadcast "hello"));
   SendMessage (Txt "1000") (Text.mediaReport 1 0) None].
Proof. vm_compute. reflexivity. Qed.

(** Twenty-three targets: three batches, a pause after the first and
    after the second. *)
Example broadcast_23 :
  let w := snd (broadcastMessage (R := Fixture.flaky)
                  (Ids (Fixture.ids 1 23)) "hi" (Fixture.env None)
                  false None (Fixture.world None)) in
  map (fun e => match e with
                | Fetch _ => "request"
                | Settled _ _ => "settled"
                | AllSettled => "batch settled"
                | Delay _ => "pause"
                | Put _ => "put"
                end) (trace w) =
  (repeat "request" 10 ++ repeat "settled" 10 ++ ["batch settled"; "pause"] ++
   repeat "request" 10 ++ repeat "settled" 10 ++ ["batch settled"; "pause"] ++
   repeat "request" 3 ++ repeat "settled" 3 ++ ["batch settled"])%list.
Proof. vm_compute. reflexivity. Qed.

(** * Further properties *)

(** ** Of the identity tags *)

Lemma search_found {A : Type} (at_pos : string -> option A) (s : string)
  (m : A) :
  search at_pos s = Some m -> exists t, at_pos t = Some m.
Proof.
  induction s as [|c s IH]; cbn [search].
  - destruct (at_pos "") eqn:E; [|discriminate].
    intros H; inversion H; subst. now exists "".
  - destruct (at_pos (String c s)) eqn:E.
    + intros H; inversion H; subst. now exists (String c s).
    + exact IH.
Qed.

Lemma search_cons {A : Type} (at_pos : string -> option A) (c : ascii)
  (s : string) :
  search at_pos (String c s) =
  match at_pos (String c s) with
  | Some r => Some r
  | None => search at_pos s
  end.
Proof. reflexivity. Qed.

Lemma span_digits (s : string) :
  fst (Str.span Str.is_digit s) <> "" ->
  Str.is_digits (fst (Str.span Str.is_digit s)) = true.
Proof.
  intros H. pose proof (StrFacts.span_fst_all Str.is_digit s) as Ha.
  destruct (fst (Str.span Str.is_digit s)); [congruence | exact Ha].
Qed.

Lemma secure_at_digits (s userId signature : string) :
  secure_at s = Some (userId, signature) -> Str.is_digits userId = true.
Proof.
  unfold secure_at.
  destruct (Str.strip "[USER:" s) as [r|]; [|discriminate].
  pose proof (span_digits r) as H.
  destruct (Str.span Str.is_digit r) as [d r1]. cbn [fst] in H.
  destruct d as [|c d]; [discriminate|].
  destruct (Str.strip ":" r1) as [r2|]; [|discriminate].
  destruct (Str.take 16 r2) as [[h r3]|]; [|discriminate].
  destruct (Str.all Str.is_hex h && Str.startsWith r3 "]"); [|discriminate].
  intros E; inversion E; subst. apply H. discriminate.
Qed.

Lemma legacy_at_digits (s userId : string) :
  legacy_at s = Some userId -> Str.is_digits userId = true.
Proof.
  unfold legacy_at.
  destruct (Str.strip "[USER:" s) as [r|]; [|discriminate].
  pose proof (span_digits r) as H.
  destruct (Str.span Str.is_digit r) as [d r1]. cbn [fst] in H.
  destruct d as [|c d]; [discriminate|].
  destruct (Str.strip "]" r1) as [[|x r2]|]; [| |discriminate].
  - intros E; inversion E; subst. apply H. discriminate.
  - destruct (Ascii.eqb x ":" || Str.is_word x); [discriminate|].
    intros E; inversion E; subst. apply H. discriminate.
Qed.

(** What the extraction returns is a string of one or more digits, and a
    text that is missing or empty gives null. *)
Theorem extract_digits (messageText : option string) (secret : option string) :
  (forall userId,
     extractUserChatId messageText secret = Some userId ->
     Str.is_digits userId = true) /\
  (truthy messageText = false ->
   extractUserChatId messageText secret = None).
Proof.
  split.
  - intros userId. unfold extractUserChatId.
    destruct messageText as [[|c text]|]; try discriminate.
    destruct (search secure_at (String c text)) as [[u g]|] eqn:Es.
    + apply search_found in Es as (t & Et).
      apply secure_at_digits in Et.
      destruct (verifyUserIdSignature u g secret); [|discriminate].
      intros E; inversion E; subst. exact Et.
    + destruct (search legacy_at (String c text)) as [u|] eqn:El;
        [|discriminate].
      apply search_found in El as (t & Et). apply legacy_at_digits in Et.
      intros E; inversion E; subst. exact Et.
  - now destruct messageText as [[|c text]|].
Qed.

Lemma extract_digits_witness :
  extractUserChatId (Some "[USER:42] x") None = Some "42" /\
  Str.is_digits "42" = true /\
  truthy (Some "") = false /\
  extractUserChatId (Some "") None = None.
Proof.
  split; [reflexivity|].
  split; [exact (proj1 (extract_digits (Some "[USER:42] x") None) "42" eq_refl)|].
  split; [reflexivity|].
  exact (proj2 (extract_digits (Some "") None) eq_refl).
Defined.

(** Neither pattern matches in a string without the opening of a tag. *)
Lemma no_opening (s : string) :
  Str.includes s "[USER:" = false -> unsigned s /\ no_legacy s.
Proof.
  unfold unsigned, no_legacy.
  induction s as [|c s IH]; [now split|].
  cbn [Str.includes]. intros H. apply orb_false_iff in H as [H1 H2].
  unfold Str.startsWith in H1.
  destruct (Str.strip "[USER:" (String c s)) eqn:E; [discriminate|].
  destruct (IH H2) as [Hs Hl].
  cbn [search]. unfold secure_at at 1. unfold legacy_at at 1. rewrite E.
  now split.
Qed.

(** A text or caption in which the opening of a tag, [[USER:], does not
    occur gives null, whatever the secret: when the dispatcher finds no
    tag in a message, the extraction finds no recipient in it. *)
Theorem extract_needs_opening (messageText : option string)
  (secret : option string) :
  opt_includes messageText "[USER:" = false ->
  extractUserChatId messageText secret = None.
Proof.
  intros H. destruct messageText as [text|]; [|reflexivity].
  cbn [opt_includes] in H. apply no_opening in H as [Hs Hl].
  rewrite extract_unsigned by exact Hs. exact Hl.
Qed.

Lemma extract_needs_opening_witness :
  opt_includes (Some "USER:42 [user:42]") "[USER:" = false /\
  extractUserChatId (Some "USER:42 [user:42]") (Some "k") = None.
Proof.
  split; [reflexivity|].
  exact (extract_needs_opening (Some "USER:42 [user:42]") (Some "k") eq_refl).
Defined.

(** ** Of the rendering of identifiers *)

Lemma uint_digits (u : Decimal.uint) :
  Str.all Str.is_digit (NilEmpty.string_of_uint u) = true.
Proof. induction u; simpl; auto. Qed.



Lemma all_weaken (p q : ascii -> bool) (s : string) :
  (forall c, p c = true -> q c = true) ->
  Str.all p s = true -> Str.all q s = true.
Proof.
  intros Hpq. induction s as [|c s IH]; [reflexivity|]. cbn [Str.all].
  intros H. apply andb_true_iff in H as [Hc Hs].
  now rewrite (Hpq c Hc), (IH Hs).
Qed.

Lemma no_bracket_no_match (s : string) :
  Str.all (fun c => negb (Ascii.eqb c "[")) s = true ->
  unsigned s /\ no_legacy s.
Proof.
  intros H. apply no_opening.
  induction s as [|c s IH]; [reflexivity|].
  cbn [Str.all] in H. apply andb_true_iff in H as [Hc Hs].
  cbn [Str.includes]. rewrite (IH Hs), orb_false_r.
  unfold Str.startsWith. cbn [Str.strip].
  apply negb_true_iff in Hc. rewrite Ascii.eqb_sym, Hc. reflexivity.
Qed.

Lemma digit_no_bracket (c : ascii) :
  Str.is_digit c = true -> negb (Ascii.eqb c "[") = true.
Proof.
  intros H. destruct (Ascii.eqb_spec c "[") as [->|]; [discriminate | reflexivity].
Qed.

Lemma hex_no_bracket (c : ascii) :
  Str.is_hex c = true -> negb (Ascii.eqb c "[") = true.
Proof.
  intros H. destruct (Ascii.eqb_spec c "[") as [->|]; [discriminate | reflexivity].
Qed.

(** The tag of a negative identifier, the identifier of a group, is never
    read back: the sign is no digit, so that neither pattern matches in
    the tag and the administrator cannot reply to such a chat. *)
Theorem negative_tag_is_lost (chatId : Z) (secret : option string) :
  (chatId < 0)%Z ->
  extractUserChatId (Some (createSecureUserTag (Str.of_Z chatId) secret))
                    secret = None.
Proof.
  intros H. destruct chatId as [|p|p]; try lia.
  unfold createSecureUserTag, Str.of_Z.
  cbn [Z.to_int NilEmpty.string_of_int].
  set (digits := NilEmpty.string_of_uint (Pos.to_uint p)).
  set (signature := generateUserIdSignature _ secret).
  assert (Hrest : Str.all (fun c => negb (Ascii.eqb c "["))
                    ("USER:" ++ String "-" digits ++ ":" ++ signature ++ "]")
                  = true).
  { rewrite !StrFacts.all_app. cbn [Str.all].
    rewrite (all_weaken _ _ digits digit_no_bracket (uint_digits _)).
    rewrite (all_weaken _ _ signature hex_no_bracket
               (proj2 (signature_hex16 _ secret))).
    reflexivity. }
  apply no_bracket_no_match in Hrest as [Hs Hl].
  set (rest := "USER:" ++ String "-" digits ++ ":" ++ signature ++ "]") in *.
  change ("[USER:" ++ String "-" digits ++ ":" ++ signature ++ "]")
    with (String "["%char rest).
  assert (Hstrip : Str.strip "[USER:" (String "["%char rest) =
                   Some (String "-" digits ++ ":" ++ signature ++ "]"))
    by (rewrite strip_bracket; apply StrFacts.strip_app).
  assert (Hu : unsigned (String "["%char rest)).
  { unfold unsigned. rewrite search_cons, Hs.
    unfold secure_at. rewrite Hstrip. reflexivity. }
  rewrite extract_unsigned by exact Hu.
  rewrite search_cons, Hl. unfold legacy_at. rewrite Hstrip. reflexivity.
Qed.

Lemma negative_tag_is_lost_witness :
  (-1001234 < 0)%Z /\
  extractUserChatId
    (Some (createSecureUserTag (Str.of_Z (-1001234)) (Some "secret")))
    (Some "secret") = None.
Proof.
  split; [reflexivity|].
  exact (negative_tag_is_lost (-1001234) (Some "secret") eq_refl).
Defined.




(** ** Of what the handlers send *)

Section Sends.

Context {R : Runtime}.
Variable P : Call -> Prop.

Lemma sends_ret {A : Type} (a : A) : sends P (ret a).
Proof.
  intros w. exists (Val a), []. rewrite emits_nil.
  split; [reflexivity|]. split; [constructor|]. split; [reflexivity|].
  discriminate.
Qed.

Lemma calm_ret {A : Type} (a : A) : calm P (ret a).
Proof.
  intros w. exists a, []. rewrite emits_nil.
  split; [reflexivity|]. split; [constructor | reflexivity].
Qed.

Lemma calm_sends {A : Type} (m : M A) : calm P m -> sends P m.
Proof.
  intros H w. destruct (H w) as (a & events & E & F & Hp).
  exists (Val a), events. repeat split; try assumption. discriminate.
Qed.

Lemma sends_bind {A B : Type} (m : M A) (k : A -> M B) :
  sends P m -> (forall a, sends P (k a)) -> sends P (bind m k).
Proof.
  intros Hm Hk w. destruct (Hm w) as (r & e1 & H1 & F1 & P1 & N1).
  unfold bind. rewrite H1. destruct r as [a|e|]; [| |congruence].
  - destruct (Hk a (emits e1 w)) as (r2 & e2 & H2 & F2 & P2 & N2).
    exists r2, (e1 ++ e2)%list. rewrite H2, emits_emits.
    split; [reflexivity|].
    split; [rewrite requests_app; now apply Forall_app|].
    split; [rewrite puts_app, P1, P2; reflexivity | exact N2].
  - exists (Exn e), e1. repeat split; try assumption. discriminate.
Qed.

Lemma calm_bind {A B : Type} (m : M A) (k : A -> M B) :
  calm P m -> (forall a, calm P (k a)) -> calm P (bind m k).
Proof.
  intros Hm Hk w. destruct (Hm w) as (a & e1 & H1 & F1 & P1).
  unfold bind. rewrite H1.
  destruct (Hk a (emits e1 w)) as (b & e2 & H2 & F2 & P2).
  exists b, (e1 ++ e2)%list. rewrite H2, emits_emits.
  split; [reflexivity|].
  split; [rewrite requests_app; now apply Forall_app|].
  rewrite puts_app, P1, P2; reflexivity.
Qed.

(** A handler that ends with a value makes the whole end with a value. *)
Lemma calm_try {A : Type} (m : M A) (handler : string -> M A) :
  sends P m -> (forall e, calm P (handler e)) -> calm P (try_catch m handler).
Proof.
  intros Hm Hh w. destruct (Hm w) as (r & e1 & H1 & F1 & P1 & N1).
  unfold try_catch. rewrite H1. destruct r as [a|e|]; [| |congruence].
  - now exists a, e1.
  - destruct (Hh e (emits e1 w)) as (b & e2 & H2 & F2 & P2).
    exists b, (e1 ++ e2)%list. rewrite H2, emits_emits.
    split; [reflexivity|].
    split; [rewrite requests_app; now apply Forall_app|].
    rewrite puts_app, P1, P2; reflexivity.
Qed.

Lemma sends_call (c : Call) : P c -> sends P (callTelegramAPI c).
Proof.
  intros Hc w. unfold callTelegramAPI.
  destruct (transport _ _) as [body|failure]; eexists; exists [Fetch c];
    (split; [reflexivity|]); (split; [now repeat constructor|]);
    (split; [reflexivity | discriminate]).
Qed.

Lemma sends_users : sends P getUsersFromKV.
Proof.
  intros w. unfold getUsersFromKV.
  destruct (USER_STORAGE w); eexists; exists []; rewrite emits_nil;
    (split; [reflexivity|]); (split; [constructor|]);
    (split; [reflexivity | discriminate]).
Qed.

Lemma sends_date : sends P date.
Proof.
  intros w. exists (Val (now w)), []. rewrite emits_nil.
  split; [reflexivity|]. split; [constructor|]. split; [reflexivity|].
  discriminate.
Qed.

Lemma sends_count (userIds : UserIds) : sends P (targetCount userIds).
Proof.
  destruct userIds; cbn [targetCount].
  - apply sends_bind; [apply sends_users | intros; apply sends_ret].
  - apply sends_ret.
Qed.

(** A request, then nothing more. *)
Lemma sends_once (c : Call) :
  P c -> sends P (bind (callTelegramAPI c) (fun _ => ret tt)).
Proof.
  intros Hc. apply sends_bind; [now apply sends_call | intros; apply sends_ret].
Qed.

(** A request whose failure is dropped. *)
Lemma calm_attempt (c : Call) :
  P c ->
  calm P (try_catch (bind (callTelegramAPI c) (fun _ => ret tt))
                    (fun _ => ret tt)).
Proof.
  intros Hc. apply calm_try; [now apply sends_once | intros; apply calm_ret].
Qed.

(** A broadcast sends the deliveries of its targets and ends with counts. *)
Lemma calm_broadcast (userIds : UserIds) (message : string) (env : Env)
  (isMedia : bool) (messageId : option Z) :
  (forall chat, P (delivery env message isMedia messageId chat)) ->
  calm P (broadcastMessage userIds message env isMedia messageId).
Proof.
  intros Hd w. destruct (resolve userIds w) as [|c targets] eqn:E.
  - eexists; exists []. rewrite emits_nil.
    split; [now apply broadcast_nobody|]. split; [constructor | reflexivity].
  - assert (Hr : resolve userIds w <> []) by congruence.
    destruct (broadcast_spec message env isMedia messageId userIds w Hr)
      as (results & events & H & (Hq & Hp & _) & _).
    exists results, events. split; [exact H|]. split; [|exact Hp].
    rewrite Hq. apply Forall_forall. intros call Hc.
    apply in_map_iff in Hc as (chat & <- & _). apply Hd.
Qed.

End Sends.

Lemma sends_weaken {A : Type} (P Q : Call -> Prop) (m : M A) :
  (forall c, P c -> Q c) -> sends P m -> sends Q m.
Proof.
  intros HPQ H w. destruct (H w) as (r & events & E & F & Hp & N).
  exists r, events. repeat split; try assumption.
  eapply Forall_impl; [exact HPQ | exact F].
Qed.

Section Admin.

Context {R : Runtime}.

Lemma sends_post (message : Msg.t) (env : Env) :
  sends anything (postCommand message env).
Proof.
  unfold postCommand, sendMessage.
  destruct (Str.trim _) as [|c commandText]; [now apply sends_once|].
  destruct (parsePostTargets _) as [userIds postMessage].
  destruct postMessage as [|c' postMessage]; [now apply sends_once|].
  destruct (is_all userIds && negb (tracking env)); [now apply sends_once|].
  destruct (is_empty_array userIds); [now apply sends_once|].
  apply sends_bind; [apply sends_count | intros n].
  apply sends_bind; [now apply sends_call | intros _].
  apply sends_bind; [apply calm_sends, calm_broadcast; now intros | intros r].
  now apply sends_once.
Qed.

Lemma sends_users_command (env : Env) : sends anything (usersCommand env).
Proof.
  unfold usersCommand, sendMessage.
  destruct (negb (tracking env)); [now apply sends_once|].
  apply sends_bind; [apply sends_users | intros users].
  destruct (List.length users =? 0)%nat; now apply sends_once.
Qed.

Lemma sends_routed (message : Msg.t) (replied : Replied.t) (env : Env) :
  sends anything (routedReply message replied env).
Proof.
  unfold routedReply, sendMessage, copyMessage.
  destruct (extractUserChatId _ _) as [userChatId|]; [|now apply sends_once].
  apply sends_bind.
  - destruct (Msg.text message) as [[|c t]|]; now apply sends_call.
  - intros replyResult. destruct (ok replyResult); now apply sends_once.
Qed.

Lemma handleAdminMessage_calm (message : Msg.t) (env : Env) :
  calm anything (handleAdminMessage message env).
Proof.
  unfold handleAdminMessage, sendMessage.
  apply calm_try; [|intros e; now apply calm_attempt].
  destruct (text_is _ "/start"); [now apply sends_once|].
  destruct (text_is _ "/status").
  { apply sends_bind.
    - destruct (tracking env); [|apply sends_ret].
      apply sends_bind; [apply sends_users | intros; apply sends_ret].
    - intros userCount. apply sends_bind; [apply sends_date | intros d].
      now apply sends_once. }
  destruct (text_is _ "/help"); [now apply sends_once|].
  destruct (text_starts _ "/post"); [apply sends_post|].
  destruct (text_is _ "/users"); [apply sends_users_command|].
  destruct (Msg.reply_to_message message) as [replied|];
    [|now apply sends_once].
  cbn [andb]. apply sends_routed.
Qed.

(** The branch of the administrator never writes the store, lets no
    exception out and does not run out of fuel: it ends with a value
    whatever the message, the configuration, the store and the answers
    of the transport. *)
Theorem admin_branch_is_calm (message : Msg.t) (env : Env) (w : World) :
  exists events,
    handleAdminMessage message env w = (Val tt, emits events w) /\
    puts events = [].
Proof.
  destruct (handleAdminMessage_calm message env w)
    as ([] & events & E & _ & Hp).
  now exists events.
Qed.

End Admin.

Lemma try_bind_val {A B : Type} (m : M A) (k : A -> M B)
  (handler : string -> M B) (w w1 : World) (a : A) :
  m w = (Val a, w1) ->
  try_catch (bind m k) handler w = try_catch (k a) handler w1.
Proof. intros H. unfold try_catch, bind. now rewrite H. Qed.

(** What is left of the branch of the end user after the upsert. *)
Lemma user_branch_after_upsert {R : Runtime} (message : Msg.t) (env : Env)
  (w : World) :
  exists userInfo w1,
    UserInfo.chatId userInfo = Msg.chat_id message /\
    (if tracking env
     then addUserToKV (Msg.chat_id message) userInfo
     else ret tt) w = (Val tt, w1) /\
    exists events,
      handleUserMessage message env w = (Val tt, emits events w1) /\
      Forall (between env (Msg.chat_id message)) (requests events) /\
      puts events = [].
Proof.
  destruct (createUserInfo_val message w) as (userInfo & Hinfo & Hchat).
  assert (Hup : exists w1,
            (if tracking env
             then addUserToKV (Msg.chat_id message) userInfo
             else ret tt) w = (Val tt, w1)).
  { destruct (tracking env); [|now exists w].
    destruct (addUserToKV_total (Msg.chat_id message) userInfo w)
      as (w1 & H & _). now exists w1. }
  destruct Hup as (w1 & Hw1).
  exists userInfo, w1. split; [exact Hchat|]. split; [exact Hw1|].
  unfold handleUserMessage. rewrite (bind_val _ _ _ _ _ Hinfo), Hchat.
  rewrite (try_bind_val _ _ _ _ _ _ Hw1).
  assert (Hc : calm (between env (Msg.chat_id message))
    (try_catch
      (if text_is (Msg.text message) "/start"
       then bind (sendMessage (Num (Msg.chat_id message)) Text.welcome None)
                 (fun _ => ret tt)
       else
         bind
           match Msg.text message with
           | Some (String _ _ as text) =>
               sendMessage (Txt (ADMIN_CHAT_ID env))
                 (Text.forwardText (UserInfo.header userInfo) text
                    (createSecureUserTag (Str.of_Z (Msg.chat_id message))
                       (USER_ID_SECRET env))) None
           | _ =>
               copyMessage (Txt (ADMIN_CHAT_ID env))
                 (Num (Msg.chat_id message)) (Some (Msg.message_id message))
                 (Some (Text.forwardCaption (UserInfo.header userInfo)
                          (Msg.caption message)
                          (createSecureUserTag
                             (Str.of_Z (Msg.chat_id message))
                             (USER_ID_SECRET env))))
           end
           (fun forwardResult =>
              if ok forwardResult
              then bind (sendMessage (Num (Msg.chat_id message))
                           Text.delivered None) (fun _ => ret tt)
              else ret tt))
      (fun error =>
         try_catch
           (bind (sendMessage (Num (Msg.chat_id message))
                    Text.notDelivered None) (fun _ => ret tt))
           (fun sendError => ret tt)))).
  { unfold sendMessage, copyMessage.
    apply calm_try; [|intros e; apply calm_attempt; now right].
    destruct (text_is _ _); [apply sends_once; now right|].
    apply sends_bind.
    - destruct (Msg.text message) as [[|c t]|]; apply sends_call; now left.
    - intros r. destruct (ok r); [apply sends_once; now right | apply sends_ret]. }
  destruct (Hc w1) as ([] & events & E & F & Hp).
  exists events. split; [exact E|]. split; assumption.
Qed.

(** The branch of the end user lets no exception out and sends only to
    the administrator and to the chat the message came from; it writes
    the store only by the upsert, before anything is sent, and not at all
    when tracking is disabled or no store is bound. *)
Theorem user_branch_stays_between {R : Runtime} (message : Msg.t) (env : Env)
  (w : World) :
  exists w1 events,
    handleUserMessage message env w = (Val tt, emits events w1) /\
    Forall (between env (Msg.chat_id message)) (requests events) /\
    puts events = [] /\
    (tracking env = false \/ USER_STORAGE w = None -> w1 = w) /\
    (w1 = w \/ exists users', w1 = emit (Put users') (store users' w)).
Proof.
  destruct (user_branch_after_upsert message env w)
    as (userInfo & w1 & _ & Hw1 & events & E & F & Hp).
  exists w1, events. split; [exact E|]. split; [exact F|]. split; [exact Hp|].
  destruct (tracking env).
  - destruct (addUserToKV_total (Msg.chat_id message) userInfo w)
      as (w2 & H & Hn & Hs).
    rewrite Hw1 in H. inversion H; subst w2.
    split.
    + intros [Hf|Hu]; [discriminate | now apply Hn].
    + destruct (USER_STORAGE w) as [users|] eqn:Eu.
      * right. now apply (Hs users).
      * left. now apply Hn.
  - inversion Hw1; subst. split; [reflexivity | now left].
Qed.

Lemma user_branch_stays_between_witness :
  tracking (Fixture.env None) = false /\
  exists events,
    handleUserMessage (R := Fixture.flaky) Fixture.start (Fixture.env None)
      (Fixture.world (Some [])) =
    (Val tt, emits events (Fixture.world (Some []))) /\
    Forall (between (Fixture.env None) 42) (requests events).
Proof.
  split; [reflexivity|].
  destruct (user_branch_stays_between (R := Fixture.flaky) Fixture.start
              (Fixture.env None) (Fixture.world (Some [])))
    as (w1 & events & E & F & _ & Hoff & _).
  rewrite (Hoff (or_introl eq_refl)) in E.
  exists events. split; [exact E | exact F].
Defined.

(** ** Of the directory over many messages *)

(** An upsert keeps a directory within the cap and without a duplicate. *)
Lemma upsert_keeps_ok (chatId : Z) (userInfo : UserInfo.t) (w w1 : World) :
  store_ok w ->
  addUserToKV chatId userInfo w = (Val tt, w1) ->
  store_ok w1 /\ (USER_STORAGE w = None -> USER_STORAGE w1 = None).
Proof.
  unfold store_ok. destruct (USER_STORAGE w) as [users|] eqn:E.
  - intros [Hn Hl] H.
    pose proof (addUserToKV_stores chatId userInfo w users E) as Hst.
    cbv zeta in Hst.
    set (x := record chatId userInfo (now w)) in Hst.
    set (users1 := match findIndex chatId users with
                   | Some i => assign i x users
                   | None => (users ++ [x])%list
                   end) in Hst.
    set (users2 := if (1000 <? List.length users1)%nat
                   then firstn 1000 (sort users1) else users1) in Hst.
    assert (Hn1 : NoDup (map User.chatId users1)).
    { unfold users1. destruct (findIndex chatId users) as [i|] eqn:Ei.
      - now rewrite (proj1 (Directory.assign_ids x users i Ei)).
      - apply Directory.findIndex_none in Ei.
        rewrite map_app. cbn [map].
        eapply Permutation_NoDup; [apply Permutation_cons_append|].
        now constructor. }
    assert (Hok : directory_ok users2).
    { unfold users2. destruct (1000 <? _)%nat eqn:Ec.
      - split; [|apply firstn_le_length].
        rewrite <- firstn_map. apply Directory.nodup_firstn.
        eapply Permutation_NoDup; [|exact Hn1].
        apply Permutation_map, Permutation_sym, Directory.sort_perm.
      - split; [exact Hn1 | now apply Nat.ltb_ge in Ec]. }
    rewrite Hst in H. inversion H; subst w1. cbn [USER_STORAGE emit store].
    split; [exact Hok | discriminate].
  - intros _ H. rewrite addUserToKV_unbound in H by exact E.
    inversion H; subst w1. rewrite E. now split.
Qed.

Lemma handleMessage_keeps_ok {R : Runtime} (message : Msg.t) (env : Env)
  (w : World) :
  store_ok w ->
  fst (handleMessage message env w) = Val tt /\
  store_ok (snd (handleMessage message env w)) /\
  (USER_STORAGE w = None ->
   USER_STORAGE (snd (handleMessage message env w)) = None).
Proof.
  intros Hok. unfold handleMessage.
  destruct (String.eqb _ _).
  - destruct (handleAdminMessage_calm message env w)
      as ([] & events & E & _).
    rewrite E. now repeat split.
  - destruct (user_branch_after_upsert message env w)
      as (userInfo & w1 & _ & Hw1 & events & E & _).
    rewrite E. cbn [fst snd]. split; [reflexivity|].
    change (store_ok (emits events w1)) with (store_ok w1).
    change (USER_STORAGE (emits events w1)) with (USER_STORAGE w1).
    destruct (tracking env).
    + now apply (upsert_keeps_ok _ _ _ _ Hok Hw1).
    + inversion Hw1; subst. now split.
Qed.

(** Whatever messages the worker handles, from administrators and from
    users, in whatever order and with whatever answers of the transport,
    a directory that holds at most 1000 records and no identifier twice
    stays so, and a store that is not bound stays unbound. *)
Theorem directory_invariant {R : Runtime} (messages : list Msg.t) (env : Env)
  (w : World) :
  store_ok w ->
  store_ok (handled messages env w) /\
  (USER_STORAGE w = None -> USER_STORAGE (handled messages env w) = None).
Proof.
  unfold handled. revert w. induction messages as [|m messages IH]; intros w Hok.
  - now split.
  - cbn [fold_left].
    destruct (handleMessage_keeps_ok m env w Hok) as (_ & Hok1 & Hn1).
    destruct (IH _ Hok1) as [Hok2 Hn2].
    split; [exact Hok2|]. intros Hn. now apply Hn2, Hn1.
Qed.

Lemma directory_invariant_witness :
  store_ok (Fixture.world (Some [])) /\
  store_ok (handled (R := Fixture.flaky)
              [Fixture.start; Fixture.postReply; Fixture.start]
              (Fixture.env (Some "true")) (Fixture.world (Some []))) /\
  USER_STORAGE (handled (R := Fixture.flaky)
                  [Fixture.start; Fixture.postReply; Fixture.start]
                  (Fixture.env (Some "true")) (Fixture.world (Some []))) =
  Some [record 42 {| UserInfo.userName := "alice"; UserInfo.userId := 42;
                     UserInfo.chatId := 42; UserInfo.time := "";
                     UserInfo.header := "" |} 1700000000000].
Proof.
  assert (H : store_ok (Fixture.world (Some []))).
  { split; [constructor | simpl; lia]. }
  split; [exact H|].
  split; [|vm_compute; reflexivity].
  exact (proj1 (directory_invariant (R := Fixture.flaky)
                  [Fixture.start; Fixture.postReply; Fixture.start]
                  (Fixture.env (Some "true")) (Fixture.world (Some [])) H)).
Defined.

(** ** Of one upsert *)

Lemma findIndex_some (chatId : Z) (users : list User.t) :
  In chatId (map User.chatId users) ->
  exists i, findIndex chatId users = Some i.
Proof.
  intros H. destruct (findIndex chatId users) as [i|] eqn:E; [now exists i|].
  now apply Directory.findIndex_none in E.
Qed.

Lemma findIndex_first (chatId : Z) (users : list User.t) (i : nat) :
  findIndex chatId users = Some i ->
  (exists u, nth_error users i = Some u /\ User.chatId u = chatId) /\
  forall j u, (j < i)%nat -> nth_error users j = Some u ->
              User.chatId u <> chatId.
Proof.
  revert i; induction users as [|v users IH]; intros i; cbn [findIndex];
    [discriminate|].
  destruct (Z.eqb_spec (User.chatId v) chatId) as [E|E].
  - intros H; inversion H; subst. split; [now exists v|]. intros; lia.
  - destruct (findIndex chatId users) as [k|]; [|discriminate].
    cbn [option_map]. intros H; inversion H; subst.
    destruct (IH k eq_refl) as [Hu Hb]. split; [exact Hu|].
    intros [|j] u Hj Hn; cbn [nth_error] in Hn.
    + inversion Hn; subst. exact E.
    + apply (Hb j u); [lia | exact Hn].
Qed.

Lemma assign_nth (x : User.t) (users : list User.t) (i : nat) :
  (i < List.length users)%nat ->
  nth_error (assign i x users) i = Some x /\
  forall j, j <> i -> nth_error (assign i x users) j = nth_error users j.
Proof.
  revert i; induction users as [|v users IH]; intros i Hi;
    [simpl in Hi; lia|].
  destruct i as [|i]; cbn [assign].
  - split; [reflexivity|]. intros [|j] Hj; [congruence | reflexivity].
  - cbn [List.length] in Hi. destruct (IH i ltac:(lia)) as [Hx Ho].
    split; [exact Hx|]. intros [|j] Hj; [reflexivity|].
    cbn [nth_error]. apply Ho. congruence.
Qed.

(** The upsert of an identifier that the directory holds refreshes its
    record where it stands: the first record of that identifier is
    replaced by the new one, and the other records, their order and their
    number are as before. *)
Theorem upsert_refreshes_in_place (chatId : Z) (userInfo : UserInfo.t)
  (w : World) (users : list User.t) :
  USER_STORAGE w = Some users ->
  (List.length users <= 1000)%nat ->
  In chatId (map User.chatId users) ->
  exists i users',
    findIndex chatId users = Some i /\
    addUserToKV chatId userInfo w =
    (Val tt, emit (Put users') (store users' w)) /\
    List.length users' = List.length users /\
    map User.chatId users' = map User.chatId users /\
    nth_error users' i = Some (record chatId userInfo (now w)) /\
    forall j, j <> i -> nth_error users' j = nth_error users j.
Proof.
  intros Hw Hl Hin. destruct (findIndex_some chatId users Hin) as (i & Ei).
  pose proof (addUserToKV_stores chatId userInfo w users Hw) as H.
  cbv zeta in H. rewrite Ei in H.
  set (x := record chatId userInfo (now w)) in *.
  destruct (Directory.assign_ids x users i Ei) as [Hids Hlen].
  replace (1000 <? List.length (assign i x users))%nat with false in H
    by (symmetry; apply Nat.ltb_ge; lia).
  exists i, (assign i x users).
  split; [exact Ei|]. split; [exact H|]. split; [exact Hlen|].
  split; [exact Hids|].
  apply assign_nth.
  destruct (findIndex_first chatId users i Ei) as [(u & Hu & _) _].
  apply nth_error_Some. congruence.
Qed.

Lemma upsert_refreshes_in_place_witness :
  let users := Fixture.directory (fun k => k) 3 in
  let w := Fixture.world (Some users) in
  USER_STORAGE w = Some users /\
  (List.length users <= 1000)%nat /\
  In 2%Z (map User.chatId users) /\
  exists users',
    USER_STORAGE (snd (addUserToKV 2 Fixture.zoe w)) = Some users' /\
    map User.chatId users' = [1; 2; 3]%Z /\
    nth_error users' 1 = Some (record 2 Fixture.zoe (now w)).
Proof.
  intros users w.
  assert (Hl : (List.length users <= 1000)%nat) by (simpl; lia).
  assert (Hin : In 2%Z (map User.chatId users)) by (simpl; tauto).
  split; [reflexivity|]. split; [exact Hl|]. split; [exact Hin|].
  destruct (upsert_refreshes_in_place 2 Fixture.zoe w users eq_refl Hl Hin)
    as (i & users' & Ei & E & _ & Hids & Hx & _).
  exists users'. rewrite E. split; [reflexivity|].
  split; [exact Hids|].
  vm_compute in Ei. inversion Ei; subst i. exact Hx.
Defined.



(** A record that is no more recent than any other goes last. *)
Lemma sort_last (x : User.t) (users : list User.t) :
  Forall (older x) users -> sort (users ++ [x]) = (sort users ++ [x])%list.
Proof.
  intros H. induction H as [|u users Hu Hf IH]; [reflexivity|].
  cbn [app sort fold_right]. fold (sort (users ++ [x])). fold (sort users).
  rewrite IH. clear IH Hf.
  induction (sort users) as [|y l IHl]; cbn [app insert].
  - unfold older in Hu. apply Z.leb_le in Hu. now rewrite Hu.
  - destruct (Z.leb (User.lastActive y) (User.lastActive u)); [reflexivity|].
    now rewrite IHl.
Qed.

(** At the cap, the upsert of a new identifier keeps its own record
    exactly when some stored record was last active before now: when
    every stored record is as recent as the clock, the newcomer is the
    one that is cut off. *)
Theorem newcomer_at_the_cap (chatId : Z) (userInfo : UserInfo.t) (w : World)
  (users : list User.t) :
  USER_STORAGE w = Some users ->
  List.length users = 1000%nat ->
  ~ In chatId (map User.chatId users) ->
  exists users',
    addUserToKV chatId userInfo w =
    (Val tt, emit (Put users') (store users' w)) /\
    (In (record chatId userInfo (now w)) users' <->
     exists u, In u users /\ (User.lastActive u < now w)%Z).
Proof.
  intros Hw Hl Hnew.
  pose proof (addUserToKV_evicts chatId userInfo w users Hw Hl Hnew) as H.
  cbv zeta in H. eexists. split; [exact H|].
  set (x := record chatId userInfo (now w)).
  assert (Hx : ~ In x users).
  { intros Hin. apply Hnew. apply in_map_iff. now exists x. }
  split.
  - intros Hin.
    destruct (Forall_Exists_dec (older x)
                (fun u => Z_le_dec (User.lastActive x) (User.lastActive u))
                users) as [Hall|Hex].
    + exfalso. rewrite (sort_last x users Hall) in Hin.
      rewrite firstn_app in Hin.
      assert (Hls : List.length (sort users) = 1000%nat)
        by (rewrite (Permutation_length (Directory.sort_perm users)); exact Hl).
      rewrite Hls, firstn_all2 in Hin by lia.
      cbn [Nat.sub firstn] in Hin. rewrite app_nil_r in Hin.
      apply Hx. eapply Permutation_in; [apply Directory.sort_perm | exact Hin].
    + apply Exists_exists in Hex as (u & Hu & Hlt).
      exists u. split; [exact Hu|].
      unfold older, x, record in Hlt. cbn [User.lastActive] in Hlt. lia.
  - intros (u & Hu & Hlt).
    pose proof (Directory.sort_perm (users ++ [x])%list) as Hp.
    pose proof (Directory.sort_sorted (users ++ [x])%list) as Hs.
    assert (Hls : List.length (sort (users ++ [x])%list) = 1001%nat).
    { rewrite (Permutation_length Hp), length_app, Hl. reflexivity. }
    revert Hp Hs Hls. generalize (sort (users ++ [x])%list). intros s Hp Hs Hls.
    rewrite <- (firstn_skipn 1000 s) in Hp, Hs.
    assert (Hk : List.length (skipn 1000 s) = 1%nat)
      by (rewrite length_skipn; lia).
    destruct (skipn 1000 s) as [|e [|? ?]]; try discriminate Hk.
    apply Directory.sorted_app in Hs as [_ Hf].
    assert (Hxs : In x (firstn 1000 s ++ [e])%list).
    { eapply Permutation_in; [apply Permutation_sym, Hp|].
      apply in_or_app. right. now left. }
    apply in_app_or in Hxs as [Hxs|[He|[]]]; [exact Hxs|].
    exfalso.
    assert (Hus : In u (firstn 1000 s ++ [e])%list).
    { eapply Permutation_in; [apply Permutation_sym, Hp|].
      apply in_or_app. now left. }
    apply in_app_or in Hus as [Hus|[Hue|[]]]; [|congruence].
    rewrite Forall_forall in Hf. specialize (Hf u Hus).
    inversion Hf as [|? ? Ho _]. unfold recent, older in Ho.
    rewrite He in Ho. unfold x, record in Ho.
    cbn [User.lastActive] in Ho. lia.
Qed.

Lemma newcomer_at_the_cap_witness :
  let users := Fixture.directory (fun _ => 1700000000000%Z) 1000 in
  let w := Fixture.world (Some users) in
  USER_STORAGE w = Some users /\
  List.length users = 1000%nat /\
  ~ In 2000%Z (map User.chatId users) /\
  exists users',
    USER_STORAGE (snd (addUserToKV 2000 Fixture.zoe w)) = Some users' /\
    ~ In (record 2000 Fixture.zoe (now w)) users'.
Proof.
  intros users w.
  assert (Hl : List.length users = 1000%nat) by (vm_compute; reflexivity).
  assert (Hi : ~ In 2000%Z (map User.chatId users))
    by (apply directory_new; vm_compute; reflexivity).
  split; [reflexivity|]. split; [exact Hl|]. split; [exact Hi|].
  destruct (newcomer_at_the_cap 2000 Fixture.zoe w users eq_refl Hl Hi)
    as (users' & E & Hiff).
  exists users'. rewrite E. split; [reflexivity|].
  intros Hin. apply Hiff in Hin as (u & Hu & Hlt).
  unfold users, Fixture.directory in Hu.
  apply in_map_iff in Hu as (k & <- & _). cbn in Hlt. lia.
Defined.


(** ** Of the broadcast and of the replies of the administrator *)

(** A broadcast sends one request to every recipient its targets stand
    for, in their order and as often as they are named, and nothing else;
    it writes nothing to the store. *)
Theorem broadcast_requests {R : Runtime} (userIds : UserIds) (message : string)
  (env : Env) (isMedia : bool) (messageId : option Z) (w : World) :
  exists results events,
    broadcastMessage userIds message env isMedia messageId w =
    (Val results, emits events w) /\
    requests events =
    map (delivery env message isMedia messageId) (resolve userIds w) /\
    puts events = [].
Proof.
  destruct (resolve userIds w) as [|c targets] eqn:E.
  - eexists; exists []. rewrite emits_nil.
    split; [now apply broadcast_nobody|]. now split.
  - assert (Hr : resolve userIds w <> []) by congruence.
    destruct (broadcast_spec message env isMedia messageId userIds w Hr)
      as (results & events & H & (Hq & Hp & _) & _).
    exists results, events. rewrite E in Hq. now repeat split.
Qed.

Lemma plain_inv (text : option string) :
  plain text = true ->
  text_is text "/start" = false /\ text_is text "/status" = false /\
  text_is text "/help" = false /\ text_starts text "/post" = false /\
  text_is text "/users" = false.
Proof.
  unfold plain. intros H. apply negb_true_iff in H.
  repeat (apply orb_false_iff in H as [H ?]). now repeat split.
Qed.

(** A reply that is no command is the branch of the ordinary reply. *)
Lemma plain_reply {R : Runtime} (message : Msg.t) (replied : Replied.t)
  (env : Env) :
  Msg.reply_to_message message = Some replied ->
  plain (Msg.text message) = true ->
  handleAdminMessage message env =
  try_catch (routedReply message replied env)
    (fun error =>
       try_catch
         (bind (sendMessage (Txt (ADMIN_CHAT_ID env))
                  (Text.processingError error) None) (fun _ => ret tt))
         (fun sendError => ret tt)).
Proof.
  intros Hr Hp. destruct (plain_inv _ Hp) as (H1 & H2 & H3 & H4 & H5).
  unfold handleAdminMessage. rewrite H1, H2, H3, H4, H5, Hr. reflexivity.
Qed.

(** A request whose failure makes the failure notice follow. *)
Lemma notice_after {R : Runtime} (env : Env) (c : Call) (w : World) :
  to_admin env c ->
  exists rest,
    try_catch (bind (callTelegramAPI c) (fun _ => ret tt))
      (fun error =>
         try_catch
           (bind (sendMessage (Txt (ADMIN_CHAT_ID env))
                    (Text.processingError error) None) (fun _ => ret tt))
           (fun sendError => ret tt)) w =
    (Val tt, emits (map Fetch (c :: rest)) w) /\
    Forall (to_admin env) (c :: rest).
Proof.
  intros Hc. unfold try_catch, bind, sendMessage, callTelegramAPI, ret.
  destruct (transport (trace w) c) as [body|e].
  - exists []. split; [reflexivity | now repeat constructor].
  - exists [SendMessage (Txt (ADMIN_CHAT_ID env)) (Text.processingError e) None].
    split; [|now repeat constructor].
    rewrite !emit_emits.
    destruct (transport (trace (emits _ _)) _); rewrite emits_emits;
      reflexivity.
Qed.

(** The reply to a recipient and what follows it: the confirmation or
    the complaint to the administrator, by the answer of the transport,
    and the notice of a failure. *)
Lemma reply_then_notice {R : Runtime} (message : Msg.t) (env : Env)
  (w : World) (reply : Call) (userChatId : string) :
  let admin := Txt (ADMIN_CHAT_ID env) in
  exists notice notices,
    try_catch
      (bind (callTelegramAPI reply) (fun replyResult =>
         if ok replyResult
         then bind (sendMessage admin (Text.replySent userChatId)
                      (Some (Msg.message_id message))) (fun _ => ret tt)
         else bind (sendMessage admin
                      (Text.replyFailed
                         (or_else (description replyResult)
                            Text.unknownError))
                      (Some (Msg.message_id message))) (fun _ => ret tt)))
      (fun error =>
         try_catch
           (bind (sendMessage admin (Text.processingError error) None)
                 (fun _ => ret tt))
           (fun sendError => ret tt)) w =
    (Val tt, emits (Fetch reply :: map Fetch (notice :: notices)) w) /\
    Forall (to_admin env) (notice :: notices) /\
    (List.length notices <= 1)%nat /\
    (forall body,
       transport (trace w) reply = Returned body -> ok body = true ->
       notice = SendMessage admin (Text.replySent userChatId)
                  (Some (Msg.message_id message))).
Proof.
  intros admin.
  unfold try_catch at 1. unfold bind at 1. unfold callTelegramAPI at 1.
  destruct (transport (trace w) reply) as [body|e] eqn:Et.
  - set (followup := if ok body
                     then SendMessage admin (Text.replySent userChatId)
                            (Some (Msg.message_id message))
                     else SendMessage admin
                            (Text.replyFailed
                               (or_else (description body) Text.unknownError))
                            (Some (Msg.message_id message))).
    assert (Hf : to_admin env followup)
      by (unfold followup; destruct (ok body); reflexivity).
    destruct (notice_after env followup (emit (Fetch reply) w) Hf)
      as (rest & E & F).
    assert (Hrest : (List.length rest <= 1)%nat).
    { revert E. unfold try_catch, bind, sendMessage, callTelegramAPI, ret.
      destruct (transport (trace (emit (Fetch reply) w)) followup).
      - intros E. inversion E as [Etr].
        apply app_inv_head in Etr. inversion Etr.
        destruct rest; [simpl; lia | discriminate].
      - rewrite !emit_emits.
        destruct (transport (trace (emits _ _)) _); rewrite emits_emits;
          intros E; inversion E as [Etr]; apply app_inv_head in Etr;
          inversion Etr as [Er];
          apply (f_equal (@List.length _)) in Er;
          rewrite length_map in Er; simpl in Er; lia. }
    exists followup, rest.
    split.
    + unfold try_catch, bind, sendMessage in E |- *. unfold followup in E.
      destruct (ok body); rewrite emit_emits in E;
        (etransitivity; [exact E|]); rewrite emits_emits; reflexivity.
    + split; [exact F|]. split; [exact Hrest|].
      intros body' Hb Hok. inversion Hb; subst body'.
      unfold followup. now rewrite Hok.
  - exists (SendMessage admin (Text.processingError e) None), [].
    split.
    + unfold try_catch, bind, sendMessage, callTelegramAPI, ret.
      rewrite !emit_emits.
      destruct (transport (trace (emits _ _)) _); rewrite emits_emits;
        reflexivity.
    + split; [now repeat constructor|]. split; [simpl; lia|].
      intros body Hb. discriminate Hb.
Qed.

(** The reply of the administrator to a message from which a recipient is
    extracted, with a text that is no command: the first request carries
    that text to the recipient, and every other request, one or two of
    them, goes to the administrator; when the transport accepts the
    reply, the next request is the confirmation that names the recipient. *)
Theorem reply_is_routed {R : Runtime} (message : Msg.t) (replied : Replied.t)
  (env : Env) (w : World) (text userChatId : string) :
  Msg.reply_to_message message = Some replied ->
  Msg.text message = Some text ->
  text <> "" ->
  plain (Msg.text message) = true ->
  extractUserChatId
    (or_opt (Replied.text replied) (Replied.caption replied))
    (USER_ID_SECRET env) = Some userChatId ->
  let admin := Txt (ADMIN_CHAT_ID env) in
  let reply := SendMessage (Txt userChatId) (Text.adminReply text) None in
  exists notice notices,
    handleAdminMessage message env w =
    (Val tt, emits (Fetch reply :: map Fetch (notice :: notices)) w) /\
    Forall (to_admin env) (notice :: notices) /\
    (List.length notices <= 1)%nat /\
    (forall body,
       transport (trace w) reply = Returned body -> ok body = true ->
       notice = SendMessage admin (Text.replySent userChatId)
                  (Some (Msg.message_id message))).
Proof.
  intros Hr Ht Hne Hp Hx admin reply.
  rewrite (plain_reply message replied env Hr Hp).
  unfold routedReply. rewrite Hx, Ht.
  destruct text as [|c t]; [congruence|]. fold admin.
  unfold sendMessage at 1. fold reply.
  apply (reply_then_notice message env w reply userChatId).
Qed.


Lemma reply_is_routed_witness :
  let message := Fixture.answer (Some "hi") (Some Fixture.forwarded) in
  plain (Msg.text message) = true /\
  extractUserChatId (Some Fixture.forwarded) (Some "secret") = Some "42" /\
  handleAdminMessage (R := Fixture.ideal) message (Fixture.env None)
    (Fixture.world None) =
  (Val tt,
   emits [Fetch (SendMessage (Txt "42") (Text.adminReply "hi") None);
          Fetch (SendMessage (Txt "1000") (Text.replySent "42") (Some 81%Z))]
     (Fixture.world None)).
Proof.
  intros message.
  assert (Hx : extractUserChatId (Some Fixture.forwarded) (Some "secret")
               = Some "42") by (vm_compute; reflexivity).
  split; [reflexivity|]. split; [exact Hx|].
  destruct (reply_is_routed (R := Fixture.ideal) message
              {| Replied.text := Some Fixture.forwarded;
                 Replied.caption := None; Replied.message_id := 80 |}
              (Fixture.env None) (Fixture.world None) "hi" "42"
              eq_refl eq_refl ltac:(discriminate) eq_refl Hx)
    as (notice & notices & E & _ & Hl & Hn).
  rewrite E. rewrite (Hn _ eq_refl eq_refl).
  destruct notices as [|n notices]; [reflexivity|].
  exfalso. vm_compute in E. discriminate E.
Defined.

(** The user writes, the administrator answers what was forwarded, and
    the answer reaches the user. *)
Example forward_and_reply :
  requests (trace (handled (R := Fixture.ideal)
                     [Fixture.hello;
                      Fixture.answer (Some "hi") (Some Fixture.forwarded)]
                     (Fixture.env None) (Fixture.world None))) =
  [SendMessage (Txt "1000") Fixture.forwarded None;
   SendMessage (Num 42) Text.delivered None;
   SendMessage (Txt "42") (Text.adminReply "hi") None;
   SendMessage (Txt "1000") (Text.replySent "42") (Some 81%Z)].
Proof. vm_compute. reflexivity. Qed.

(** The reply of the administrator to a message from which no recipient
    is extracted, with a text that is no command or with no text: the
    warning goes to the administrator, and nothing goes to anybody
    else. *)
Theorem reply_is_not_routed {R : Runtime} (message : Msg.t)
  (replied : Replied.t) (env : Env) (w : World) :
  Msg.reply_to_message message = Some replied ->
  plain (Msg.text message) = true ->
  extractUserChatId
    (or_opt (Replied.text replied) (Replied.caption replied))
    (USER_ID_SECRET env) = None ->
  exists notices,
    handleAdminMessage message env w =
    (Val tt,
     emits (map Fetch
              (SendMessage (Txt (ADMIN_CHAT_ID env)) Text.unrecognized
                 (Some (Msg.message_id message)) :: notices)) w) /\
    Forall (to_admin env) notices.
Proof.
  intros Hr Hp Hx. rewrite (plain_reply message replied env Hr Hp).
  unfold routedReply. rewrite Hx. unfold sendMessage at 1.
  destruct (notice_after env
              (SendMessage (Txt (ADMIN_CHAT_ID env)) Text.unrecognized
                 (Some (Msg.message_id message))) w eq_refl)
    as (rest & E & F).
  exists rest. split; [exact E|]. now inversion F.
Qed.

Lemma reply_is_not_routed_witness :
  let message := Fixture.answer None (Some "a message without a tag") in
  plain (Msg.text message) = true /\
  extractUserChatId (Some "a message without a tag") (Some "secret") = None /\
  handleAdminMessage (R := Fixture.ideal) message (Fixture.env None)
    (Fixture.world None) =
  (Val tt,
   emits [Fetch (SendMessage (Txt "1000") Text.unrecognized (Some 81%Z))]
     (Fixture.world None)).
Proof.
  intros message.
  split; [reflexivity|]. split; [reflexivity|].
  destruct (reply_is_not_routed (R := Fixture.ideal) message
              {| Replied.text := Some "a message without a tag";
                 Replied.caption := None; Replied.message_id := 80 |}
              (Fixture.env None) (Fixture.world None)
              eq_refl eq_refl eq_refl)
    as (notices & E & _).
  rewrite E. destruct notices as [|n notices]; [reflexivity|].
  exfalso. vm_compute in E. discriminate E.
Defined.

Section Post.

Context {R : Runtime}.

(** A text that starts with the command word is the branch of the
    broadcast command. *)
Lemma post_branch (message : Msg.t) (env : Env) :
  text_starts (Msg.text message) "/post" = true ->
  handleAdminMessage message env =
  try_catch (postCommand message env)
    (fun error =>
       try_catch
         (bind (sendMessage (Txt (ADMIN_CHAT_ID env))
                  (Text.processingError error) None) (fun _ => ret tt))
         (fun sendError => ret tt)).
Proof.
  intros Hpost. destruct (post_is_no_other _ Hpost) as (H1 & H2 & H3).
  unfold handleAdminMessage. rewrite H1, H2, H3, Hpost. reflexivity.
Qed.

(** A command that does not name a payload and somebody to send it to
    is answered by one explanation. *)
Lemma post_refused (m : Msg.t) (env : Env) :
  addressed env
    (parsePostTargets (Str.trim (Str.drop 5 (text_of (Msg.text m)))))
  = false ->
  exists text,
    In text [Text.postUsage; Text.noPayload; Text.needTracking;
             Text.noValidIds] /\
    postCommand m env =
    bind (callTelegramAPI
            (SendMessage (Txt (ADMIN_CHAT_ID env)) text
               (Some (Msg.message_id m))))
         (fun _ => ret tt).
Proof.
  unfold postCommand, addressed, sendMessage.
  destruct (Str.trim _) as [|c commandText].
  { intros _. exists Text.postUsage. split; [now left | reflexivity]. }
  destruct (parsePostTargets _) as [targets payload].
  cbn [message userIds].
  destruct payload as [|c' payload].
  { intros _. exists Text.noPayload. split; [simpl; tauto | reflexivity]. }
  destruct targets as [|[|id ids]]; cbn [is_all is_empty_array andb].
  - intros ->. exists Text.needTracking. split; [simpl; tauto | reflexivity].
  - intros _. exists Text.noValidIds. split; [simpl; tauto | reflexivity].
  - discriminate.
Qed.

End Post.

(** A broadcast command that names no payload, or no valid identifier, or
    the sentinel while tracking is disabled, or nothing at all, is
    answered by one explanation to the administrator and sends nothing
    to any recipient; no exception gets out. *)
Theorem refused_post_sends_nothing_out {R : Runtime} (message : Msg.t)
  (env : Env) (w : World) :
  text_starts (Msg.text message) "/post" = true ->
  addressed env
    (parsePostTargets (Str.trim (Str.drop 5 (text_of (Msg.text message)))))
  = false ->
  exists text notices,
    In text [Text.postUsage; Text.noPayload; Text.needTracking;
             Text.noValidIds] /\
    handleAdminMessage message env w =
    (Val tt,
     emits (map Fetch
              (SendMessage (Txt (ADMIN_CHAT_ID env)) text
                 (Some (Msg.message_id message)) :: notices)) w) /\
    Forall (to_admin env) notices.
Proof.
  intros Hpost Hbad. rewrite (post_branch message env Hpost).
  destruct (post_refused message env Hbad) as (text & Hin & ->).
  destruct (notice_after env
              (SendMessage (Txt (ADMIN_CHAT_ID env)) text
                 (Some (Msg.message_id message))) w eq_refl)
    as (rest & E & F).
  exists text, rest. split; [exact Hin|]. split; [exact E|].
  now inversion F.
Qed.

Lemma refused_post_sends_nothing_out_witness :
  let message := Fixture.answer (Some "/post all hello") None in
  let w := Fixture.world (Some (Fixture.directory (fun k => k) 3)) in
  text_starts (Msg.text message) "/post" = true /\
  addressed (Fixture.env None) (parsePostTargets "all hello") = false /\
  exists text notices,
    In text [Text.postUsage; Text.noPayload; Text.needTracking;
             Text.noValidIds] /\
    handleAdminMessage (R := Fixture.ideal) message (Fixture.env None) w =
    (Val tt,
     emits (map Fetch
              (SendMessage (Txt (ADMIN_CHAT_ID (Fixture.env None))) text
                 (Some (Msg.message_id message)) :: notices)) w) /\
    Forall (to_admin (Fixture.env None)) notices.
Proof.
  intros message w.
  split; [reflexivity|]. split; [reflexivity|].
  apply (refused_post_sends_nothing_out (R := Fixture.ideal) message
           (Fixture.env None) w); reflexivity.
Defined.

(** ** Of the HTTP surface *)

Section Surface.

Context {R : Runtime} {O : Http.Operator}.

Lemma handleMessage_val (message : Msg.t) (env : Env) (w : World) :
  fst (handleMessage message env w) = Val tt.
Proof.
  unfold handleMessage. destruct (String.eqb _ _).
  - destruct (handleAdminMessage_calm message env w)
      as ([] & events & E & _).
    now rewrite E.
  - destruct (user_branch_after_upsert message env w)
      as (userInfo & w1 & _ & _ & events & E & _).
    now rewrite E.
Qed.

(** Work handed to [waitUntil] that ends is done, and its outcome is
    dropped. *)
Lemma waitUntil_val {A : Type} (m : M A) (w : World) :
  fst (m w) <> OutOfFuel ->
  Http.waitUntil m w = (Val tt, snd (m w)).
Proof.
  unfold Http.waitUntil. destruct (m w) as [[a|e|] w']; simpl;
    [reflexivity | reflexivity | congruence].
Qed.

Lemma handleIncoming_val (message : Http.Incoming) (env : Env) (w : World) :
  fst (Http.handleIncoming message env w) = Val tt.
Proof.
  destruct message as [message|]; [apply handleMessage_val | reflexivity].
Qed.

(** The notification of the administrator is one request, whose failure
    is dropped. *)
Lemma notify_spec (env : Env) (text : string) (w : World) :
  Http.notify env text w =
  (Val tt,
   emits [Fetch (SendMessage (Txt (ADMIN_CHAT_ID env)) text None)] w).
Proof.
  unfold Http.notify, Http.waitUntil, try_catch, bind, sendMessage,
    callTelegramAPI, ret.
  destruct (transport (trace w) _); reflexivity.
Qed.

Lemma authorised_passes (request : Http.Request) (config : Http.Config) :
  authorised request config = true ->
  match Http.WEBHOOK_SECRET config with
  | Some (String _ _ as secret) =>
      Http.differs (Http.secret_token request) secret
  | _ => false
  end = false.
Proof.
  unfold authorised, Http.differs.
  destruct (Http.WEBHOOK_SECRET config) as [[|c secret]|]; try reflexivity.
  destruct (Http.secret_token request) as [secretToken|]; [|discriminate].
  now intros ->.
Qed.

(** The three ways of the webhook. *)
Lemma handleWebhook_refuses (request : Http.Request) (config : Http.Config)
  (w : World) :
  authorised request config = false ->
  Http.handleWebhook request config w = (Val Http.unauthorized, w).
Proof.
  unfold authorised, Http.handleWebhook, try_catch.
  destruct (Http.WEBHOOK_SECRET config) as [[|c secret]|]; try discriminate.
  unfold Http.differs.
  destruct (Http.secret_token request) as [secretToken|]; [|reflexivity].
  now intros ->.
Qed.

Lemma handleWebhook_acknowledges (request : Http.Request)
  (config : Http.Config) (w : World) (update : option Http.Incoming) :
  authorised request config = true ->
  Http.body request = Http.Update update ->
  Http.handleWebhook request config w =
  (Val Http.acknowledged,
   match update with
   | Some message =>
       snd (Http.handleIncoming message (Http.env config) w)
   | None => w
   end).
Proof.
  intros Ha Hb.
  assert (Hr : match Http.WEBHOOK_SECRET config with
               | Some (String _ _ as secret) =>
                   Http.differs (Http.secret_token request) secret
               | _ => false
               end = false).
  { now apply authorised_passes. }
  unfold Http.handleWebhook, try_catch. rewrite Hr, Hb.
  unfold bind at 1. unfold ret at 1.
  destruct update as [message|].
  - unfold bind.
    rewrite (waitUntil_val _ w)
      by (rewrite handleIncoming_val; discriminate).
    reflexivity.
  - reflexivity.
Qed.

Lemma handleWebhook_fails (request : Http.Request) (config : Http.Config)
  (w : World) (error : string) :
  authorised request config = true ->
  Http.body request = Http.Malformed error ->
  Http.handleWebhook request config w =
  (Val Http.failure,
   emits [Fetch (SendMessage (Txt (ADMIN_CHAT_ID (Http.env config)))
                   (Http.botError error) None)] w).
Proof.
  intros Ha Hb.
  assert (Hr : match Http.WEBHOOK_SECRET config with
               | Some (String _ _ as secret) =>
                   Http.differs (Http.secret_token request) secret
               | _ => false
               end = false).
  { now apply authorised_passes. }
  unfold Http.handleWebhook, try_catch. rewrite Hr, Hb.
  unfold bind at 1. unfold Http.throw.
  unfold bind. now rewrite notify_spec.
Qed.

(** The webhook always answers, with one of three answers. *)
Lemma handleWebhook_val (request : Http.Request) (config : Http.Config)
  (w : World) :
  exists response w',
    Http.handleWebhook request config w = (Val response, w') /\
    In response [Http.unauthorized; Http.acknowledged; Http.failure].
Proof.
  destruct (authorised request config) eqn:Ha.
  - destruct (Http.body request) as [error|update] eqn:Hb.
    + rewrite (handleWebhook_fails _ _ _ _ Ha Hb).
      do 2 eexists. split; [reflexivity | simpl; tauto].
    + rewrite (handleWebhook_acknowledges _ _ _ _ Ha Hb).
      do 2 eexists. split; [reflexivity | simpl; tauto].
  - rewrite (handleWebhook_refuses _ _ _ Ha).
    do 2 eexists. split; [reflexivity | simpl; tauto].
Qed.

(** With both variables set, the request goes to its route, and an
    exception of the route becomes the answer 500 after one notification
    of the administrator. *)
Lemma handleRequest_routes (request : Http.Request) (config : Http.Config)
  (s : Http.Server) :
  configured config = true ->
  Http.handleRequest request config s =
  match Http.route request config s with
  | (Exn error, s') =>
      (Val Http.failure,
       {| Http.world :=
            emits [Fetch (SendMessage
                            (Txt (ADMIN_CHAT_ID (Http.env config)))
                            (Http.systemError error) None)]
              (Http.world s');
          Http.sent := Http.sent s' |})
  | r => r
  end.
Proof.
  unfold configured, Http.handleRequest. intros H.
  apply andb_true_iff in H as [H1 H2]. apply negb_true_iff in H1, H2.
  rewrite H1, H2. cbn [orb].
  destruct (Http.route request config s) as [[response|error|] s'];
    try reflexivity.
  unfold Http.lift. now rewrite notify_spec.
Qed.

Lemma route_webhook (request : Http.Request) (config : Http.Config) :
  Http.method request = "POST" -> Http.pathname request = "/webhook" ->
  Http.route request config = Http.lift (Http.handleWebhook request config).
Proof. unfold Http.route. now intros -> ->. Qed.

(** A call of maintenance is recorded, and its failure is the exception
    of the route. *)
Lemma json_spec (c : Http.Maintenance) (s : Http.Server) :
  Http.json (Http.callMaintenance c) s =
  (match Http.answer (Http.sent s) c with
   | Returned result =>
       Val {| Http.status := 200; Http.content := Http.stringify result |}
   | Failed error => Exn error
   end,
   {| Http.world := Http.world s;
      Http.sent := (Http.sent s ++ [c])%list |}).
Proof.
  unfold Http.json, Http.callMaintenance.
  destruct (Http.answer (Http.sent s) c); reflexivity.
Qed.

Lemma maintenance_spec (request : Http.Request) (config : Http.Config)
  (s : Http.Server) (c : Http.Maintenance) :
  configured config = true ->
  Http.route request config = Http.json (Http.callMaintenance c) ->
  Http.handleRequest request config s =
  match Http.answer (Http.sent s) c with
  | Returned result =>
      (Val {| Http.status := 200; Http.content := Http.stringify result |},
       {| Http.world := Http.world s;
          Http.sent := (Http.sent s ++ [c])%list |})
  | Failed error =>
      (Val Http.failure,
       {| Http.world :=
            emits [Fetch (SendMessage
                            (Txt (ADMIN_CHAT_ID (Http.env config)))
                            (Http.systemError error) None)]
              (Http.world s);
          Http.sent := (Http.sent s ++ [c])%list |})
  end.
Proof.
  intros Hc Hr. rewrite (handleRequest_routes _ _ _ Hc), Hr, json_spec.
  destruct (Http.answer (Http.sent s) c); reflexivity.
Qed.

(** A request for none of the three routes that act. *)
Lemma route_idle (request : Http.Request) (config : Http.Config)
  (s : Http.Server) :
  ~ In (Http.method request, Http.pathname request)
      [("POST", "/webhook"); ("GET", "/setWebhook"); ("GET", "/me")] ->
  Http.route request config s = (Val Http.running, s) \/
  Http.route request config s = (Val Http.notFound, s).
Proof.
  intros H. unfold Http.route.
  destruct (String.eqb (Http.method request) "POST" &&
            String.eqb (Http.pathname request) "/webhook") eqn:E1.
  { apply andb_true_iff in E1 as [Em Ep].
    apply String.eqb_eq in Em, Ep. exfalso. apply H.
    rewrite Em, Ep. simpl. tauto. }
  destruct (String.eqb (Http.method request) "GET" &&
            String.eqb (Http.pathname request) "/setWebhook") eqn:E2.
  { apply andb_true_iff in E2 as [Em Ep].
    apply String.eqb_eq in Em, Ep. exfalso. apply H.
    rewrite Em, Ep. simpl. tauto. }
  destruct (String.eqb (Http.method request) "GET" &&
            String.eqb (Http.pathname request) "/me") eqn:E3.
  { apply andb_true_iff in E3 as [Em Ep].
    apply String.eqb_eq in Em, Ep. exfalso. apply H.
    rewrite Em, Ep. simpl. tauto. }
  destruct (String.eqb (Http.method request) "GET" &&
            String.eqb (Http.pathname request) "/"); tauto.
Qed.

End Surface.

(** The worker answers every request: whatever the request, the
    configuration, the store and the answers of the transport, no
    exception gets out and the status is 200, 401, 404 or 500. *)
Theorem server_always_answers {R : Runtime} {O : Http.Operator}
  (request : Http.Request) (config : Http.Config) (s : Http.Server) :
  exists response s',
    Http.handleRequest request config s = (Val response, s') /\
    In (Http.status response) [200; 401; 404; 500]%Z.
Proof.
  destruct (configured config) eqn:Hc.
  - rewrite (handleRequest_routes _ _ _ Hc). unfold Http.route.
    destruct (String.eqb (Http.method request) "POST" &&
              String.eqb (Http.pathname request) "/webhook").
    { unfold Http.lift.
      destruct (handleWebhook_val request config (Http.world s))
        as (response & w' & -> & Hin).
      do 2 eexists. split; [reflexivity|].
      simpl in Hin. destruct Hin as [<-|[<-|[<-|[]]]]; simpl; tauto. }
    destruct (String.eqb (Http.method request) "GET" &&
              String.eqb (Http.pathname request) "/setWebhook").
    { unfold Http.setWebhook. rewrite json_spec. destruct (Http.answer _ _);
        do 2 eexists; (split; [reflexivity | simpl; tauto]). }
    destruct (String.eqb (Http.method request) "GET" &&
              String.eqb (Http.pathname request) "/me").
    { unfold Http.getMe. rewrite json_spec. destruct (Http.answer _ _);
        do 2 eexists; (split; [reflexivity | simpl; tauto]). }
    destruct (String.eqb (Http.method request) "GET" &&
              String.eqb (Http.pathname request) "/");
      do 2 eexists; (split; [reflexivity | simpl; tauto]).
  - unfold configured in Hc. unfold Http.handleRequest.
    apply andb_false_iff in Hc.
    assert (H : Http.unset (BOT_TOKEN (Http.env config)) ||
                Http.unset (ADMIN_CHAT_ID (Http.env config)) = true).
    { destruct Hc as [Hc|Hc]; apply negb_false_iff in Hc; rewrite Hc;
        [reflexivity | apply orb_true_r]. }
    rewrite H. do 2 eexists. split; [reflexivity | simpl; tauto].
Qed.

(** An update that does not carry the secret of the webhook, when one is
    set, is answered by 401 and nothing is done: no request, no write,
    and the body is not read. *)
Theorem webhook_wrong_secret {R : Runtime} {O : Http.Operator}
  (request : Http.Request) (config : Http.Config) (s : Http.Server) :
  configured config = true ->
  Http.method request = "POST" -> Http.pathname request = "/webhook" ->
  authorised request config = false ->
  Http.handleRequest request config s = (Val Http.unauthorized, s).
Proof.
  intros Hc Hm Hp Ha.
  rewrite (handleRequest_routes _ _ _ Hc), (route_webhook _ _ Hm Hp).
  unfold Http.lift. rewrite (handleWebhook_refuses _ _ _ Ha).
  now destruct s.
Qed.

Lemma webhook_wrong_secret_witness :
  let request :=
    Fixture.request "POST" "/webhook" (Some "guess")
      (Http.Update (Some (Http.Wellformed Fixture.hello))) in
  configured (Fixture.config "token" (Some "s3cret")) = true /\
  authorised request (Fixture.config "token" (Some "s3cret")) = false /\
  Http.handleRequest (R := Fixture.ideal) (O := Fixture.operator)
    request (Fixture.config "token" (Some "s3cret")) Fixture.server =
  (Val Http.unauthorized, Fixture.server).
Proof.
  intros request. split; [reflexivity|]. split; [reflexivity|].
  apply (webhook_wrong_secret (R := Fixture.ideal) (O := Fixture.operator)
           request (Fixture.config "token" (Some "s3cret")) Fixture.server);
    reflexivity.
Defined.

(** An authorised update is answered by 200 whatever becomes of its
    message: the message is handled as [handleMessage] handles it when it
    has a sender and a chat, nothing is done otherwise, and no failure of
    the handling reaches the answer. *)
Theorem webhook_acknowledges {R : Runtime} {O : Http.Operator}
  (request : Http.Request) (config : Http.Config) (s : Http.Server)
  (update : option Http.Incoming) :
  configured config = true ->
  Http.method request = "POST" -> Http.pathname request = "/webhook" ->
  authorised request config = true ->
  Http.body request = Http.Update update ->
  Http.handleRequest request config s =
  (Val Http.acknowledged,
   {| Http.world :=
        match update with
        | Some (Http.Wellformed message) =>
            snd (handleMessage message (Http.env config) (Http.world s))
        | _ => Http.world s
        end;
      Http.sent := Http.sent s |}).
Proof.
  intros Hc Hm Hp Ha Hb.
  rewrite (handleRequest_routes _ _ _ Hc), (route_webhook _ _ Hm Hp).
  unfold Http.lift. rewrite (handleWebhook_acknowledges _ _ _ _ Ha Hb).
  destruct update as [[message|]|]; reflexivity.
Qed.

Lemma webhook_acknowledges_witness :
  let request :=
    Fixture.request "POST" "/webhook" (Some "s3cret")
      (Http.Update (Some (Http.Wellformed Fixture.hello))) in
  let config := Fixture.config "token" (Some "s3cret") in
  configured config = true /\
  authorised request config = true /\
  Http.handleRequest (R := Fixture.flaky) (O := Fixture.operator)
    request config Fixture.server =
  (Val Http.acknowledged,
   {| Http.world :=
        snd (handleMessage (R := Fixture.flaky) Fixture.hello
               (Http.env config) (Fixture.world None));
      Http.sent := [] |}).
Proof.
  intros request config. split; [reflexivity|]. split; [reflexivity|].
  apply (webhook_acknowledges (R := Fixture.flaky) (O := Fixture.operator)
           request config Fixture.server
           (Some (Http.Wellformed Fixture.hello)));
    reflexivity.
Defined.

(** An authorised update whose body cannot be read is answered by 500
    after one notification of the administrator that carries the message
    of the error; the outcome of the notification does not matter. *)
Theorem webhook_unreadable_body {R : Runtime} {O : Http.Operator}
  (request : Http.Request) (config : Http.Config) (s : Http.Server)
  (error : string) :
  configured config = true ->
  Http.method request = "POST" -> Http.pathname request = "/webhook" ->
  authorised request config = true ->
  Http.body request = Http.Malformed error ->
  Http.handleRequest request config s =
  (Val Http.failure,
   {| Http.world :=
        emits [Fetch (SendMessage (Txt (ADMIN_CHAT_ID (Http.env config)))
                        (Http.botError error) None)] (Http.world s);
      Http.sent := Http.sent s |}).
Proof.
  intros Hc Hm Hp Ha Hb.
  rewrite (handleRequest_routes _ _ _ Hc), (route_webhook _ _ Hm Hp).
  unfold Http.lift. now rewrite (handleWebhook_fails _ _ _ _ Ha Hb).
Qed.

Lemma webhook_unreadable_body_witness :
  let request :=
    Fixture.request "POST" "/webhook" None
      (Http.Malformed "Unexpected end of JSON input") in
  let config := Fixture.config "token" None in
  configured config = true /\
  authorised request config = true /\
  Http.handleRequest (R := Fixture.flaky) (O := Fixture.operator)
    request config Fixture.server =
  (Val Http.failure,
   {| Http.world :=
        emits [Fetch (SendMessage (Txt "1000")
                        (Http.botError "Unexpected end of JSON input") None)]
          (Fixture.world None);
      Http.sent := [] |}).
Proof.
  intros request config. split; [reflexivity|]. split; [reflexivity|].
  apply (webhook_unreadable_body (R := Fixture.flaky)
           (O := Fixture.operator) request config Fixture.server
           "Unexpected end of JSON input");
    reflexivity.
Defined.

(** [GET /setWebhook] registers the address of the webhook at the origin
    of the request, with the secret of the configuration or the empty
    string, by one call.  The answer of the transport is returned as
    text with status 200 and nothing else is done; a failure of the call
    is answered by 500 after one notification of the administrator. *)
Theorem setWebhook_registers {R : Runtime} {O : Http.Operator}
  (request : Http.Request) (config : Http.Config) (s : Http.Server) :
  configured config = true ->
  Http.method request = "GET" -> Http.pathname request = "/setWebhook" ->
  let call :=
    Http.SetWebhook (Http.origin request ++ "/webhook")
      (or_else (Http.WEBHOOK_SECRET config) "") in
  let s' := {| Http.world := Http.world s;
               Http.sent := (Http.sent s ++ [call])%list |} in
  Http.handleRequest request config s =
  match Http.answer (Http.sent s) call with
  | Returned result =>
      (Val {| Http.status := 200; Http.content := Http.stringify result |},
       s')
  | Failed error =>
      (Val Http.failure,
       {| Http.world :=
            emits [Fetch (SendMessage
                            (Txt (ADMIN_CHAT_ID (Http.env config)))
                            (Http.systemError error) None)]
              (Http.world s);
          Http.sent := Http.sent s' |})
  end.
Proof.
  intros Hc Hm Hp call s'.
  apply (maintenance_spec request config s call Hc).
  unfold Http.route. now rewrite Hm, Hp.
Qed.

Lemma setWebhook_registers_witness :
  let request := Fixture.request "GET" "/setWebhook" None (Http.Update None) in
  let config := Fixture.config "token" (Some "s3cret") in
  configured config = true /\
  Http.handleRequest (R := Fixture.ideal) (O := Fixture.operator)
    request config Fixture.server =
  (Val {| Http.status := 200; Http.content := "{}" |},
   {| Http.world := Fixture.world None;
      Http.sent :=
        [Http.SetWebhook "https://bot.example/webhook" "s3cret"] |}).
Proof.
  intros request config. split; [reflexivity|].
  apply (setWebhook_registers (R := Fixture.ideal) (O := Fixture.operator)
           request config Fixture.server);
    reflexivity.
Defined.

(** A request that finds a variable of the configuration missing, or
    that asks for none of the three routes that act, changes nothing: no
    request is sent and nothing is written, also when it is an update
    for the webhook that carries the right secret. *)
Theorem idle_requests_touch_nothing {R : Runtime} {O : Http.Operator}
  (request : Http.Request) (config : Http.Config) (s : Http.Server) :
  configured config = false \/
  ~ In (Http.method request, Http.pathname request)
      [("POST", "/webhook"); ("GET", "/setWebhook"); ("GET", "/me")] ->
  exists response,
    Http.handleRequest request config s = (Val response, s) /\
    In (Http.status response) [200; 404; 500]%Z.
Proof.
  destruct (configured config) eqn:Hc.
  - intros [H|H]; [discriminate|].
    rewrite (handleRequest_routes _ _ _ Hc).
    destruct (route_idle request config s H) as [-> | ->];
      eexists; (split; [reflexivity | simpl; tauto]).
  - intros _. unfold configured in Hc. unfold Http.handleRequest.
    apply andb_false_iff in Hc.
    assert (H : Http.unset (BOT_TOKEN (Http.env config)) ||
                Http.unset (ADMIN_CHAT_ID (Http.env config)) = true).
    { destruct Hc as [Hc|Hc]; apply negb_false_iff in Hc; rewrite Hc;
        [reflexivity | apply orb_true_r]. }
    rewrite H. eexists. split; [reflexivity | simpl; tauto].
Qed.

Lemma idle_requests_touch_nothing_witness :
  let request :=
    Fixture.request "POST" "/webhook" (Some "s3cret")
      (Http.Update (Some (Http.Wellformed Fixture.hello))) in
  let config := Fixture.config "" (Some "s3cret") in
  configured config = false /\
  Http.handleRequest (R := Fixture.ideal) (O := Fixture.operator)
    request config Fixture.server =
  (Val (Http.missing "BOT_TOKEN"), Fixture.server).
Proof.
  intros request config. split; [reflexivity|].
  destruct (idle_requests_touch_nothing (R := Fixture.ideal)
              (O := Fixture.operator) request config Fixture.server
              (or_introl eq_refl))
    as (response & E & _).
  rewrite E. vm_compute in E. exact (eq_sym E).
Defined.

(** ** Of the broadcast command as a whole *)

Lemma targetCount_spec (userIds : UserIds) (w : World) :
  targetCount userIds w = (Val (List.length (resolve userIds w)), w).
Proof.
  destruct userIds as [|l]; unfold targetCount, resolve.
  - unfold bind, getUsersFromKV, ret.
    destruct (USER_STORAGE w) as [users|]; [|reflexivity].
    now rewrite length_map.
  - unfold ret. now rewrite length_map.
Qed.

(** What a broadcast over the recipients of its targets sends and
    counts. *)
Lemma broadcast_counts {R : Runtime} (userIds : UserIds) (message : string)
  (env : Env) (w : World) :
  exists results events,
    broadcastMessage userIds message env false None w =
    (Val results, emits events w) /\
    requests events =
    map (delivery env message false None) (resolve userIds w) /\
    (success results + failed results =
     Nat.max 1 (List.length (resolve userIds w)))%nat.
Proof.
  destruct (resolve userIds w) as [|c targets] eqn:E.
  - eexists; exists []. rewrite emits_nil.
    split; [now apply broadcast_nobody|]. now split.
  - assert (Hr : resolve userIds w <> []) by congruence.
    destruct (broadcast_spec message env false None userIds w Hr)
      as (results & events & H & (Hq & _ & Hn & _) & _).
    exists results, events. rewrite E in Hq, Hn.
    split; [exact H|]. split; [exact Hq|]. simpl in Hn |- *. lia.
Qed.

(** The broadcast command that names a payload and somebody to send it
    to.  The announcement to the administrator carries the number of
    recipients and comes first.  When the transport answers it, every
    recipient is sent the payload as a text under the heading of a
    broadcast, in the order of the targets,
    and then the report goes to the administrator, with counts that sum
    to the number of recipients, or to one when the directory is empty;
    at most one notice of a failure follows, to the administrator.  When
    the announcement fails, nobody is sent the payload. *)
Theorem accepted_post_runs {R : Runtime} (message : Msg.t) (env : Env)
  (w : World) (userIds : UserIds) (postMessage : string) :
  text_starts (Msg.text message) "/post" = true ->
  parsePostTargets (Str.trim (Str.drop 5 (text_of (Msg.text message)))) =
  Build_PostTargets userIds postMessage ->
  addressed env (Build_PostTargets userIds postMessage) = true ->
  let admin := Txt (ADMIN_CHAT_ID env) in
  let targets := resolve userIds w in
  let announcement :=
    SendMessage admin (Text.starting (List.length targets))
      (Some (Msg.message_id message)) in
  match transport (trace w) announcement with
  | Returned body =>
      exists results events notices,
        handleAdminMessage message env w =
        (Val tt,
         emits (Fetch announcement :: events ++
                map Fetch (SendMessage admin (report results) None :: notices))
           w) /\
        requests events = map (delivery env postMessage false None) targets /\
        (success results + failed results =
         Nat.max 1 (List.length targets))%nat /\
        Forall (to_admin env) notices /\ (List.length notices <= 1)%nat
  | Failed error =>
      handleAdminMessage message env w =
      (Val tt,
       emits [Fetch announcement;
              Fetch (SendMessage admin (Text.processingError error) None)] w)
  end.
Proof.
  intros Hpost Hparse Hok admin targets announcement.
  rewrite (post_branch message env Hpost).
  unfold postCommand. fold admin.
  destruct (Str.trim (Str.drop 5 (text_of (Msg.text message))))
    as [|c commandText] eqn:Ec.
  { rewrite <- Hparse in Hok. discriminate Hok. }
  rewrite Hparse. unfold addressed in Hok. simpl in Hok.
  destruct postMessage as [|c' payload]; [discriminate Hok|].
  assert (Hg : is_all userIds && negb (tracking env) = false /\
               is_empty_array userIds = false).
  { destruct userIds as [|[|id ids]]; simpl; try discriminate Hok.
    - now rewrite Hok.
    - now split. }
  destruct Hg as [-> ->].
  assert (Hrun : forall handler,
            try_catch
              (bind (targetCount userIds) (fun targetCount =>
               bind (sendMessage admin (Text.starting targetCount)
                       (Some (Msg.message_id message))) (fun _ =>
               bind (broadcastMessage userIds (String c' payload) env false
                       None) (fun results =>
               bind (sendMessage admin (report results) None) (fun _ =>
               ret tt))))) handler w =
            match transport (trace w) announcement with
            | Returned _ =>
                try_catch
                  (bind (broadcastMessage userIds (String c' payload) env
                           false None) (fun results =>
                   bind (sendMessage admin (report results) None) (fun _ =>
                   ret tt))) handler (emit (Fetch announcement) w)
            | Failed error => handler error (emit (Fetch announcement) w)
            end).
  { intros handler. unfold try_catch at 1. unfold bind at 1.
    rewrite targetCount_spec. fold targets.
    unfold bind at 1. unfold sendMessage at 1. fold announcement.
    unfold callTelegramAPI.
    destruct (transport (trace w) announcement); reflexivity. }
  rewrite Hrun. clear Hrun.
  destruct (transport (trace w) announcement) as [body|error].
  - destruct (broadcast_counts userIds (String c' payload) env
                (emit (Fetch announcement) w))
      as (results & events & Hb & Hq & Hn).
    change (resolve userIds (emit (Fetch announcement) w))
      with targets in Hq, Hn.
    set (final := SendMessage admin (report results) None).
    destruct (notice_after env final
                (emits events (emit (Fetch announcement) w)) eq_refl)
      as (rest & E & F).
    assert (Hrest : (List.length rest <= 1)%nat).
    { revert E. unfold try_catch, bind, sendMessage, callTelegramAPI, ret.
      set (w2 := emits events (emit (Fetch announcement) w)).
      destruct (transport (trace w2) final).
      - intros E. inversion E as [Etr].
        apply app_inv_head in Etr. inversion Etr.
        destruct rest; [simpl; lia | discriminate].
      - rewrite !emit_emits.
        destruct (transport (trace (emits _ _)) _); rewrite emits_emits;
          intros E; inversion E as [Etr]; apply app_inv_head in Etr;
          inversion Etr as [Er];
          apply (f_equal (@List.length _)) in Er;
          rewrite length_map in Er; simpl in Er; lia. }
    exists results, events, rest.
    split.
    + unfold try_catch at 1. unfold bind at 1. rewrite Hb.
      unfold try_catch, bind, sendMessage in E. fold final.
      etransitivity; [exact E|].
      f_equal. unfold emits, emit. cbn [USER_STORAGE now trace]. f_equal.
      now rewrite <- !app_assoc.
    + split; [exact Hq|]. split; [exact Hn|]. split; [|exact Hrest].
      now inversion F.
  - unfold try_catch, bind, sendMessage, callTelegramAPI, ret.
    destruct (transport _ _); f_equal;
      unfold emits, emit; cbn [USER_STORAGE now trace]; f_equal;
      now rewrite <- app_assoc.
Qed.

Lemma accepted_post_runs_witness :
  let message := Fixture.answer (Some "/post 42,43 hello") None in
  text_starts (Msg.text message) "/post" = true /\
  parsePostTargets "42,43 hello" = Build_PostTargets (Ids ["42"; "43"]) "hello" /\
  addressed (Fixture.env None) (Build_PostTargets (Ids ["42"; "43"]) "hello")
  = true /\
  exists results events notices,
    handleAdminMessage (R := Fixture.ideal) message (Fixture.env None)
      (Fixture.world None) =
    (Val tt,
     emits (Fetch (SendMessage (Txt "1000") (Text.starting 2) (Some 81%Z)) ::
            events ++
            map Fetch (SendMessage (Txt "1000") (report results) None ::
                       notices))
       (Fixture.world None)) /\
    requests events =
    [SendMessage (Txt "42") (Text.broadcast "hello") None;
     SendMessage (Txt "43") (Text.broadcast "hello") None] /\
    (success results + failed results = 2)%nat /\
    Forall (to_admin (Fixture.env None)) notices /\
    (List.length notices <= 1)%nat.
Proof.
  intros message.
  split; [reflexivity|]. split; [vm_compute; reflexivity|].
  split; [reflexivity|].
  pose proof (accepted_post_runs (R := Fixture.ideal) message
                (Fixture.env None) (Fixture.world None) (Ids ["42"; "43"])
                "hello" eq_refl eq_refl eq_refl) as H.
  cbv zeta in H. cbn [transport Fixture.ideal Fixture.accepted] in H.
  exact H.
Defined.

(** ** Of the commands of the administrator *)

(** Only a broadcast command and a reply that is no command reach
    anybody but the administrator: every other message of the
    administrator, that is [/start], [/status], [/help] and [/users],
    replying to a message or not, and any text or media that replies to
    nothing, is answered to the administrator alone, without a write to
    the store. *)
Theorem admin_commands_stay_home {R : Runtime} (message : Msg.t) (env : Env)
  (w : World) :
  text_starts (Msg.text message) "/post" = false ->
  Msg.reply_to_message message = None \/ plain (Msg.text message) = false ->
  exists events,
    handleAdminMessage message env w = (Val tt, emits events w) /\
    Forall (to_admin env) (requests events) /\
    puts events = [].
Proof.
  intros Hpost Hr.
  assert (H : calm (to_admin env) (handleAdminMessage message env)).
  { unfold handleAdminMessage, sendMessage.
    apply calm_try; [|intros e; now apply calm_attempt].
    destruct (text_is _ "/start") eqn:E1; [now apply sends_once|].
    destruct (text_is _ "/status") eqn:E2.
    { apply sends_bind.
      - destruct (tracking env); [|apply sends_ret].
        apply sends_bind; [apply sends_users | intros; apply sends_ret].
      - intros userCount. apply sends_bind; [apply sends_date | intros d].
        now apply sends_once. }
    destruct (text_is _ "/help") eqn:E3; [now apply sends_once|].
    rewrite Hpost.
    destruct (text_is _ "/users") eqn:E5.
    { unfold usersCommand, sendMessage.
      destruct (negb (tracking env)); [now apply sends_once|].
      apply sends_bind; [apply sends_users | intros users].
      destruct (List.length users =? 0)%nat; now apply sends_once. }
    destruct Hr as [-> | Hp]; [now apply sends_once|].
    unfold plain in Hp. rewrite E1, E2, E3, Hpost, E5 in Hp.
    discriminate Hp. }
  destruct (H w) as ([] & events & E & F & Hp). now exists events.
Qed.

Lemma admin_commands_stay_home_witness :
  let message := Fixture.answer (Some "/users") (Some Fixture.forwarded) in
  let env := Fixture.env (Some "true") in
  let w := Fixture.world (Some (Fixture.directory (fun k => k) 3)) in
  plain (Msg.text message) = false /\
  exists events,
    handleAdminMessage (R := Fixture.flaky) message env w =
    (Val tt, emits events w) /\
    Forall (to_admin env) (requests events) /\
    puts events = [].
Proof.
  intros message env w. split; [reflexivity|].
  apply (admin_commands_stay_home (R := Fixture.flaky) message env w);
    [reflexivity | right; reflexivity].
Defined.

(** ** Of the reply that carries media *)

(** The reply of the administrator without a text, a photo or a file, to
    a message from which a recipient is extracted: the first request
    copies the message of the administrator to the recipient, under the
    heading of a reply followed by the caption when there is one, and
    every other request, one or two of them, goes to the administrator;
    when the transport accepts the copy, the next request is the
    confirmation that names the recipient. *)
Theorem media_reply_is_copied {R : Runtime} (message : Msg.t)
  (replied : Replied.t) (env : Env) (w : World) (userChatId : string) :
  Msg.reply_to_message message = Some replied ->
  truthy (Msg.text message) = false ->
  extractUserChatId
    (or_opt (Replied.text replied) (Replied.caption replied))
    (USER_ID_SECRET env) = Some userChatId ->
  let admin := Txt (ADMIN_CHAT_ID env) in
  let caption :=
    if truthy (Msg.caption message)
    then Text.adminReply (text_of (Msg.caption message))
    else Text.adminReplyBare in
  let copy :=
    CopyMessage (Txt userChatId) admin (Some (Msg.message_id message))
      (Some caption) in
  exists notice notices,
    handleAdminMessage message env w =
    (Val tt, emits (Fetch copy :: map Fetch (notice :: notices)) w) /\
    Forall (to_admin env) (notice :: notices) /\
    (List.length notices <= 1)%nat /\
    (forall body,
       transport (trace w) copy = Returned body -> ok body = true ->
       notice = SendMessage admin (Text.replySent userChatId)
                  (Some (Msg.message_id message))).
Proof.
  intros Hr Ht Hx admin caption copy.
  assert (Hp : plain (Msg.text message) = true)
    by (destruct (Msg.text message) as [[|c t]|];
        [reflexivity | discriminate Ht | reflexivity]).
  rewrite (plain_reply message replied env Hr Hp).
  unfold routedReply. rewrite Hx. fold admin.
  assert (Hc : match Msg.text message with
               | Some (String _ _ as text) =>
                   sendMessage (Txt userChatId) (Text.adminReply text) None
               | _ =>
                   copyMessage (Txt userChatId) admin
                     (Some (Msg.message_id message))
                     (Some match Msg.caption message with
                           | Some (String _ _ as caption) =>
                               Text.adminReply caption
                           | _ => Text.adminReplyBare
                           end)
               end = callTelegramAPI copy).
  { unfold copy, caption, copyMessage.
    destruct (Msg.text message) as [[|c t]|]; try discriminate Ht;
      destruct (Msg.caption message) as [[|c' t']|]; reflexivity. }
  rewrite Hc.
  apply (reply_then_notice message env w copy userChatId).
Qed.

Lemma media_reply_is_copied_witness :
  let message :=
    {| Msg.from := Fixture.boss; Msg.chat_id := 1000; Msg.message_id := 82;
       Msg.text := None; Msg.caption := Some "the invoice";
       Msg.reply_to_message :=
         Some {| Replied.text := Some Fixture.forwarded;
                 Replied.caption := None; Replied.message_id := 80 |} |} in
  extractUserChatId (Some Fixture.forwarded) (Some "secret") = Some "42" /\
  handleAdminMessage (R := Fixture.ideal) message (Fixture.env None)
    (Fixture.world None) =
  (Val tt,
   emits [Fetch (CopyMessage (Txt "42") (Txt "1000") (Some 82%Z)
                   (Some (Text.adminReply "the invoice")));
          Fetch (SendMessage (Txt "1000") (Text.replySent "42") (Some 82%Z))]
     (Fixture.world None)).
Proof.
  intros message.
  assert (Hx : extractUserChatId (Some Fixture.forwarded) (Some "secret")
               = Some "42") by (vm_compute; reflexivity).
  split; [exact Hx|].
  destruct (media_reply_is_copied (R := Fixture.ideal) message
              {| Replied.text := Some Fixture.forwarded;
                 Replied.caption := None; Replied.message_id := 80 |}
              (Fixture.env None) (Fixture.world None) "42"
              eq_refl eq_refl Hx)
    as (notice & notices & E & _ & Hl & Hn).
  rewrite E. rewrite (Hn _ eq_refl eq_refl).
  destruct notices as [|n notices]; [reflexivity|].
  exfalso. vm_compute in E. discriminate E.
Defined.

(** ** Of the route of the identity of the bot *)

(** [GET /me] makes one call of [getMe]: the answer of the transport is
    returned as text with status 200 and nothing else is done; a failure
    of the call is answered by 500 after one notification of the
    administrator. *)
Theorem me_reports {R : Runtime} {O : Http.Operator}
  (request : Http.Request) (config : Http.Config) (s : Http.Server) :
  configured config = true ->
  Http.method request = "GET" -> Http.pathname request = "/me" ->
  let s' := {| Http.world := Http.world s;
               Http.sent := (Http.sent s ++ [Http.GetMe])%list |} in
  Http.handleRequest request config s =
  match Http.answer (Http.sent s) Http.GetMe with
  | Returned result =>
      (Val {| Http.status := 200; Http.content := Http.stringify result |},
       s')
  | Failed error =>
      (Val Http.failure,
       {| Http.world :=
            emits [Fetch (SendMessage
                            (Txt (ADMIN_CHAT_ID (Http.env config)))
                            (Http.systemError error) None)]
              (Http.world s);
          Http.sent := Http.sent s' |})
  end.
Proof.
  intros Hc Hm Hp s'.
  apply (maintenance_spec request config s Http.GetMe Hc).
  unfold Http.route. now rewrite Hm, Hp.
Qed.

Lemma me_reports_witness :
  let request := Fixture.request "GET" "/me" None (Http.Update None) in
  let config := Fixture.config "token" None in
  let down : Http.Operator :=
    {| Http.answer := fun _ _ => Failed "Telegram API error: 502 Bad Gateway";
       Http.stringify := fun _ => "{}" |} in
  configured config = true /\
  Http.handleRequest (R := Fixture.ideal) (O := down)
    request config Fixture.server =
  (Val Http.failure,
   {| Http.world :=
        emits [Fetch (SendMessage (Txt "1000")
                        (Http.systemError
                           "Telegram API error: 502 Bad Gateway") None)]
          (Fixture.world None);
      Http.sent := [Http.GetMe] |}).
Proof.
  intros request config down. split; [reflexivity|].
  apply (me_reports (R := Fixture.ideal) (O := down)
           request config Fixture.server);
    reflexivity.
Defined.
